(** * Gesture window tiler ([win_tiler_test_2.py]): model and properties

    The development embeds the gesture recorder, the stroke detectors, the
    region store and the tiling engine of [win_tiler_test_2.py], and
    settles what the specification says about them.

    Modelling conventions.
    - Python exceptions are the [Raise] outcome of [result].
    - Mouse coordinates are unbounded integers ([Z]); the source holds them
      in a numpy integer array, whose wrap-around is out of reach for
      pixel coordinates.
    - Python [float] is IEEE binary64, here the primitive [float];
      [int(f)] and [float(n)] go through its exact decomposition.
      [float(s)] on a [str] is a parameter, [float_of_str].
    - A Python [dict] is an association list in insertion order.
    - The mapping file holds the tokens of a JSON text; every write to it
      is one step, so that an interrupted save can be observed.
    - The desktop is a list of windows with the attributes that the Win32
      calls of the tiler read and write; a window may be marked so that
      [ShowWindow] or [MoveWindow] raises for it. The two calls change the
      show state and the placement of their window; activation and the
      monitor a moved window ends on are not modelled, and the properties
      below do not rest on the Z-order, the foreground window or the
      monitors after a call.
    - The calls guarded by [with self.lock] are atomic steps.
    - The module defines [tile_window] twice; [tile_window] below is the
      later definition, which Python binds to the name, and
      [Shadowed.tile_window] is the earlier one. *)

From Stdlib Require Import ZArith String Ascii List Bool Lia.
From Stdlib Require Import PrimFloat SpecFloat FloatOps.
Import ListNotations.
Open Scope string_scope.
Open Scope list_scope.
Open Scope Z_scope.

Set Warnings "-register-all".

(** ** Exceptions *)

Inductive exn : Type :=
| IndexError
| TypeError
| ValueError
| OverflowError
| JSONDecodeError
| WinError.

Inductive result (A : Type) : Type :=
| Ok (a : A)
| Raise (e : exn).

Arguments Ok {A} a.
Arguments Raise {A} e.

Definition bind {A B : Type} (r : result A) (k : A -> result B) : result B :=
  match r with
  | Ok a => k a
  | Raise e => Raise e
  end.

Notation "x <- c ;; k" := (bind c (fun x => k))
  (at level 61, c at next level, right associativity).

(** ** Sequences *)

Definition py_len {A : Type} (l : list A) : Z := Z.of_nat (length l).

(** [l[i]] with Python's negative indices. *)
Definition py_item {A : Type} (l : list A) (i : Z) : result A :=
  let j := if i <? 0 then i + py_len l else i in
  if (0 <=? j) && (j <? py_len l)
  then match nth_error l (Z.to_nat j) with
       | Some a => Ok a
       | None => Raise IndexError
       end
  else Raise IndexError.

(** ** Configuration *)

Definition MIN_STROKE : Z := 80.

(** ** Gesture recording *)

Definition Point : Type := (Z * Z)%type.

Module Recorder.

Record t : Type := mk { pts : list Point }.

Definition init : t := mk [].

Definition on_move (x y : Z) (self : t) : t := mk (pts self ++ [(x, y)]).

Definition clear (self : t) : t := mk [].

(** Returns the array built from the buffer, and the emptied recorder. *)
Definition fetch (self : t) : list Point * t := (pts self, mk []).

(** The calls that reach a recorder, each one atomic under the lock. *)
Inductive call : Type :=
| OnMove (x y : Z)
| Clear
| Fetch.

(** Runs the calls in order; the second component lists the arrays
    returned by the [Fetch] calls, oldest first. *)
Fixpoint run (cs : list call) (self : t) : t * list (list Point) :=
  match cs with
  | [] => (self, [])
  | OnMove x y :: cs' => run cs' (on_move x y self)
  | Clear :: cs' => run cs' (clear self)
  | Fetch :: cs' =>
      let (arr, self') := fetch self in
      let (final, outs) := run cs' self' in
      (final, arr :: outs)
  end.

(** The calls that empty the buffer. *)
Inductive reset : Type := RClear | RFetch.

Definition call_of_reset (r : reset) : call :=
  match r with RClear => Clear | RFetch => Fetch end.

Definition moves (ps : list Point) : list call :=
  map (fun p => OnMove (fst p) (snd p)) ps.

(** Every point appended by the calls, in order. *)
Fixpoint appended (cs : list call) : list Point :=
  match cs with
  | [] => []
  | OnMove x y :: cs' => (x, y) :: appended cs'
  | _ :: cs' => appended cs'
  end.

End Recorder.

(** [subseq l1 l2]: [l1] is [l2] with some elements struck out. *)
Inductive subseq {A : Type} : list A -> list A -> Prop :=
| subseq_nil : subseq [] []
| subseq_skip : forall a l1 l2, subseq l1 l2 -> subseq l1 (a :: l2)
| subseq_take : forall a l1 l2, subseq l1 l2 -> subseq (a :: l1) (a :: l2).

(** ** Gesture detectors *)

(** Difference of two rows of the sample array; component 0 is x and
    component 1 is y (which grows downwards on screen). *)
Definition vsub (p q : Point) : Point := (fst p - fst q, snd p - snd q).

Definition make_L_detector (dy_sign dx_sign : Z) (pts : list Point) : result bool :=
  if py_len pts <? 6 then Ok false else
  let m := py_len pts / 2 in
  a <- py_item pts (m - 1) ;;
  b <- py_item pts 0 ;;
  let v1 := vsub a b in
  c <- py_item pts (-1) ;;
  d <- py_item pts m ;;
  let v2 := vsub c d in
  Ok ((Z.abs (snd v1) >? Z.abs (fst v1)) && (snd v1 * dy_sign >? MIN_STROKE) &&
      (Z.abs (fst v2) >? Z.abs (snd v2)) && (fst v2 * dx_sign >? MIN_STROKE)).

Definition detect_V (pts : list Point) : result bool :=
  if py_len pts <? 8 then Ok false else
  let t := py_len pts / 3 in
  a <- py_item pts t ;;
  b <- py_item pts 0 ;;
  let v1 := vsub a b in
  c <- py_item pts (2 * t) ;;
  d <- py_item pts t ;;
  let v2 := vsub c d in
  Ok ((snd v1 >? MIN_STROKE) && (fst v1 >? MIN_STROKE) &&
      (snd v2 <? - MIN_STROKE) && (fst v2 >? MIN_STROKE)).

Definition GESTURES : list (string * (list Point -> result bool)) :=
  [ ("L_down_right", make_L_detector 1 1);
    ("L_up_right",   make_L_detector (-1) 1);
    ("L_down_left",  make_L_detector 1 (-1));
    ("L_up_left",    make_L_detector (-1) (-1));
    ("V_shape",      detect_V) ].

(** The [for name, fn in GESTURES.items(): if fn(pts): ... break / else]
    loop of [record_and_action]: the name it acts on, if any. *)
Fixpoint first_match (gs : list (string * (list Point -> result bool)))
    (pts : list Point) : result (option string) :=
  match gs with
  | [] => Ok None
  | (name, fn) :: rest =>
      b <- fn pts ;;
      if b then Ok (Some name) else first_match rest pts
  end.

Definition classify (pts : list Point) : result (option string) :=
  first_match GESTURES pts.

(** *** The detectors in the words of the specification *)

(** Net displacement along a stretch of the sample: last point minus first. *)
Definition displacement (seg : list Point) : option Point :=
  match seg with
  | [] => None
  | p :: _ => Some (vsub (last seg p) p)
  end.

Definition first_half (pts : list Point) : list Point :=
  firstn (length pts / 2) pts.

Definition second_half (pts : list Point) : list Point :=
  skipn (length pts / 2) pts.

Definition vertical_dominant (v : Point) : Prop := Z.abs (fst v) < Z.abs (snd v).
Definition horizontal_dominant (v : Point) : Prop := Z.abs (snd v) < Z.abs (fst v).

(** The first and the last point of a stretch of the sample. *)
Definition ends (seg : list Point) : option (Point * Point) :=
  match seg with
  | [] => None
  | p :: _ => Some (p, last seg p)
  end.

(** An L stroke, coordinate by coordinate. The first half of the sample
    runs from [(x0, y0)] to [(x1, y1)], the second half from [(x2, y2)] to
    [(x3, y3)]; the displacement over a half is its last point minus its
    first. The first displacement is mostly vertical and longer than
    [MIN_STROKE] in direction [dy_sign], the second mostly horizontal and
    longer than [MIN_STROKE] in direction [dx_sign]. *)
Definition L_shape (dy_sign dx_sign : Z) (pts : list Point) : Prop :=
  (6 <= length pts)%nat /\
  exists x0 y0 x1 y1 x2 y2 x3 y3,
    ends (first_half pts) = Some ((x0, y0), (x1, y1)) /\
    ends (second_half pts) = Some ((x2, y2), (x3, y3)) /\
    Z.abs (x1 - x0) < Z.abs (y1 - y0) /\ MIN_STROKE < (y1 - y0) * dy_sign /\
    Z.abs (y3 - y2) < Z.abs (x3 - x2) /\ MIN_STROKE < (x3 - x2) * dx_sign.

(** A sample that starts at [(x, y)], moves [d] pixels straight down over
    its first half and 100 pixels to the right over its second half. *)
Definition L_sample (x y d : Z) : list Point :=
  [(x, y); (x, y + d); (x, y + d); (x, y + d); (x + 50, y + d); (x + 100, y + d)].

(** A sample that rests at [(0, 100)] over its first half and at
    [(100, 0)] over its second half: far from the origin, but with no
    displacement over either half. *)
Definition parked_sample : list Point :=
  [(0, 100); (0, 100); (0, 100); (100, 0); (100, 0); (100, 0)].

Definition down_right (v : Point) : Prop := MIN_STROKE < snd v /\ MIN_STROKE < fst v.
Definition up_right (v : Point) : Prop := snd v < - MIN_STROKE /\ MIN_STROKE < fst v.

(** The V stroke as the specification words it: the first two thirds of
    the sample against the final third. *)
Definition first_two_thirds (pts : list Point) : list Point :=
  firstn (2 * (length pts / 3) + 1) pts.

Definition final_third (pts : list Point) : list Point :=
  skipn (2 * (length pts / 3)) pts.

Definition V_shape_two_thirds (pts : list Point) : Prop :=
  (8 <= length pts)%nat /\
  exists v1 v2,
    displacement (first_two_thirds pts) = Some v1 /\
    displacement (final_third pts) = Some v2 /\
    down_right v1 /\ up_right v2.

(** The V stroke as [detect_V] reads it: the first third against the
    middle third; the points after index [2 * (len // 3)] play no part. *)
Definition first_third (pts : list Point) : list Point :=
  firstn (length pts / 3 + 1) pts.

Definition middle_third (pts : list Point) : list Point :=
  firstn (length pts / 3 + 1) (skipn (length pts / 3) pts).

Definition V_shape_thirds (pts : list Point) : Prop :=
  (8 <= length pts)%nat /\
  exists v1 v2,
    displacement (first_third pts) = Some v1 /\
    displacement (middle_third pts) = Some v2 /\
    down_right v1 /\ up_right v2.

(** Down-right over the first third, up-right over the middle third,
    then at rest: 9 points. *)
Definition V_sample_early : list Point :=
  [(0, 0); (30, 30); (60, 60); (100, 100); (130, 70); (160, 40);
   (200, 0); (200, 0); (200, 0)].

(** Down-right over the first two thirds, up-right over the final third:
    9 points. *)
Definition V_sample_late : list Point :=
  [(0, 0); (15, 15); (30, 30); (50, 50); (65, 65); (80, 80);
   (100, 100); (150, 50); (200, 0)].

(** A sample that satisfies both the L-down-right and the V conditions. *)
Definition LV_sample : list Point :=
  [(0, 0); (0, 0); (0, 0); (81, 200); (81, 200); (100, 150);
   (181, 100); (250, 150); (300, 200)].

(** ** Python values *)

(** The values that [json.load] can return and that the region store
    holds; a [dict] has [str] keys throughout. *)
Inductive pyval : Type :=
| PNone
| PBool (b : bool)
| PInt (z : Z)
| PFloat (f : float)
| PStr (s : string)
| PList (l : list pyval)
| PTuple (l : list pyval)
| PDict (d : list (string * pyval)).

Fixpoint dict_get (d : list (string * pyval)) (k : string) : option pyval :=
  match d with
  | [] => None
  | (k', v) :: d' => if String.eqb k' k then Some v else dict_get d' k
  end.

(** [d.get(k, default)]. *)
Definition py_get (d : list (string * pyval)) (k : string) (default : pyval) : pyval :=
  match dict_get d k with
  | Some v => v
  | None => default
  end.

(** [d[k] = v]: an existing key keeps its place. *)
Fixpoint dict_set (d : list (string * pyval)) (k : string) (v : pyval)
    : list (string * pyval) :=
  match d with
  | [] => [(k, v)]
  | (k', v') :: d' =>
      if String.eqb k' k then (k', v) :: d' else (k', v') :: dict_set d' k v
  end.

(** [isinstance(x, numbers.Number)]; [bool] is a subclass of [int]. *)
Definition is_number (v : pyval) : bool :=
  match v with
  | PBool _ | PInt _ | PFloat _ => true
  | _ => false
  end.

(** ** Floating point *)

(** Nearest binary64 to an integer, ties to even. *)
Definition float_of_Z (z : Z) : float :=
  SF2Prim (binary_normalize prec emax z 0 false).

(** [float(n)] for an [int]. *)
Definition py_float_of_int (z : Z) : result float :=
  let f := float_of_Z z in
  if is_infinity f then Raise OverflowError else Ok f.

(** [int(f)]: truncation towards zero. *)
Definition int_of_float (f : float) : result Z :=
  match Prim2SF f with
  | S754_zero _ => Ok 0
  | S754_finite s m e =>
      let a := if 0 <=? e then Z.shiftl (Z.pos m) e else Z.shiftr (Z.pos m) (- e) in
      Ok (if s then - a else a)
  | S754_infinity _ => Raise OverflowError
  | S754_nan => Raise ValueError
  end.

(** [n * f] for an [int] and a [float]. *)
Definition mul_int_float (n : Z) (f : float) : result float :=
  fn <- py_float_of_int n ;;
  Ok (PrimFloat.mul fn f).

(** [int(n * f)]. *)
Definition scale (n : Z) (f : float) : result Z :=
  p <- mul_int_float n f ;;
  int_of_float p.

(** ** Regions *)

(** The dict built by [region_from_value]: exactly four [float] entries. *)
Record region : Type := mkRegion {
  x_frac : float;
  y_frac : float;
  w_frac : float;
  h_frac : float
}.

Definition region_to_py (r : region) : pyval :=
  PDict [ ("x_frac", PFloat (x_frac r));
          ("y_frac", PFloat (y_frac r));
          ("w_frac", PFloat (w_frac r));
          ("h_frac", PFloat (h_frac r)) ].

(** [len(v) >= 4 and all(isinstance(x, numbers.Number) for x in v[:4])]. *)
Definition flat_four (l : list pyval) : bool :=
  (py_len l >=? 4) && forallb is_number (firstn 4 l).

Section RegionStore.

(** [float(s)] for a [str]: the text-to-number conversion of the
    interpreter. *)
Variable float_of_str : string -> result float.

(** [float(v)]. *)
Definition py_float (v : pyval) : result float :=
  match v with
  | PFloat f => Ok f
  | PInt z => py_float_of_int z
  | PBool b => Ok (if b then 1%float else 0%float)
  | PStr s => float_of_str s
  | PNone | PList _ | PTuple _ | PDict _ => Raise TypeError
  end.

Definition region_of_four (x y w h : pyval) : result (option region) :=
  fx <- py_float x ;;
  fy <- py_float y ;;
  fw <- py_float w ;;
  fh <- py_float h ;;
  Ok (Some (mkRegion fx fy fw fh)).

(** [None] is Python's [None]. *)
Definition region_from_value (v : pyval) : result (option region) :=
  match v with
  | PDict d =>
      region_of_four (py_get d "x_frac" (PInt 0)) (py_get d "y_frac" (PInt 0))
                     (py_get d "w_frac" (PInt 1)) (py_get d "h_frac" (PInt 1))
  | PList l | PTuple l =>
      if flat_four l
      then match firstn 4 l with
           | [x; y; w; h] => region_of_four x y w h
           | _ => Raise ValueError
           end
      else Ok None
  | _ => Ok None
  end.

(** [r = region_from_value(v); if r: acc.append(r)]. *)
Definition append_region (acc : list region) (v : pyval) : result (list region) :=
  r <- region_from_value v ;;
  Ok (match r with Some r => acc ++ [r] | None => acc end).

(** [for elem in l: r = region_from_value(elem); if r: acc.append(r)]. *)
Fixpoint append_regions (acc : list region) (l : list pyval) : result (list region) :=
  match l with
  | [] => Ok acc
  | elem :: l' =>
      acc' <- append_region acc elem ;;
      append_regions acc' l'
  end.

(** The [items] that [normalize_loaded] builds for one gesture. *)
Definition normalize_items (val : pyval) : result (list region) :=
  match val with
  | PDict _ => append_region [] val
  | PList l => if flat_four l then append_region [] val else append_regions [] l
  | _ => Ok []
  end.

Fixpoint normalize_entries (normalized : list (string * pyval))
    (entries : list (string * pyval)) : result (list (string * pyval)) :=
  match entries with
  | [] => Ok normalized
  | (name, val) :: rest =>
      items <- normalize_items val ;;
      normalize_entries (dict_set normalized name (PList (map region_to_py items))) rest
  end.

Definition normalize_loaded (raw : pyval) : result pyval :=
  match raw with
  | PDict d =>
      normalized <- normalize_entries [] d ;;
      Ok (PDict normalized)
  | _ => Ok (PDict [])
  end.

(** The list [regions] that both definitions of [tile_window] build
    from [cfg]. *)
Definition regions_of_cfg (cfg : pyval) : result (list region) :=
  match cfg with
  | PDict _ => append_region [] cfg
  | PList l | PTuple l =>
      if flat_four l then append_region [] cfg else append_regions [] l
  | _ => append_region [] cfg
  end.

End RegionStore.

(** ** The mapping file *)

(** The text of a JSON document, cut into the lexical tokens that
    [json.dump] writes and [json.load] reads; white space (all that
    [indent=2] adds) carries no meaning and is left out. A number or
    string token stands for its literal, which Python reads back to the
    value it was written from. *)
Inductive token : Type :=
| TLBrace | TRBrace
| TLBracket | TRBracket
| TComma | TColon
| TString (s : string)
| TInt (z : Z)
| TFloat (f : float)
| TTrue | TFalse | TNull.

(** The tokens that [json.dump] writes for a value, in order; a tuple is
    written as an array. *)
Fixpoint json_dump (v : pyval) : list token :=
  match v with
  | PNone => [TNull]
  | PBool true => [TTrue]
  | PBool false => [TFalse]
  | PInt z => [TInt z]
  | PFloat f => [TFloat f]
  | PStr s => [TString s]
  | PList l | PTuple l =>
      TLBracket ::
      (fix elems (l : list pyval) : list token :=
         match l with
         | [] => []
         | [x] => json_dump x
         | x :: r => json_dump x ++ TComma :: elems r
         end) l ++ [TRBracket]
  | PDict d =>
      TLBrace ::
      (fix members (d : list (string * pyval)) : list token :=
         match d with
         | [] => []
         | [(k, x)] => TString k :: TColon :: json_dump x
         | (k, x) :: r => TString k :: TColon :: json_dump x ++ TComma :: members r
         end) d ++ [TRBrace]
  end.

(** The object that [json.load] builds from the members of a JSON
    object: a repeated key keeps its first place and its last value. *)
Definition dict_of_members (ms : list (string * pyval)) : list (string * pyval) :=
  fold_left (fun d kv => dict_set d (fst kv) (snd kv)) ms [].

(** Recursive-descent reading of a token list; [n] bounds the depth of
    the calls. *)
Fixpoint parse_value (n : nat) (ts : list token) : option (pyval * list token) :=
  match n with
  | O => None
  | S n' =>
      match ts with
      | TNull :: r => Some (PNone, r)
      | TTrue :: r => Some (PBool true, r)
      | TFalse :: r => Some (PBool false, r)
      | TInt z :: r => Some (PInt z, r)
      | TFloat f :: r => Some (PFloat f, r)
      | TString s :: r => Some (PStr s, r)
      | TLBracket :: TRBracket :: r => Some (PList [], r)
      | TLBracket :: r =>
          match parse_elems n' r with
          | Some (vs, r') => Some (PList vs, r')
          | None => None
          end
      | TLBrace :: TRBrace :: r => Some (PDict [], r)
      | TLBrace :: r =>
          match parse_members n' r with
          | Some (ms, r') => Some (PDict (dict_of_members ms), r')
          | None => None
          end
      | _ => None
      end
  end
with parse_elems (n : nat) (ts : list token) : option (list pyval * list token) :=
  match n with
  | O => None
  | S n' =>
      match parse_value n' ts with
      | Some (v, TComma :: r) =>
          match parse_elems n' r with
          | Some (vs, r') => Some (v :: vs, r')
          | None => None
          end
      | Some (v, TRBracket :: r) => Some ([v], r)
      | _ => None
      end
  end
with parse_members (n : nat) (ts : list token)
    : option (list (string * pyval) * list token) :=
  match n with
  | O => None
  | S n' =>
      match ts with
      | TString k :: TColon :: r =>
          match parse_value n' r with
          | Some (v, TComma :: r') =>
              match parse_members n' r' with
              | Some (ms, r'') => Some ((k, v) :: ms, r'')
              | None => None
              end
          | Some (v, TRBrace :: r') => Some ([(k, v)], r')
          | _ => None
          end
      | _ => None
      end
  end.

(** [json.load]: the whole text must be one document. *)
Definition json_load (ts : list token) : result pyval :=
  match parse_value (2 * length ts + 1) ts with
  | Some (v, []) => Ok v
  | _ => Raise JSONDecodeError
  end.

(** The contents of [MAPPINGS_FILE]; [None] when the file does not exist. *)
Definition file : Type := option (list token).

Definition load_mappings (float_of_str : string -> result float) (f : file)
    : result pyval :=
  match f with
  | Some ts =>
      raw <- json_load ts ;;
      normalize_loaded float_of_str raw
  | None => Ok (PDict [])
  end.

(** Where [save_mappings] stands: about to open the file, inside
    [json.dump] with the tokens still to be written, or returned. *)
Inductive save_pc : Type :=
| SaveOpen (m : pyval)
| SaveDump (pending : list token)
| SaveDone.

(** One step of [save_mappings]: [open(MAPPINGS_FILE, 'w')] creates the
    file or empties it; each write appends to it; closing changes
    nothing. *)
Definition save_step (st : save_pc * file) : option (save_pc * file) :=
  match st with
  | (SaveOpen m, _) => Some (SaveDump (json_dump m), Some [])
  | (SaveDump (t :: pending), f) =>
      Some (SaveDump pending, Some (match f with Some c => c | None => [] end ++ [t]))
  | (SaveDump [], f) => Some (SaveDone, f)
  | (SaveDone, _) => None
  end.

(** The state after at most [k] steps. *)
Fixpoint save_steps (k : nat) (st : save_pc * file) : save_pc * file :=
  match k with
  | O => st
  | S k' =>
      match save_step st with
      | Some st' => save_steps k' st'
      | None => st
      end
  end.

(** The file left by an uninterrupted [save_mappings(m)]. *)
Definition save_mappings (m : pyval) (f : file) : file :=
  snd (save_steps (length (json_dump m) + 2) (SaveOpen m, f)).

(** The file left when [save_mappings(m)] is interrupted after [k] steps. *)
Definition save_interrupted (k : nat) (m : pyval) (f : file) : file :=
  snd (save_steps k (SaveOpen m, f)).

(** A [float()] that accepts no text: the interpreter's conversion as far
    as inputs without [str] fractions can tell. *)
Definition no_text_floats (s : string) : result float := Raise ValueError.

(** Whether a float is exactly the integer [x]. *)
Definition float_is_int (g : float) (x : Z) : bool :=
  match Prim2SF g with
  | S754_zero _ => x =? 0
  | S754_finite s m e =>
      let sign := if s then -1 else 1 in
      if 0 <=? e then x =? sign * Z.shiftl (Z.pos m) e
      else (Z.land (Z.pos m) (Z.ones (- e)) =? 0) &&
           (x =? sign * Z.shiftr (Z.pos m) (- e))
  | _ => false
  end.

(** Python's [==] between numbers ([bool] counts as 0 or 1, an [int] and
    a [float] are compared exactly); [None] off the numbers. *)
Definition num_eq (a b : pyval) : option bool :=
  let as_int v := match v with
                  | PInt z => Some z
                  | PBool b => Some (if b then 1 else 0)
                  | _ => None
                  end in
  match as_int a, as_int b, a, b with
  | Some x, Some y, _, _ => Some (x =? y)
  | Some x, None, _, PFloat g => Some (float_is_int g x)
  | None, Some y, PFloat f, _ => Some (float_is_int f y)
  | None, None, PFloat f, PFloat g => Some (PrimFloat.eqb f g)
  | _, _, _, _ => None
  end.

(** Python's [==] on values: numbers by value, lists and tuples
    pointwise, dicts key by key whatever the order. *)
Fixpoint py_eq (a b : pyval) : bool :=
  match a, b with
  | PNone, PNone => true
  | PStr s, PStr t => String.eqb s t
  | PList l, PList l' | PTuple l, PTuple l' =>
      (fix pointwise (l l' : list pyval) : bool :=
         match l, l' with
         | [], [] => true
         | x :: r, y :: r' => py_eq x y && pointwise r r'
         | _, _ => false
         end) l l'
  | PDict d, PDict d' =>
      (length d =? length d')%nat &&
      (fix keywise (d : list (string * pyval)) : bool :=
         match d with
         | [] => true
         | (k, v) :: r =>
             match dict_get d' k with
             | Some v' => py_eq v v'
             | None => false
             end && keywise r
         end) d
  | _, _ =>
      match num_eq a b with
      | Some r => r
      | None => false
      end
  end.

(** A canonical region record as the editor's [onSave] stores it: the
    four fractions and the rectangle of the authoring monitor. *)
Definition canonical_region (x y w h : float) (left top right bottom : Z) : pyval :=
  PDict [ ("x_frac", PFloat x); ("y_frac", PFloat y);
          ("w_frac", PFloat w); ("h_frac", PFloat h);
          ("monitor", PList [PInt left; PInt top; PInt right; PInt bottom]) ].

(** One gesture mapped to the left half of a 1920 by 1080 monitor at the
    origin. *)
Definition left_half_mapping : pyval :=
  PDict [ ("L_down_right",
           PList [canonical_region 0 0 0.5 1 0 0 1920 1080]) ].

(** *** Dicts that [region_from_value] turns into a region *)

Definition frac_keys : list string := ["x_frac"; "y_frac"; "w_frac"; "h_frac"].

(** The numbers that [float()] converts without raising. *)
Definition float_ok (v : pyval) : bool :=
  match v with
  | PFloat _ | PBool _ => true
  | PInt z => negb (is_infinity (float_of_Z z))
  | _ => false
  end.

(** The value of [float(v)] on such a number. *)
Definition as_float (v : pyval) : float :=
  match v with
  | PFloat f => f
  | PInt z => float_of_Z z
  | PBool true => 1%float
  | _ => 0%float
  end.

(** The entry of [d] under [k] as a float, or [default] when absent. *)
Definition frac_or (d : list (string * pyval)) (k : string) (default : float) : float :=
  match dict_get d k with
  | Some v => as_float v
  | None => default
  end.

Definition full_monitor : region := mkRegion 0 0 1 1.

(** ** The window system *)

(** A rectangle [(left, top, right, bottom)] in physical pixels. *)
Definition rect : Type := (Z * Z * Z * Z)%type.

Inductive show_state : Type := Normal | Minimized | Maximized.

(** A top-level window as the Win32 calls of the tiler see it. *)
Record window : Type := mkWindow {
  hwnd : Z;
  visible : bool;            (* IsWindowVisible *)
  title : string;            (* GetWindowText *)
  exstyle : Z;               (* GetWindowLong(hwnd, GWL_EXSTYLE) *)
  query_raises : bool;       (* one of the three queries above raises *)
  monitor : rect;            (* GetMonitorInfo(MonitorFromWindow(hwnd))['Monitor'] *)
  shown : show_state;
  placement : Z * Z * Z * Z; (* x, y, width, height *)
  show_raises : bool;        (* ShowWindow raises for this window *)
  move_raises : bool         (* MoveWindow raises for this window *)
}.

(** The desktop: the top-level windows in Z-order, the foreground window,
    and the size of the primary display, which the module reads once into
    [SCREEN_W] and [SCREEN_H]. *)
Record win32 : Type := mkWin32 {
  windows : list window;
  foreground : Z;
  SCREEN_W : Z;
  SCREEN_H : Z
}.

Definition WS_EX_TOOLWINDOW : Z := 128.

(** [c.isspace()] on the code points below 256. *)
Definition is_space (c : ascii) : bool :=
  let n := nat_of_ascii c in
  ((9 <=? n) && (n <=? 13) || (28 <=? n) && (n <=? 32) ||
   (n =? 133) || (n =? 160))%nat.

(** [not s.strip()]. *)
Fixpoint blank (s : string) : bool :=
  match s with
  | EmptyString => true
  | String c s' => is_space c && blank s'
  end.

(** Whether the callback of [enum_tilable_windows] appends the window. *)
Definition tilable (w : window) : bool :=
  negb (query_raises w) && visible w && negb (blank (title w)) &&
  (Z.land (exstyle w) WS_EX_TOOLWINDOW =? 0).

Definition enum_tilable_windows (os : win32) : list Z :=
  map hwnd (filter tilable (windows os)).

Definition find_window (os : win32) (h : Z) : option window :=
  find (fun w => hwnd w =? h) (windows os).

Definition update_window (h : Z) (f : window -> window) (os : win32) : win32 :=
  mkWin32 (map (fun w => if hwnd w =? h then f w else w) (windows os))
          (foreground os) (SCREEN_W os) (SCREEN_H os).

Definition set_shown (s : show_state) (w : window) : window :=
  mkWindow (hwnd w) (visible w) (title w) (exstyle w) (query_raises w)
           (monitor w) s (placement w) (show_raises w) (move_raises w).

Definition set_placement (p : Z * Z * Z * Z) (w : window) : window :=
  mkWindow (hwnd w) (visible w) (title w) (exstyle w) (query_raises w)
           (monitor w) (shown w) p (show_raises w) (move_raises w).

(** [win32gui.ShowWindow(hwnd, win32con.SW_RESTORE)]. Of the effects of
    the call the model keeps the show state of the window. Whether the
    system also activates the window, which would change the Z-order and
    the foreground window, is not modelled: [tile_window] reads both
    before its first call and never again. *)
Definition ShowWindow (os : win32) (h : Z) : result win32 :=
  match find_window os h with
  | Some w =>
      if show_raises w then Raise WinError
      else Ok (update_window h (set_shown Normal) os)
  | None => Raise WinError
  end.

(** [win32gui.MoveWindow(hwnd, x, y, w, h, True)]. The model sets the
    placement and leaves [monitor] as it was: the field stands for the
    monitor of the window when [tile_window] is called, which the first
    definition reads before it moves the window. *)
Definition MoveWindow (os : win32) (h x y wd ht : Z) : result win32 :=
  match find_window os h with
  | Some w =>
      if move_raises w then Raise WinError
      else Ok (update_window h (set_placement (x, y, wd, ht)) os)
  | None => Raise WinError
  end.

Definition get_monitor_rect_for_window (os : win32) (h : Z) : rect :=
  match find_window os h with
  | Some w => monitor w
  | None => (0, 0, SCREEN_W os, SCREEN_H os)
  end.

(** [l.remove(x)] for an [x] that is in [l]. *)
Fixpoint remove_first (x : Z) (l : list Z) : list Z :=
  match l with
  | [] => []
  | y :: l' => if y =? x then l' else y :: remove_first x l'
  end.

(** [if focused in candidates: candidates.remove(focused);
    candidates.insert(0, focused)]. *)
Definition focus_first (focused : Z) (candidates : list Z) : list Z :=
  if existsb (Z.eqb focused) candidates
  then focused :: remove_first focused candidates
  else candidates.

(** ** The tiling engine *)

(** The lines that [record_and_action] and [tile_window] print. *)
Inductive log_line : Type :=
| InfoRecording
| InfoDetected (name : string)
| WarnNoMapping (name : string)
| WarnNoGesture
| WarnInvalidMapping (cfg : pyval)
| WarnNoCandidates
| WarnInvalidMonitor (h : Z)
| InfoTiled (h : Z) (number : Z) (r : region)
| WarnFailed (h : Z) (e : exn)
| InfoRegionsUnused (k : Z)
| InfoWindowsLeft (k : Z).

(** The desktop and the lines printed so far. *)
Definition world : Type := (win32 * list log_line)%type.

(** The [try: ShowWindow; MoveWindow; print / except Exception: print]
    block for one window, region number [i + 1]. *)
Definition try_place (i : Z) (r : region) (h : Z) (p : Z * Z * Z * Z)
    (st : world) : world :=
  let '(os, log) := st in
  let '(x, y, wd, ht) := p in
  match ShowWindow os h with
  | Raise e => (os, log ++ [WarnFailed h e])
  | Ok os1 =>
      match MoveWindow os1 h x y wd ht with
      | Raise e => (os1, log ++ [WarnFailed h e])
      | Ok os2 => (os2, log ++ [InfoTiled h (i + 1) r])
      end
  end.

(** [x = int(SCREEN_W * x_frac)] ... [h = int(SCREEN_H * h_frac)]. *)
Definition pixel_rect (os : win32) (r : region) : result (Z * Z * Z * Z) :=
  x <- scale (SCREEN_W os) (x_frac r) ;;
  y <- scale (SCREEN_H os) (y_frac r) ;;
  wd <- scale (SCREEN_W os) (w_frac r) ;;
  ht <- scale (SCREEN_H os) (h_frac r) ;;
  Ok (x, y, wd, ht).

(** The body of the loop of [tile_window] for one region and window. *)
Definition tile_one (i : Z) (r : region) (h : Z) (st : world) : result unit * world :=
  match pixel_rect (fst st) r with
  | Raise e => (Raise e, st)
  | Ok p => (Ok tt, try_place i r h p st)
  end.

(** [for i in range(i, i + count): region = regions[i];
    hwnd = candidates[i]; ...]. *)
Fixpoint tile_loop (count : nat) (i : Z) (regions : list region)
    (candidates : list Z) (st : world) : result unit * world :=
  match count with
  | O => (Ok tt, st)
  | S count' =>
      match py_item regions i with
      | Raise e => (Raise e, st)
      | Ok r =>
          match py_item candidates i with
          | Raise e => (Raise e, st)
          | Ok h =>
              match tile_one i r h st with
              | (Raise e, st') => (Raise e, st')
              | (Ok _, st') => tile_loop count' (i + 1) regions candidates st'
              end
          end
      end
  end.

(** The second definition of [tile_window] in the module, the one a call
    reaches: it replaces the first when the module is loaded. *)
Definition tile_window (float_of_str : string -> result float) (cfg : pyval)
    (st : world) : result unit * world :=
  let '(os, log) := st in
  match regions_of_cfg float_of_str cfg with
  | Raise e => (Raise e, st)
  | Ok [] => (Ok tt, (os, log ++ [WarnInvalidMapping cfg]))
  | Ok regions =>
      match enum_tilable_windows os with
      | [] => (Ok tt, (os, log ++ [WarnNoCandidates]))
      | enumerated =>
          let candidates := focus_first (foreground os) enumerated in
          let n_to_tile := Z.min (py_len regions) (py_len candidates) in
          match tile_loop (Z.to_nat n_to_tile) 0 regions candidates st with
          | (Raise e, st') => (Raise e, st')
          | (Ok _, (os', log')) =>
              let log1 :=
                if py_len regions >? n_to_tile
                then log' ++ [InfoRegionsUnused (py_len regions - n_to_tile)]
                else log' in
              let log2 :=
                if py_len candidates >? n_to_tile
                then log1 ++ [InfoWindowsLeft (py_len candidates - n_to_tile)]
                else log1 in
              (Ok tt, (os', log2))
          end
      end
  end.

(** The first definition of [tile_window] in the module, which maps the
    fractions onto the monitor of each window. The second definition
    rebinds the name, so no call reaches this one. *)
Module Shadowed.

(** With [(lft, top, rgt, bot)] for the source's [left, top, right,
    bottom]: [x = left + int(mon_w * x_frac)] ... [h = max(1, int(mon_h * h_frac))]. *)
Definition pixel_rect (mon : rect) (r : region) : result (Z * Z * Z * Z) :=
  let '(lft, top, rgt, bot) := mon in
  let mon_w := rgt - lft in
  let mon_h := bot - top in
  x <- scale mon_w (x_frac r) ;;
  y <- scale mon_h (y_frac r) ;;
  wd <- scale mon_w (w_frac r) ;;
  ht <- scale mon_h (h_frac r) ;;
  Ok (lft + x, top + y, Z.max 1 wd, Z.max 1 ht).

Definition tile_one (i : Z) (r : region) (h : Z) (st : world) : result unit * world :=
  let '(lft, top, rgt, bot) := get_monitor_rect_for_window (fst st) h in
  if (rgt - lft <=? 0) || (bot - top <=? 0)
  then (Ok tt, (fst st, snd st ++ [WarnInvalidMonitor h]))
  else match pixel_rect (lft, top, rgt, bot) r with
       | Raise e => (Raise e, st)
       | Ok p => (Ok tt, try_place i r h p st)
       end.

Fixpoint tile_loop (count : nat) (i : Z) (regions : list region)
    (candidates : list Z) (st : world) : result unit * world :=
  match count with
  | O => (Ok tt, st)
  | S count' =>
      match py_item regions i with
      | Raise e => (Raise e, st)
      | Ok r =>
          match py_item candidates i with
          | Raise e => (Raise e, st)
          | Ok h =>
              match tile_one i r h st with
              | (Raise e, st') => (Raise e, st')
              | (Ok _, st') => tile_loop count' (i + 1) regions candidates st'
              end
          end
      end
  end.

Definition tile_window (float_of_str : string -> result float) (cfg : pyval)
    (st : world) : result unit * world :=
  let '(os, log) := st in
  match regions_of_cfg float_of_str cfg with
  | Raise e => (Raise e, st)
  | Ok [] => (Ok tt, (os, log ++ [WarnInvalidMapping cfg]))
  | Ok regions =>
      match enum_tilable_windows os with
      | [] => (Ok tt, (os, log ++ [WarnNoCandidates]))
      | enumerated =>
          let candidates := focus_first (foreground os) enumerated in
          let n_to_tile := Z.min (py_len regions) (py_len candidates) in
          match tile_loop (Z.to_nat n_to_tile) 0 regions candidates st with
          | (Raise e, st') => (Raise e, st')
          | (Ok _, (os', log')) =>
              (Ok tt,
               (os',
                if py_len regions >? n_to_tile
                then log' ++ [InfoRegionsUnused (py_len regions - n_to_tile)]
                else log'))
          end
      end
  end.

End Shadowed.

(** *** Sample desktops *)

Definition plain_window (h : Z) (name : string) (mon : rect)
    (p : Z * Z * Z * Z) : window :=
  mkWindow h true name 0 false mon Normal p false false.

Definition monitor_A : rect := (0, 0, 1920, 1080).
Definition monitor_B : rect := (1920, 0, 3840, 1080).

(** Primary display 1920 by 1080 at the origin; one window, in the
    foreground, on the second monitor. *)
Definition desktop_on_B : win32 :=
  mkWin32 [plain_window 100 "Editor" monitor_B (2000, 100, 800, 600)]
          100 1920 1080.

(** The left half, authored on monitor A. *)
Definition left_half_cfg : pyval :=
  PList [canonical_region 0 0 0.5 1 0 0 1920 1080].

(** The placement of window [h], if it exists. *)
Definition placement_of (os : win32) (h : Z) : option (Z * Z * Z * Z) :=
  match find_window os h with
  | Some w => Some (placement w)
  | None => None
  end.

(** *** The tiling loop in the words of the specification *)

(** A region record whose fractions, where present, are numbers that
    [float()] accepts. *)
Definition is_region_dict (v : pyval) : bool :=
  match v with
  | PDict d =>
      forallb (fun k => match dict_get d k with
                        | Some x => float_ok x
                        | None => true
                        end) frac_keys
  | _ => false
  end.

(** The region that [region_from_value] builds from such a record. *)
Definition region_of_dict (v : pyval) : region :=
  match v with
  | PDict d => mkRegion (frac_or d "x_frac" 0) (frac_or d "y_frac" 0)
                        (frac_or d "w_frac" 1) (frac_or d "h_frac" 1)
  | _ => full_monitor
  end.

(** The fractions of [r] scale to whole pixels: none is [nan] or
    infinite, and no product leaves the float range. *)
Definition placeable (os : win32) (r : region) : bool :=
  match pixel_rect os r with
  | Ok _ => true
  | Raise _ => false
  end.

(** Restoring or moving window [h] raises. *)
Definition faulty (os : win32) (h : Z) : bool :=
  match find_window os h with
  | Some w => show_raises w || move_raises w
  | None => true
  end.

(** Regions zipped with windows, one pair after the other, numbered from
    [i + 1]. *)
Fixpoint tile_zip (i : Z) (pairs : list (region * Z)) (st : world)
    : result unit * world :=
  match pairs with
  | [] => (Ok tt, st)
  | (r, h) :: pairs' =>
      match tile_one i r h st with
      | (Raise e, st') => (Raise e, st')
      | (Ok _, st') => tile_zip (i + 1) pairs' st'
      end
  end.

(** One line per pair: tiled, or failed when the window is faulty. *)
Fixpoint pair_lines (os : win32) (i : Z) (pairs : list (region * Z)) : list log_line :=
  match pairs with
  | [] => []
  | (r, h) :: pairs' =>
      (if faulty os h then WarnFailed h WinError else InfoTiled h (i + 1) r)
      :: pair_lines os (i + 1) pairs'
  end.

(** The reports on what the pairing left over. *)
Definition surplus_lines (regions : list region) (candidates : list Z) : list log_line :=
  let n := Nat.min (length regions) (length candidates) in
  (if (n <? length regions)%nat
   then [InfoRegionsUnused (Z.of_nat (length regions - n))] else []) ++
  (if (n <? length candidates)%nat
   then [InfoWindowsLeft (Z.of_nat (length candidates - n))] else []).

(** Everything a call of [tile_window] prints. *)
Definition tiling_lines (os : win32) (cfg : pyval) (regions : list region) : list log_line :=
  match regions, enum_tilable_windows os with
  | [], _ => [WarnInvalidMapping cfg]
  | _, [] => [WarnNoCandidates]
  | _, enumerated =>
      let candidates := focus_first (foreground os) enumerated in
      pair_lines os 0 (combine regions candidates) ++ surplus_lines regions candidates
  end.

(** The windows that take part in the pairing: the first
    [min(len(regions), len(candidates))] candidates. *)
Definition paired_windows (os : win32) (regions : list region) : list Z :=
  let candidates := focus_first (foreground os) (enum_tilable_windows os) in
  firstn (Nat.min (length regions) (length candidates)) candidates.

(** The rectangle that [tile_window] computes for a region, if it can. *)
Definition planned (os : win32) (r : region) : option (Z * Z * Z * Z) :=
  match pixel_rect os r with
  | Ok p => Some p
  | Raise _ => None
  end.

(** *** More sample desktops *)

Definition third (k : Z) : pyval :=
  PDict [ ("x_frac", PFloat (PrimFloat.div (float_of_Z k) 4));
          ("y_frac", PFloat 0); ("w_frac", PFloat 0.25); ("h_frac", PFloat 1) ].

(** Three regions side by side, a quarter of the width each. *)
Definition three_regions_cfg : pyval := PList [third 0; third 1; third 2].

(** Three windows on the primary monitor, 102 in the foreground, so that
    the pairing order is 102, 101, 103; [second_raises] makes [MoveWindow]
    raise for 101, the window of the second pair. *)
Definition desktop_of_three (second_raises : bool) : win32 :=
  mkWin32 [ mkWindow 101 true "Mail" 0 false monitor_A Normal
                     (10, 10, 500, 400) false second_raises;
            mkWindow 102 true "Shell" 0 false monitor_A Maximized
                     (0, 0, 1920, 1080) false false;
            plain_window 103 "Notes" monitor_A (50, 50, 640, 480) ]
          102 1920 1080.

(** *** Values that survive the mapping file *)

(** The tokens between the brackets of an array. *)
Fixpoint dump_elems (l : list pyval) : list token :=
  match l with
  | [] => []
  | [x] => json_dump x
  | x :: r => json_dump x ++ TComma :: dump_elems r
  end.

(** The tokens between the braces of an object. *)
Fixpoint dump_members (d : list (string * pyval)) : list token :=
  match d with
  | [] => []
  | [(k, x)] => TString k :: TColon :: json_dump x
  | (k, x) :: r => TString k :: TColon :: json_dump x ++ TComma :: dump_members r
  end.

Fixpoint distinct (ks : list string) : bool :=
  match ks with
  | [] => true
  | k :: ks' => negb (existsb (String.eqb k) ks') && distinct ks'
  end.

(** Values built from [None], [bool], [int], [float], [str], [list] and
    [dict] with distinct keys: no tuple anywhere. *)
Fixpoint json_native (v : pyval) : bool :=
  match v with
  | PTuple _ => false
  | PList l => forallb json_native l
  | PDict d => distinct (map fst d) && forallb (fun kv => json_native (snd kv)) d
  | _ => true
  end.

(** A gesture with its regions, as the store holds it. *)
Definition entry_to_py (e : string * list region) : string * pyval :=
  (fst e, PList (map region_to_py (snd e))).

(** A mapping whose every region holds the four fractions and nothing
    else. *)
Definition fractions_only (m : pyval) : Prop :=
  exists entries : list (string * list region),
    distinct (map fst entries) = true /\
    m = PDict (map entry_to_py entries).

(** A token list that starts like a JSON value. *)
Definition opens_value (ts : list token) : Prop :=
  match ts with
  | [] | TRBracket :: _ | TRBrace :: _ | TComma :: _ | TColon :: _ => False
  | _ => True
  end.

(** The parser, given fuel for the tokens of [v], reads [v] back from
    them and leaves what follows. *)
Definition reads_back (v : pyval) : Prop :=
  json_native v = true ->
  forall n rest,
    (length (json_dump v) <= n)%nat ->
    parse_value n (json_dump v ++ rest) = Some (v, rest).

(** ** From hotkey to tiling *)

(** [record_and_action]: [moved] lists the pointer positions that the
    listener thread appends while the function sleeps for
    [GESTURE_TIMEOUT]; [mappings] is the dict loaded at start-up. *)
Definition record_and_action (float_of_str : string -> result float)
    (mappings : list (string * pyval)) (moved : list Point)
    (recorder : Recorder.t) (st : world) : result unit * (Recorder.t * world) :=
  let '(os, log) := st in
  let log := log ++ [InfoRecording] in
  let recorder := Recorder.clear recorder in
  let recorder := fst (Recorder.run (Recorder.moves moved) recorder) in
  let '(pts, recorder) := Recorder.fetch recorder in
  match first_match GESTURES pts with
  | Raise e => (Raise e, (recorder, (os, log)))
  | Ok None => (Ok tt, (recorder, (os, log ++ [WarnNoGesture])))
  | Ok (Some name) =>
      let log := log ++ [InfoDetected name] in
      match dict_get mappings name with
      | None | Some PNone => (Ok tt, (recorder, (os, log ++ [WarnNoMapping name])))
      | Some cfg =>
          let '(r, st') := tile_window float_of_str cfg (os, log) in
          (r, (recorder, st'))
      end
  end.

(** *** Moving and mirroring a sample *)

(** The sample drawn [dx] pixels to the right and [dy] pixels lower. *)
Definition shift (dx dy : Z) (pts : list Point) : list Point :=
  map (fun p => (fst p + dx, snd p + dy)) pts.

(** The sample mirrored top to bottom, and left to right. *)
Definition flip_vertical (pts : list Point) : list Point :=
  map (fun p => (fst p, - snd p)) pts.

Definition flip_horizontal (pts : list Point) : list Point :=
  map (fun p => (- fst p, snd p)) pts.

(** The names of all the gestures whose detector answers [True]. *)
Definition matching (pts : list Point) : list string :=
  map fst (filter (fun g => match snd g pts with Ok true => true | _ => false end)
                  GESTURES).

Definition is_L_name (name : string) : bool :=
  existsb (String.eqb name) ["L_down_right"; "L_up_right"; "L_down_left"; "L_up_left"].

(** The distance between the least and the greatest of some coordinates. *)
Definition span (zs : list Z) : Z :=
  match zs with
  | [] => 0
  | z :: zs' => fold_right Z.max z zs' - fold_right Z.min z zs'
  end.

(** *** What the store keeps of a mapping *)

(** A mapping as the editor builds it: gestures with the records of
    their regions. *)
Definition mapping_to_py (entries : list (string * list pyval)) : pyval :=
  PDict (map (fun e => (fst e, PList (snd e))) entries).

(** The same mapping with every record cut down to its four fractions,
    as floats. *)
Definition fractions_of (entries : list (string * list pyval)) : pyval :=
  PDict (map (fun e => (fst e, PList (map (fun v => region_to_py (region_of_dict v))
                                          (snd e)))) entries).

(** Records that the store can hold and read: numeric fractions, and
    nothing that JSON cannot carry. *)
Definition storable (entries : list (string * list pyval)) : bool :=
  distinct (map fst entries) &&
  forallb (fun e => forallb (fun v => is_region_dict v && json_native v) (snd e))
          entries.

(** *** The frame of the desktop *)

(** Everything about a window but where it is and how it is shown. *)
Definition static (w : window)
    : Z * bool * string * Z * bool * rect * bool * bool :=
  (hwnd w, visible w, title w, exstyle w, query_raises w, monitor w,
   show_raises w, move_raises w).

(** Two states of the modelled desktop that differ at most in where
    windows are and how they are shown: what [ShowWindow] and
    [MoveWindow], as modelled, can change. *)
Definition same_frame (os os' : win32) : Prop :=
  map static (windows os') = map static (windows os) /\
  foreground os' = foreground os /\
  SCREEN_W os' = SCREEN_W os /\ SCREEN_H os' = SCREEN_H os.

(** *** The candidates behind the focused window *)

(** The tilable windows other than the foreground window, in Z-order. *)
Definition background_windows (os : win32) : list Z :=
  filter (fun h => negb (h =? foreground os)) (enum_tilable_windows os).

(** *** Desktops with one monitor *)

(** The primary display is not empty and every window is on it: its
    monitor is [(0, 0, SCREEN_W, SCREEN_H)]. *)
Definition single_monitor (os : win32) : Prop :=
  0 < SCREEN_W os /\ 0 < SCREEN_H os /\
  Forall (fun w => monitor w = (0, 0, SCREEN_W os, SCREEN_H os)) (windows os).

(** The region, if it scales to pixels at all, is at least one pixel
    wide and one pixel high on the primary display. *)
Definition roomy (os : win32) (r : region) : bool :=
  match pixel_rect os r with
  | Ok (_, _, wd, ht) => (1 <=? wd) && (1 <=? ht)
  | Raise _ => true
  end.

(** ** The region frames of the configurator *)

Definition EDGE_MARGIN : Z := 10.
Definition MIN_WIDTH : Z := 40.
Definition MIN_HEIGHT : Z := 30.

(** A [QRect], given as Qt stores it for a widget: the top-left corner
    and the size. [right()] and [bottom()] are the last column and the
    last row inside the rectangle. *)
Record QRect : Type := mkQRect { qx : Z; qy : Z; qwidth : Z; qheight : Z }.

Definition qleft (g : QRect) : Z := qx g.
Definition qtop (g : QRect) : Z := qy g.
Definition qright (g : QRect) : Z := qx g + qwidth g - 1.
Definition qbottom (g : QRect) : Z := qy g + qheight g - 1.

Inductive CursorShape : Type :=
| ArrowCursor
| SizeAllCursor
| ClosedHandCursor
| SizeFDiagCursor
| SizeBDiagCursor
| SizeHorCursor
| SizeVerCursor.

(** The dict [{'left': .., 'right': .., 'top': .., 'bottom': ..}]. *)
Record edges : Type := mkEdges {
  e_left : bool;
  e_right : bool;
  e_top : bool;
  e_bottom : bool
}.

Definition no_edges : edges := mkEdges false false false false.

(** What the handlers read from a [QMouseEvent]: the position inside the
    frame and the position on the screen, both in whole pixels, and
    whether the button is the left one. *)
Record mouse_event : Type := mkMouseEvent {
  local_pt : Point;
  gp : Point;
  left_button : bool
}.

(** [_cursor_for_edges_static]. *)
Definition _cursor_for_edges_static (e : edges) : CursorShape :=
  let l := e_left e in
  let r := e_right e in
  let t := e_top e in
  let b := e_bottom e in
  if (l && t) || (r && b) then SizeFDiagCursor
  else if (r && t) || (l && b) then SizeBDiagCursor
  else if l || r then SizeHorCursor
  else if t || b then SizeVerCursor
  else ArrowCursor.

(** The four hit tests of [mousePressEvent] and [mouseMoveEvent] on a
    frame [w] wide and [h] high. *)
Definition hit_edges (w h : Z) (p : Point) : edges :=
  let '(lx, ly) := p in
  mkEdges (lx <=? EDGE_MARGIN) (lx >=? w - EDGE_MARGIN)
          (ly <=? EDGE_MARGIN) (ly >=? h - EDGE_MARGIN).

(** [any(edges.values())]. *)
Definition any_edge (e : edges) : bool :=
  e_left e || e_right e || e_top e || e_bottom e.

(** The rectangle that the resizing branch of [mouseMoveEvent] passes to
    [setGeometry]: [geom] is the geometry at the press, [(dx, dy)] the
    way of the pointer since. *)
Definition resized (e : edges) (geom : QRect) (dx dy : Z) : QRect :=
  let lft := if e_left e then qleft geom + dx else qleft geom in
  let rgt := if e_right e then qright geom + dx else qright geom in
  let top := if e_top e then qtop geom + dy else qtop geom in
  let bot := if e_bottom e then qbottom geom + dy else qbottom geom in
  let new_left := Z.min lft rgt in
  let new_top := Z.min top bot in
  let new_right := Z.max lft rgt in
  let new_bottom := Z.max top bot in
  let new_w := Z.max MIN_WIDTH (new_right - new_left + 1) in
  let new_h := Z.max MIN_HEIGHT (new_bottom - new_top + 1) in
  mkQRect new_left new_top new_w new_h.

Module ResizableFrame.

(** A frame is a child widget of the selector, so its frame geometry is
    its geometry. *)
Record t : Type := mk {
  geometry : QRect;
  _dragging : bool;
  _resizing : bool;
  _resize_edges : edges;
  _start_geom : option QRect;
  _start_mouse : option Point;
  cursor : CursorShape
}.

(** [ResizableFrame(parent)] followed by [setGeometry]. *)
Definition init (g : QRect) : t :=
  mk g false false no_edges None None ArrowCursor.

Definition setCursor (c : CursorShape) (self : t) : t :=
  mk (geometry self) (_dragging self) (_resizing self) (_resize_edges self)
     (_start_geom self) (_start_mouse self) c.

Definition setGeometry (g : QRect) (self : t) : t :=
  mk g (_dragging self) (_resizing self) (_resize_edges self)
     (_start_geom self) (_start_mouse self) (cursor self).

(** [self.move(QPoint(x, y))]. *)
Definition move (x y : Z) (self : t) : t :=
  setGeometry (mkQRect x y (qwidth (geometry self)) (qheight (geometry self))) self.

Definition mousePressEvent (ev : mouse_event) (self : t) : t :=
  let e := hit_edges (qwidth (geometry self)) (qheight (geometry self)) (local_pt ev) in
  if any_edge e
  then mk (geometry self) (_dragging self) true e
          (Some (geometry self)) (Some (gp ev)) (_cursor_for_edges_static e)
  else if left_button ev
  then mk (geometry self) true (_resizing self) (_resize_edges self)
          (Some (geometry self)) (Some (gp ev)) ClosedHandCursor
  else self.

(** What a handler leaves: the frame, or the [AttributeError] of a call
    on [None]. *)
Inductive outcome : Type :=
| Done (self : t)
| AttributeError.

Definition mouseMoveEvent (ev : mouse_event) (self : t) : outcome :=
  let self1 :=
    if negb (_dragging self) && negb (_resizing self)
    then
      let e := hit_edges (qwidth (geometry self)) (qheight (geometry self))
                         (local_pt ev) in
      setCursor (if any_edge e then _cursor_for_edges_static e else SizeAllCursor)
                self
    else self in
  match _start_mouse self1 with
  | Some start =>
      if _dragging self1 || _resizing self1
      then
        let dx := fst (gp ev) - fst start in
        let dy := snd (gp ev) - snd start in
        match _start_geom self1 with
        | None => AttributeError
        | Some geom =>
            if _dragging self1
            then Done (move (qleft geom + dx) (qtop geom + dy) self1)
            else Done (setGeometry (resized (_resize_edges self1) geom dx dy) self1)
        end
      else Done self1
  | None => Done self1
  end.

Definition mouseReleaseEvent (self : t) : t :=
  mk (geometry self) false false no_edges None None SizeAllCursor.

(** The events that reach a frame. *)
Inductive event : Type :=
| Press (ev : mouse_event)
| Move (ev : mouse_event)
| Release.

Definition handle (e : event) (self : t) : outcome :=
  match e with
  | Press ev => Done (mousePressEvent ev self)
  | Move ev => mouseMoveEvent ev self
  | Release => Done (mouseReleaseEvent self)
  end.

(** The events in order, up to the first one that raises. *)
Fixpoint run (es : list event) (self : t) : outcome :=
  match es with
  | [] => Done self
  | e :: es' =>
      match handle e self with
      | Done self' => run es' self'
      | AttributeError => AttributeError
      end
  end.

End ResizableFrame.

(** No two opposite edges at once. *)
Definition one_sided (e : edges) : bool :=
  negb (e_left e && e_right e) && negb (e_top e && e_bottom e).

(** The frame that [add_region_default] makes on a primary display [w]
    by [h]: a quarter of each side, [//] rounding down. *)
Definition default_geometry (w h : Z) : QRect :=
  let fw := w / 4 in
  let fh := h / 4 in
  mkQRect ((w - fw) / 2) ((h - fh) / 2) fw fh.

Module RegionSelector.

(** [self.handles] of a selector. *)
Definition add_region_default (os : win32) (handles : list ResizableFrame.t)
    : list ResizableFrame.t :=
  handles ++ [ResizableFrame.init (default_geometry (SCREEN_W os) (SCREEN_H os))].

(** [remove_last]: with no handle left it only shows a message. *)
Definition remove_last (handles : list ResizableFrame.t) : list ResizableFrame.t :=
  match handles with
  | [] => []
  | _ => removelast handles
  end.

End RegionSelector.

(** *** Documents cut short *)

(** The parser, whatever its fuel, reads from the tokens of [v] either
    nothing or one value, and then leaves exactly what follows them. *)
Definition consumes (v : pyval) : Prop :=
  forall n rest,
    parse_value n (json_dump v ++ rest) = None \/
    exists v', parse_value n (json_dump v ++ rest) = Some (v', rest).

(** No proper prefix of the tokens of [v] is read as a value. *)
Definition unfinished (v : pyval) : Prop :=
  forall n p s, s <> [] -> json_dump v = p ++ s -> parse_value n p = None.

(** *** Mappings as a JSON file can hold them *)

(** Not a tuple at the top: [json.load] builds lists only. *)
Definition not_tuple (v : pyval) : bool :=
  match v with
  | PTuple _ => false
  | _ => true
  end.

(** * Properties *)

(** ** Sequences *)

Lemma py_item_nat {A : Type} (l : list A) (i : nat) (d : A) :
  (i < length l)%nat -> py_item l (Z.of_nat i) = Ok (nth i l d).
Proof.
  intros Hi. unfold py_item, py_len.
  replace (Z.of_nat i <? 0) with false by (symmetry; apply Z.ltb_ge; lia).
  replace (0 <=? Z.of_nat i) with true by (symmetry; apply Z.leb_le; lia).
  replace (Z.of_nat i <? Z.of_nat (length l)) with true
    by (symmetry; apply Z.ltb_lt; lia).
  cbn [andb]. rewrite Nat2Z.id.
  now rewrite (nth_error_nth' l d Hi).
Qed.

Lemma py_item_last {A : Type} (l : list A) (d : A) :
  l <> [] -> py_item l (-1) = Ok (nth (length l - 1) l d).
Proof.
  intros Hne. assert (0 < length l)%nat by (destruct l; cbn; [congruence | lia]).
  unfold py_item, py_len. cbn [Z.ltb Z.compare].
  replace (0 <=? -1 + Z.of_nat (length l)) with true
    by (symmetry; apply Z.leb_le; lia).
  replace (-1 + Z.of_nat (length l) <? Z.of_nat (length l)) with true
    by (symmetry; apply Z.ltb_lt; lia).
  cbn [andb].
  replace (Z.to_nat (-1 + Z.of_nat (length l))) with (length l - 1)%nat by lia.
  rewrite (nth_error_nth' l d); [reflexivity | lia].
Qed.

Lemma last_as_nth {A : Type} (l : list A) (d : A) :
  last l d = nth (length l - 1) l d.
Proof.
  induction l as [|a l IH]; [reflexivity|].
  destruct l as [|b l]; [reflexivity|].
  change (last (a :: b :: l) d) with (last (b :: l) d). rewrite IH.
  cbn [length]. replace (S (S (length l)) - 1)%nat with (S (length l)) by lia.
  cbn [nth]. now replace (S (length l) - 1)%nat with (length l) by lia.
Qed.

Lemma displacement_nth (seg : list Point) (d : Point) :
  seg <> [] ->
  displacement seg = Some (vsub (nth (length seg - 1) seg d) (nth 0 seg d)).
Proof.
  destruct seg as [|p seg]; [congruence|]. intros _.
  unfold displacement. rewrite (last_as_nth (p :: seg) p).
  f_equal. f_equal. apply nth_indep. cbn [length]. lia.
Qed.

Lemma subseq_refl {A : Type} (l : list A) : subseq l l.
Proof. induction l; constructor; assumption. Qed.

Lemma subseq_app_skip {A : Type} (pre l1 l2 : list A) :
  subseq l1 l2 -> subseq l1 (pre ++ l2).
Proof. intros H. induction pre; cbn; [assumption | now constructor]. Qed.

Lemma subseq_app {A : Type} (l1 l1' l2 l2' : list A) :
  subseq l1 l1' -> subseq l2 l2' -> subseq (l1 ++ l2) (l1' ++ l2').
Proof.
  intros H1 H2. induction H1; cbn; [assumption | now constructor ..].
Qed.

(** ** Recorder *)

Lemma run_app (cs1 cs2 : list Recorder.call) (r : Recorder.t) :
  Recorder.run (cs1 ++ cs2) r =
  (fst (Recorder.run cs2 (fst (Recorder.run cs1 r))),
   snd (Recorder.run cs1 r) ++ snd (Recorder.run cs2 (fst (Recorder.run cs1 r)))).
Proof.
  revert r. induction cs1 as [|c cs1 IH]; intros r; cbn [app Recorder.run].
  - cbn. now destruct (Recorder.run cs2 r).
  - destruct c; cbn [Recorder.fetch]; try apply IH.
    rewrite IH. destruct (Recorder.run cs1 (Recorder.mk [])) as [r1 o1]. cbn.
    reflexivity.
Qed.

Lemma run_moves (ps : list Point) (r : Recorder.t) :
  Recorder.run (Recorder.moves ps) r = (Recorder.mk (Recorder.pts r ++ ps), []).
Proof.
  revert r. induction ps as [|[x y] ps IH]; intros [buf]; cbn.
  - now rewrite app_nil_r.
  - unfold Recorder.moves in IH. rewrite IH. cbn. now rewrite <- app_assoc.
Qed.

Lemma run_reset_empties (pre : list Recorder.call) (c : Recorder.reset)
    (r : Recorder.t) :
  fst (Recorder.run (pre ++ [Recorder.call_of_reset c]) r) = Recorder.mk [].
Proof.
  rewrite run_app. cbn [fst]. destruct c; cbn. reflexivity.
  now destruct (Recorder.run pre r).
Qed.

Lemma run_fetched_once (cs : list Recorder.call) (r : Recorder.t) :
  subseq (concat (snd (Recorder.run cs r)) ++ Recorder.pts (fst (Recorder.run cs r)))
         (Recorder.pts r ++ Recorder.appended cs).
Proof.
  revert r. induction cs as [|c cs IH]; intros r; cbn [Recorder.run Recorder.appended].
  - cbn. rewrite app_nil_r. apply subseq_refl.
  - destruct c.
    + specialize (IH (Recorder.on_move x y r)). cbn in IH.
      now rewrite <- app_assoc in IH.
    + apply subseq_app_skip. apply (IH (Recorder.clear r)).
    + cbn [Recorder.fetch]. specialize (IH (Recorder.mk [])).
      destruct (Recorder.run cs (Recorder.mk [])) as [final outs].
      cbn in *. rewrite <- app_assoc. apply subseq_app; [apply subseq_refl | exact IH].
Qed.

(** C10: a fetch returns exactly the points appended since the recorder was
    created or last cleared or fetched, in order, and leaves the buffer
    empty; a fetch right after a fetch returns the empty array; and the
    fetched arrays, laid end to end, strike points out of the appended ones
    without repeating or reordering any. *)
Theorem fetch_returns_pending_once :
  (forall seg post,
     Recorder.run (Recorder.moves seg ++ Recorder.Fetch :: post) Recorder.init =
     (fst (Recorder.run post Recorder.init),
      seg :: snd (Recorder.run post Recorder.init))) /\
  (forall pre c seg post,
     Recorder.run (pre ++ Recorder.call_of_reset c ::
                   Recorder.moves seg ++ Recorder.Fetch :: post) Recorder.init =
     (fst (Recorder.run post Recorder.init),
      snd (Recorder.run (pre ++ [Recorder.call_of_reset c]) Recorder.init) ++
      seg :: snd (Recorder.run post Recorder.init))) /\
  (forall pre,
     Recorder.run (pre ++ [Recorder.Fetch; Recorder.Fetch]) Recorder.init =
     (Recorder.init,
      snd (Recorder.run (pre ++ [Recorder.Fetch]) Recorder.init) ++ [[]])) /\
  (forall cs,
     subseq (concat (snd (Recorder.run cs Recorder.init)) ++
             Recorder.pts (fst (Recorder.run cs Recorder.init)))
            (Recorder.appended cs)).
Proof.
  assert (Hseg : forall seg post,
     Recorder.run (Recorder.moves seg ++ Recorder.Fetch :: post) Recorder.init =
     (fst (Recorder.run post Recorder.init),
      seg :: snd (Recorder.run post Recorder.init))).
  { intros seg post. rewrite run_app, run_moves.
    cbn [fst snd Recorder.run Recorder.fetch Recorder.pts Recorder.init app].
    change (Recorder.mk []) with Recorder.init.
    now destruct (Recorder.run post Recorder.init). }
  split; [exact Hseg|]. split; [|split].
  - intros pre c seg post.
    change (pre ++ Recorder.call_of_reset c ::
            Recorder.moves seg ++ Recorder.Fetch :: post)
      with (pre ++ [Recorder.call_of_reset c] ++
            (Recorder.moves seg ++ Recorder.Fetch :: post)).
    rewrite app_assoc, run_app, run_reset_empties.
    change (Recorder.mk []) with Recorder.init. now rewrite Hseg.
  - intros pre.
    change [Recorder.Fetch; Recorder.Fetch]
      with ([Recorder.call_of_reset Recorder.RFetch] ++ [Recorder.Fetch]).
    rewrite app_assoc, run_app, run_reset_empties. reflexivity.
  - intros cs. apply (run_fetched_once cs Recorder.init).
Qed.

(** ** Gesture detectors *)

Lemma half_bounds (n : nat) :
  (6 <= n)%nat -> (3 <= n / 2)%nat /\ (n / 2 < n)%nat.
Proof.
  intros Hn. pose proof (Nat.div_mod_eq n 2).
  pose proof (Nat.mod_upper_bound n 2 ltac:(discriminate)). lia.
Qed.

Lemma third_bounds (n : nat) :
  (8 <= n)%nat -> (2 <= n / 3)%nat /\ (2 * (n / 3) < n)%nat.
Proof.
  intros Hn. pose proof (Nat.div_mod_eq n 3).
  pose proof (Nat.mod_upper_bound n 3 ltac:(discriminate)). lia.
Qed.

Lemma nth_firstn_lt {A : Type} (l : list A) (i j : nat) (d : A) :
  (i < j)%nat -> nth i (firstn j l) d = nth i l d.
Proof.
  intros Hij. rewrite nth_firstn.
  now replace (i <? j)%nat with true by (symmetry; apply Nat.ltb_lt; exact Hij).
Qed.

Lemma make_L_detector_eval (dy_sign dx_sign : Z) (pts : list Point) (d : Point) :
  (6 <= length pts)%nat ->
  make_L_detector dy_sign dx_sign pts =
  let n := length pts in
  let v1 := vsub (nth (n / 2 - 1) pts d) (nth 0 pts d) in
  let v2 := vsub (nth (n - 1) pts d) (nth (n / 2) pts d) in
  Ok ((Z.abs (snd v1) >? Z.abs (fst v1)) && (snd v1 * dy_sign >? MIN_STROKE) &&
      (Z.abs (fst v2) >? Z.abs (snd v2)) && (fst v2 * dx_sign >? MIN_STROKE)).
Proof.
  intros Hn. destruct (half_bounds _ Hn) as [Hq1 Hq2]. unfold make_L_detector.
  replace (py_len pts <? 6) with false
    by (symmetry; apply Z.ltb_ge; unfold py_len; lia).
  assert (E2 : py_len pts / 2 = Z.of_nat (length pts / 2)).
  { unfold py_len. now rewrite Nat2Z.inj_div. }
  rewrite E2. cbv zeta.
  remember (length pts / 2)%nat as q eqn:Eq. clear Eq E2.
  replace (Z.of_nat q - 1) with (Z.of_nat (q - 1)) by lia.
  rewrite (py_item_nat pts (q - 1) d) by lia.
  rewrite (py_item_nat pts q d) by lia.
  change 0 with (Z.of_nat 0). rewrite (py_item_nat pts 0 d) by lia.
  rewrite (py_item_last pts d) by (destruct pts; cbn in *; [lia | congruence]).
  reflexivity.
Qed.

Lemma ends_nth (seg : list Point) (d : Point) :
  seg <> [] ->
  ends seg = Some (nth 0 seg d, nth (length seg - 1) seg d).
Proof.
  destruct seg as [|p seg]; [congruence|]. intros _.
  unfold ends. rewrite (last_as_nth (p :: seg) p).
  f_equal. f_equal. apply nth_indep. cbn [length]. lia.
Qed.

Lemma ends_first_half (pts : list Point) (d : Point) :
  (6 <= length pts)%nat ->
  ends (first_half pts) = Some (nth 0 pts d, nth (length pts / 2 - 1) pts d).
Proof.
  intros Hn. destruct (half_bounds _ Hn) as [Hq1 Hq2]. unfold first_half.
  remember (length pts / 2)%nat as q eqn:Eq. clear Eq.
  assert (Hlen : length (firstn q pts) = q) by (rewrite length_firstn; lia).
  rewrite (ends_nth _ d).
  - rewrite Hlen, !nth_firstn_lt by lia. reflexivity.
  - intros E. rewrite E in Hlen. cbn in Hlen. lia.
Qed.

Lemma ends_second_half (pts : list Point) (d : Point) :
  (6 <= length pts)%nat ->
  ends (second_half pts) = Some (nth (length pts / 2) pts d, nth (length pts - 1) pts d).
Proof.
  intros Hn. destruct (half_bounds _ Hn) as [Hq1 Hq2]. unfold second_half.
  remember (length pts / 2)%nat as q eqn:Eq. clear Eq.
  assert (Hlen : length (skipn q pts) = (length pts - q)%nat) by apply length_skipn.
  rewrite (ends_nth _ d).
  - rewrite Hlen, !nth_skipn.
    replace (q + (length pts - q - 1))%nat with (length pts - 1)%nat by lia.
    now replace (q + 0)%nat with q by lia.
  - intros E. rewrite E in Hlen. cbn in Hlen. lia.
Qed.

Lemma Ok_inj {A : Type} (a b : A) : Ok a = Ok b -> a = b.
Proof. congruence. Qed.

Lemma make_L_detector_short (dy_sign dx_sign : Z) (pts : list Point) :
  (length pts < 6)%nat -> make_L_detector dy_sign dx_sign pts = Ok false.
Proof.
  intros Hn. unfold make_L_detector.
  now replace (py_len pts <? 6) with true
    by (symmetry; apply Z.ltb_lt; unfold py_len; lia).
Qed.

Lemma L_legs_reflect (dy_sign dx_sign : Z) (v1 v2 : Point) :
  (Z.abs (snd v1) >? Z.abs (fst v1)) && (snd v1 * dy_sign >? MIN_STROKE) &&
  (Z.abs (fst v2) >? Z.abs (snd v2)) && (fst v2 * dx_sign >? MIN_STROKE) = true <->
  vertical_dominant v1 /\ MIN_STROKE < snd v1 * dy_sign /\
  horizontal_dominant v2 /\ MIN_STROKE < fst v2 * dx_sign.
Proof.
  unfold vertical_dominant, horizontal_dominant.
  rewrite !andb_true_iff, !Z.gtb_lt. tauto.
Qed.

(** C5: an L detector answers [True] exactly on the samples of at least six
    points whose displacement over the first half (its last point minus
    its first) is mostly vertical and exceeds [MIN_STROKE] in the expected
    vertical direction, and whose displacement over the second half is
    mostly horizontal and exceeds [MIN_STROKE] in the expected horizontal
    direction; it never raises. Wherever the stroke starts, a first leg of
    exactly 80 pixels is refused and one of 81 pixels is accepted; a
    sample that lies far from the origin but does not move over either
    half is refused. *)
Theorem L_detector_matches_L_shape :
  (forall dy_sign dx_sign pts,
     make_L_detector dy_sign dx_sign pts = Ok true <-> L_shape dy_sign dx_sign pts) /\
  (forall dy_sign dx_sign pts, exists b, make_L_detector dy_sign dx_sign pts = Ok b) /\
  MIN_STROKE = 80 /\
  (forall x y,
     ends (first_half (L_sample x y 80)) = Some ((x, y), (x, y + 80)) /\
     make_L_detector 1 1 (L_sample x y 80) = Ok false /\
     ends (first_half (L_sample x y 81)) = Some ((x, y), (x, y + 81)) /\
     ends (second_half (L_sample x y 81)) = Some ((x, y + 81), (x + 100, y + 81)) /\
     make_L_detector 1 1 (L_sample x y 81) = Ok true) /\
  make_L_detector 1 1 (L_sample 700 400 81) = Ok true /\
  make_L_detector 1 1 parked_sample = Ok false.
Proof.
  split; [|split; [|split; [reflexivity|split; [|split; reflexivity]]]].
  - intros dy_sign dx_sign pts. unfold L_shape.
    destruct (le_lt_dec 6 (length pts)) as [Hn | Hn].
    + rewrite (make_L_detector_eval dy_sign dx_sign pts (0, 0) Hn). cbv zeta.
      rewrite (ends_first_half pts (0, 0) Hn).
      rewrite (ends_second_half pts (0, 0) Hn).
      destruct (nth 0 pts (0, 0)) as [a0 b0].
      destruct (nth (length pts / 2 - 1) pts (0, 0)) as [a1 b1].
      destruct (nth (length pts / 2) pts (0, 0)) as [a2 b2].
      destruct (nth (length pts - 1) pts (0, 0)) as [a3 b3].
      split.
      * intros E. apply Ok_inj, L_legs_reflect in E.
        split; [exact Hn|]. exists a0, b0, a1, b1, a2, b2, a3, b3.
        split; [reflexivity|]. split; [reflexivity|]. exact E.
      * intros (_ & x0 & y0 & x1 & y1 & x2 & y2 & x3 & y3 & E1 & E2 & H).
        injection E1 as <- <- <- <-. injection E2 as <- <- <- <-.
        f_equal. apply L_legs_reflect. exact H.
    + rewrite make_L_detector_short by exact Hn. split.
      * discriminate.
      * intros [H6 _]. lia.
  - intros dy_sign dx_sign pts.
    destruct (le_lt_dec 6 (length pts)) as [Hn | Hn].
    + rewrite (make_L_detector_eval dy_sign dx_sign pts (0, 0) Hn). eexists. reflexivity.
    + rewrite make_L_detector_short by exact Hn. eexists. reflexivity.
  - intros x y.
    rewrite (make_L_detector_eval 1 1 (L_sample x y 80) (0, 0)) by (cbn; lia).
    rewrite (make_L_detector_eval 1 1 (L_sample x y 81) (0, 0)) by (cbn; lia).
    cbn [L_sample length Nat.div Nat.divmod fst snd Nat.sub nth vsub first_half
         second_half firstn skipn ends last].
    unfold MIN_STROKE.
    replace (x - x) with 0 by lia.
    replace (y + 80 - y) with 80 by lia.
    replace (y + 81 - y) with 81 by lia.
    replace (x + 100 - x) with 100 by lia.
    replace (y + 80 - (y + 80)) with 0 by lia.
    replace (y + 81 - (y + 81)) with 0 by lia.
    repeat split; reflexivity.
Qed.

Lemma detect_V_short (pts : list Point) :
  (length pts < 8)%nat -> detect_V pts = Ok false.
Proof.
  intros Hn. unfold detect_V.
  now replace (py_len pts <? 8) with true
    by (symmetry; apply Z.ltb_lt; unfold py_len; lia).
Qed.

Lemma detect_V_eval (pts : list Point) (d : Point) :
  (8 <= length pts)%nat ->
  detect_V pts =
  let t := (length pts / 3)%nat in
  let v1 := vsub (nth t pts d) (nth 0 pts d) in
  let v2 := vsub (nth (2 * t) pts d) (nth t pts d) in
  Ok ((snd v1 >? MIN_STROKE) && (fst v1 >? MIN_STROKE) &&
      (snd v2 <? - MIN_STROKE) && (fst v2 >? MIN_STROKE)).
Proof.
  intros Hn. destruct (third_bounds _ Hn) as [Ht1 Ht2]. unfold detect_V.
  replace (py_len pts <? 8) with false
    by (symmetry; apply Z.ltb_ge; unfold py_len; lia).
  assert (E : py_len pts / 3 = Z.of_nat (length pts / 3)).
  { unfold py_len. now rewrite Nat2Z.inj_div. }
  rewrite E. cbv zeta.
  remember (length pts / 3)%nat as t eqn:Et. clear Et E.
  replace (2 * Z.of_nat t) with (Z.of_nat (2 * t)) by lia.
  rewrite (py_item_nat pts t d) by lia.
  rewrite (py_item_nat pts (2 * t) d) by lia.
  change 0 with (Z.of_nat 0). rewrite (py_item_nat pts 0 d) by lia.
  reflexivity.
Qed.

Lemma displacement_first_third (pts : list Point) (d : Point) :
  (8 <= length pts)%nat ->
  displacement (first_third pts) =
  Some (vsub (nth (length pts / 3) pts d) (nth 0 pts d)).
Proof.
  intros Hn. destruct (third_bounds _ Hn) as [Ht1 Ht2]. unfold first_third.
  remember (length pts / 3)%nat as t eqn:Et. clear Et.
  assert (Hlen : length (firstn (t + 1) pts) = (t + 1)%nat)
    by (rewrite length_firstn; lia).
  rewrite (displacement_nth _ d).
  - rewrite Hlen. replace (t + 1 - 1)%nat with t by lia.
    rewrite !nth_firstn_lt by lia. reflexivity.
  - intros E. rewrite E in Hlen. cbn in Hlen. lia.
Qed.

Lemma displacement_middle_third (pts : list Point) (d : Point) :
  (8 <= length pts)%nat ->
  displacement (middle_third pts) =
  Some (vsub (nth (2 * (length pts / 3)) pts d) (nth (length pts / 3) pts d)).
Proof.
  intros Hn. destruct (third_bounds _ Hn) as [Ht1 Ht2]. unfold middle_third.
  remember (length pts / 3)%nat as t eqn:Et. clear Et.
  assert (Hlen : length (firstn (t + 1) (skipn t pts)) = (t + 1)%nat)
    by (rewrite length_firstn, length_skipn; lia).
  rewrite (displacement_nth _ d).
  - rewrite Hlen. replace (t + 1 - 1)%nat with t by lia.
    rewrite !nth_firstn_lt by lia. rewrite !nth_skipn.
    replace (t + t)%nat with (2 * t)%nat by lia.
    now replace (t + 0)%nat with t by lia.
  - intros E. rewrite E in Hlen. cbn in Hlen. lia.
Qed.

Lemma V_legs_reflect (v1 v2 : Point) :
  (snd v1 >? MIN_STROKE) && (fst v1 >? MIN_STROKE) &&
  (snd v2 <? - MIN_STROKE) && (fst v2 >? MIN_STROKE) = true <->
  down_right v1 /\ up_right v2.
Proof.
  unfold down_right, up_right.
  rewrite !andb_true_iff, !Z.gtb_lt, Z.ltb_lt. tauto.
Qed.

(** C3, as the code has it: [detect_V] answers [True] exactly on the
    samples of at least eight points whose displacement over the first
    third (points [0] to [len // 3]) is downward and rightward, and whose
    displacement over the middle third (points [len // 3] to
    [2 * (len // 3)]) is upward and rightward, each component beyond
    [MIN_STROKE]; the points after the middle third are not read, and
    the detector never raises. *)
Theorem detect_V_matches_thirds :
  (forall pts, detect_V pts = Ok true <-> V_shape_thirds pts) /\
  (forall pts, exists b, detect_V pts = Ok b).
Proof.
  split.
  - intros pts. unfold V_shape_thirds.
    destruct (le_lt_dec 8 (length pts)) as [Hn | Hn].
    + rewrite (detect_V_eval pts (0, 0) Hn). cbv zeta.
      rewrite (displacement_first_third pts (0, 0) Hn).
      rewrite (displacement_middle_third pts (0, 0) Hn).
      split.
      * intros E. apply Ok_inj, V_legs_reflect in E.
        split; [exact Hn|]. eexists. eexists.
        split; [reflexivity|]. split; [reflexivity|]. exact E.
      * intros (_ & v1 & v2 & E1 & E2 & H).
        apply (f_equal (fun o => match o with Some v => v | None => v1 end)) in E1.
        apply (f_equal (fun o => match o with Some v => v | None => v2 end)) in E2.
        cbv beta iota in E1, E2. subst v1 v2.
        f_equal. apply V_legs_reflect. exact H.
    + rewrite detect_V_short by exact Hn. split.
      * discriminate.
      * intros [H8 _]. lia.
  - intros pts. destruct (le_lt_dec 8 (length pts)) as [Hn | Hn].
    + rewrite (detect_V_eval pts (0, 0) Hn). eexists. reflexivity.
    + rewrite detect_V_short by exact Hn. eexists. reflexivity.
Qed.

(** C3, as the specification words it, fails both ways: a V drawn over
    the first two thirds of the recording and then held still is accepted
    although its displacement over the first two thirds is not downward,
    and a V whose downward leg fills the first two thirds and whose
    upward leg fills the final third is refused. *)
Lemma detect_V_not_two_thirds :
  (detect_V V_sample_early = Ok true /\ ~ V_shape_two_thirds V_sample_early) /\
  (detect_V V_sample_late = Ok false /\ V_shape_two_thirds V_sample_late).
Proof.
  split; split.
  - reflexivity.
  - intros (_ & v1 & v2 & E1 & _ & [Hdown _] & _).
    cbn in E1. injection E1 as <-. cbn in Hdown. unfold MIN_STROKE in Hdown. lia.
  - reflexivity.
  - split; [cbn; lia|]. exists (100, 100), (100, -100).
    repeat split; cbn; unfold MIN_STROKE; lia.
Qed.

(** ** Classification *)

Lemma make_L_detector_total (dy_sign dx_sign : Z) (pts : list Point) :
  exists b, make_L_detector dy_sign dx_sign pts = Ok b.
Proof.
  destruct (le_lt_dec 6 (length pts)) as [Hn | Hn].
  - rewrite (make_L_detector_eval dy_sign dx_sign pts (0, 0) Hn). eexists. reflexivity.
  - rewrite make_L_detector_short by exact Hn. eexists. reflexivity.
Qed.

Lemma detect_V_total (pts : list Point) : exists b, detect_V pts = Ok b.
Proof.
  destruct (le_lt_dec 8 (length pts)) as [Hn | Hn].
  - rewrite (detect_V_eval pts (0, 0) Hn). eexists. reflexivity.
  - rewrite detect_V_short by exact Hn. eexists. reflexivity.
Qed.

Lemma first_match_Some (gs : list (string * (list Point -> result bool)))
    (pts : list Point) (name : string) :
  first_match gs pts = Ok (Some name) <->
  exists pre fn post,
    gs = pre ++ (name, fn) :: post /\ fn pts = Ok true /\
    Forall (fun g => snd g pts = Ok false) pre.
Proof.
  induction gs as [|[n f] gs IH]; cbn [first_match].
  - split; [discriminate|]. intros (pre & fn & post & E & _).
    destruct pre; discriminate.
  - destruct (f pts) as [[|]|e] eqn:Ef; cbn [bind].
    + split.
      * intros E. injection E as <-. exists [], f, gs. auto.
      * intros (pre & fn & post & E & Hfn & Hpre).
        destruct pre as [|g pre]; cbn in E; injection E as E1 E2.
        -- now subst.
        -- subst g. inversion Hpre as [|? ? Hg _]. cbn in Hg. congruence.
    + rewrite IH. split.
      * intros (pre & fn & post & E & Hfn & Hpre).
        exists ((n, f) :: pre), fn, post. subst gs. repeat split; auto.
      * intros (pre & fn & post & E & Hfn & Hpre).
        destruct pre as [|g pre]; cbn in E; injection E as E1 E2.
        -- subst. congruence.
        -- exists pre, fn, post. inversion Hpre. auto.
    + split; [discriminate|].
      intros (pre & fn & post & E & Hfn & Hpre).
      destruct pre as [|g pre]; cbn in E; injection E as E1 E2.
      * subst. congruence.
      * subst g. inversion Hpre as [|? ? Hg _]. cbn in Hg. congruence.
Qed.

Lemma first_match_None (gs : list (string * (list Point -> result bool)))
    (pts : list Point) :
  first_match gs pts = Ok None <-> Forall (fun g => snd g pts = Ok false) gs.
Proof.
  induction gs as [|[n f] gs IH]; cbn [first_match].
  - split; auto.
  - destruct (f pts) as [[|]|e] eqn:Ef; cbn [bind].
    + split; [discriminate|]. intros H. inversion H as [|? ? Hg _].
      cbn in Hg. congruence.
    + rewrite IH. split.
      * intros H. constructor; auto.
      * intros H. now inversion H.
    + split; [discriminate|]. intros H. inversion H as [|? ? Hg _].
      cbn in Hg. congruence.
Qed.

Lemma first_match_total (gs : list (string * (list Point -> result bool)))
    (pts : list Point) :
  Forall (fun g => exists b, snd g pts = Ok b) gs ->
  exists r, first_match gs pts = Ok r.
Proof.
  induction 1 as [|[n f] gs [b Hb] _ IH]; cbn [first_match].
  - eexists. reflexivity.
  - cbn in Hb. rewrite Hb. cbn [bind]. destruct b; [eexists; reflexivity | exact IH].
Qed.

(** C6: classification runs the detectors in the declared order
    L_down_right, L_up_right, L_down_left, L_up_left, V_shape and always
    ends with one gesture name or with none: the name of the first
    detector that answers [True], every detector before it having answered
    [False]; none when all answer [False]. A sample that satisfies both
    L_down_right and V_shape is classified as L_down_right. *)
Theorem classify_first_match_wins :
  map fst GESTURES =
    ["L_down_right"; "L_up_right"; "L_down_left"; "L_up_left"; "V_shape"] /\
  (forall pts, exists r, classify pts = Ok r) /\
  (forall pts name,
     classify pts = Ok (Some name) <->
     exists pre fn post,
       GESTURES = pre ++ (name, fn) :: post /\ fn pts = Ok true /\
       Forall (fun g => snd g pts = Ok false) pre) /\
  (forall pts,
     classify pts = Ok None <-> Forall (fun g => snd g pts = Ok false) GESTURES) /\
  make_L_detector 1 1 LV_sample = Ok true /\
  detect_V LV_sample = Ok true /\
  classify LV_sample = Ok (Some "L_down_right").
Proof.
  split; [reflexivity|]. split; [|split; [|split; [|repeat split]]].
  - intros pts. apply first_match_total. unfold GESTURES.
    repeat constructor; cbn [snd];
      first [apply make_L_detector_total | apply detect_V_total].
  - intros pts name. apply first_match_Some.
  - intros pts. apply first_match_None.
Qed.

(** ** Region store *)

Lemma py_float_ok (float_of_str : string -> result float) (v : pyval) :
  float_ok v = true -> py_float float_of_str v = Ok (as_float v).
Proof.
  destruct v as [| [|] | z | f | s | l | l | d];
    cbn [float_ok py_float as_float]; try discriminate; try reflexivity.
  unfold py_float_of_int. intros H. apply negb_true_iff in H. now rewrite H.
Qed.

Lemma py_float_get (float_of_str : string -> result float)
    (d : list (string * pyval)) (k : string) (n : Z) (default : float) :
  (forall v, dict_get d k = Some v -> float_ok v = true) ->
  py_float float_of_str (PInt n) = Ok default ->
  py_float float_of_str (py_get d k (PInt n)) = Ok (frac_or d k default).
Proof.
  intros Hd Hn. unfold py_get, frac_or. destruct (dict_get d k) as [v|].
  - apply py_float_ok. now apply Hd.
  - exact Hn.
Qed.

Lemma region_from_value_null (float_of_str : string -> result float) :
  region_from_value float_of_str (PDict [("x_frac", PNone)]) = Raise TypeError.
Proof. reflexivity. Qed.

(** C9 fails on the code. The dict branch of [region_from_value] hands
    every fraction to [float()] unguarded: the empty dict does come back
    as the full-monitor region, and so does every dict whose fractions,
    where present, are values that [float()] converts (numbers, booleans,
    numeric text), absent ones being defaulted to 0, 0, 1, 1. But a dict
    with a [null] fraction does not come back as a region: [float(None)]
    raises [TypeError], which leaves [normalize_loaded] and
    [load_mappings] with it, so one such record makes the whole load
    fail. The list branch of the same function tests its elements first
    and answers [None] on the same bad value, and [normalize_loaded] then
    drops that entry and keeps the others. *)
Theorem region_from_value_null_crashes (float_of_str : string -> result float) :
  region_from_value float_of_str (PDict []) = Ok (Some full_monitor) /\
  (forall d fx fy fw fh,
     py_float float_of_str (py_get d "x_frac" (PInt 0)) = Ok fx ->
     py_float float_of_str (py_get d "y_frac" (PInt 0)) = Ok fy ->
     py_float float_of_str (py_get d "w_frac" (PInt 1)) = Ok fw ->
     py_float float_of_str (py_get d "h_frac" (PInt 1)) = Ok fh ->
     region_from_value float_of_str (PDict d) = Ok (Some (mkRegion fx fy fw fh))) /\
  (forall s f,
     float_of_str s = Ok f ->
     region_from_value float_of_str (PDict [("x_frac", PStr s)]) =
       Ok (Some (mkRegion f 0 1 1))) /\
  region_from_value float_of_str (PDict [("x_frac", PNone)]) = Raise TypeError /\
  region_from_value float_of_str (PList [PNone; PInt 0; PInt 1; PInt 1]) = Ok None /\
  normalize_loaded float_of_str
    (PDict [("V_shape", PList [PDict [("x_frac", PNone)]; PDict []])]) =
    Raise TypeError /\
  normalize_loaded float_of_str
    (PDict [("V_shape", PList [PList [PNone; PInt 0; PInt 1; PInt 1]; PDict []])]) =
    Ok (PDict [("V_shape", PList [region_to_py full_monitor])]) /\
  load_mappings float_of_str
    (Some (json_dump (PDict [("V_shape", PList [PDict [("x_frac", PNone)]])]))) =
    Raise TypeError.
Proof.
  split; [reflexivity|]. split; [|split; [|repeat split]].
  - intros d fx fy fw fh Ex Ey Ew Eh. cbn [region_from_value].
    unfold region_of_four. now rewrite Ex, Ey, Ew, Eh.
  - intros s f E. cbn [region_from_value]. unfold region_of_four, py_get.
    cbn [dict_get String.eqb Ascii.eqb Bool.eqb py_float]. now rewrite E.
Qed.

(** ** Saving and loading *)

Lemma save_steps_done (k : nat) (f : file) :
  save_steps k (SaveDone, f) = (SaveDone, f).
Proof. destruct k; reflexivity. Qed.

Lemma save_steps_dump (k : nat) (pending c : list token) :
  snd (save_steps k (SaveDump pending, Some c)) = Some (c ++ firstn k pending).
Proof.
  revert pending c. induction k as [|k IH]; intros pending c.
  - cbn. now rewrite app_nil_r.
  - destruct pending as [|t pending]; cbn [save_steps save_step].
    + rewrite save_steps_done. cbn. now rewrite app_nil_r.
    + rewrite IH. cbn [firstn]. now rewrite <- app_assoc.
Qed.

Lemma save_interrupted_prefix (k : nat) (m : pyval) (f : file) :
  save_interrupted (S k) m f = Some (firstn k (json_dump m)).
Proof.
  unfold save_interrupted. cbn [save_steps save_step]. apply save_steps_dump.
Qed.

Lemma save_mappings_complete (m : pyval) (f : file) :
  save_mappings m f = Some (json_dump m).
Proof.
  unfold save_mappings.
  replace (length (json_dump m) + 2)%nat with (S (S (length (json_dump m)))) by lia.
  change (snd (save_steps (S (S (length (json_dump m)))) (SaveOpen m, f)))
    with (save_interrupted (S (S (length (json_dump m)))) m f).
  rewrite save_interrupted_prefix. f_equal. apply firstn_all2. lia.
Qed.

(** C4, as the code has it: [save_mappings] writes the mapping file in
    place. Before its first step the file is untouched; opening it empties
    it, whatever it held; from then on it holds the tokens written so far,
    a prefix of the new document; only the uninterrupted run leaves the
    whole new document. No temporary file or rename is involved. *)
Theorem save_mappings_in_place :
  forall m f k,
    save_interrupted 0 m f = f /\
    save_interrupted 1 m f = Some [] /\
    save_interrupted (S k) m f = Some (firstn k (json_dump m)) /\
    save_mappings m f = Some (json_dump m).
Proof.
  intros m f k. split; [reflexivity|]. split; [reflexivity|].
  split; [apply save_interrupted_prefix | apply save_mappings_complete].
Qed.

(** C4, as stated, fails: interrupted right after the file is opened, a
    save of the empty mapping over a stored mapping leaves an empty file,
    which is neither the old contents nor the new ones, and which
    [load_mappings] cannot read. *)
Lemma save_mappings_not_atomic :
  let old := Some (json_dump left_half_mapping) in
  let crashed := save_interrupted 1 (PDict []) old in
  crashed = Some [] /\
  crashed <> old /\
  crashed <> save_mappings (PDict []) old /\
  load_mappings no_text_floats crashed = Raise JSONDecodeError.
Proof.
  cbv zeta. split; [reflexivity|]. split; [|split]; try reflexivity;
    vm_compute; discriminate.
Qed.

(** C2 at the mapping [left_half_mapping], whose one region is canonical:
    saved to a fresh or existing file and loaded back, the region has
    lost its [monitor] rectangle, so the loaded mapping is not equal to
    the saved one. *)
Theorem load_save_drops_monitor :
  forall float_of_str f,
    load_mappings float_of_str (save_mappings left_half_mapping f) =
      Ok (PDict [("L_down_right",
                  PList [region_to_py (mkRegion 0 0 0.5 1)])]) /\
    py_eq (PDict [("L_down_right", PList [region_to_py (mkRegion 0 0 0.5 1)])])
          left_half_mapping = false /\
    py_eq left_half_mapping left_half_mapping = true /\
    dict_get [("x_frac", PFloat 0); ("y_frac", PFloat 0);
              ("w_frac", PFloat 0.5); ("h_frac", PFloat 1)] "monitor" = None.
Proof.
  intros float_of_str f. rewrite save_mappings_complete.
  repeat split; reflexivity.
Qed.

(** ** Tiling *)

(** C1 on a window that sits on the second monitor: the second
    definition of [tile_window], the one in force, scales the fractions
    (0, 0, 0.5, 1.0) by the primary display and puts the window at (0, 0)
    with size (960, 1080), off its own monitor (1920, 0, 3840, 1080);
    the first definition, which the second replaces, puts it at
    (1920, 0) with size (960, 1080). *)
Theorem tile_window_ignores_window_monitor :
  forall float_of_str,
    get_monitor_rect_for_window desktop_on_B 100 = (1920, 0, 3840, 1080) /\
    fst (tile_window float_of_str left_half_cfg (desktop_on_B, [])) = Ok tt /\
    placement_of
      (fst (snd (tile_window float_of_str left_half_cfg (desktop_on_B, [])))) 100 =
      Some (0, 0, 960, 1080) /\
    placement_of
      (fst (snd (Shadowed.tile_window float_of_str left_half_cfg (desktop_on_B, []))))
      100 = Some (1920, 0, 960, 1080).
Proof. intros float_of_str. repeat split; reflexivity. Qed.

Lemma region_dict_fields (d : list (string * pyval)) :
  is_region_dict (PDict d) = true ->
  forall k v, In k frac_keys -> dict_get d k = Some v -> float_ok v = true.
Proof.
  cbn [is_region_dict]. intros H k v Hk Hv.
  rewrite forallb_forall in H. specialize (H k Hk). now rewrite Hv in H.
Qed.

Lemma region_from_value_dict (float_of_str : string -> result float)
    (v : pyval) :
  is_region_dict v = true ->
  region_from_value float_of_str v = Ok (Some (region_of_dict v)).
Proof.
  destruct v as [| b | z | f | s | l | l | d]; try discriminate.
  intros H. pose proof (region_dict_fields d H) as Hnum.
  cbn [region_from_value region_of_dict]. unfold region_of_four.
  rewrite (py_float_get float_of_str d "x_frac" 0 0%float),
          (py_float_get float_of_str d "y_frac" 0 0%float),
          (py_float_get float_of_str d "w_frac" 1 1%float),
          (py_float_get float_of_str d "h_frac" 1 1%float);
    try reflexivity;
    intros x; apply Hnum; cbn; tauto.
Qed.

Lemma append_regions_dicts (float_of_str : string -> result float)
    (rs : list pyval) (acc : list region) :
  Forall (fun v => is_region_dict v = true) rs ->
  append_regions float_of_str acc rs = Ok (acc ++ map region_of_dict rs).
Proof.
  intros H. revert acc. induction H as [|v rs Hv _ IH]; intros acc.
  - cbn. now rewrite app_nil_r.
  - cbn [append_regions]. unfold append_region.
    rewrite (region_from_value_dict float_of_str v Hv). cbn [bind].
    rewrite IH. cbn [map]. now rewrite <- app_assoc.
Qed.

Lemma flat_four_dicts (rs : list pyval) :
  Forall (fun v => is_region_dict v = true) rs -> flat_four rs = false.
Proof.
  intros H. unfold flat_four. destruct H as [|v rs Hv _].
  - reflexivity.
  - destruct v; try discriminate.
    destruct rs as [|? [|? [|? ?]]]; cbn [firstn forallb is_number andb];
      apply andb_false_r.
Qed.

Lemma regions_of_cfg_dicts (float_of_str : string -> result float)
    (rs : list pyval) :
  Forall (fun v => is_region_dict v = true) rs ->
  regions_of_cfg float_of_str (PList rs) = Ok (map region_of_dict rs).
Proof.
  intros H. cbn [regions_of_cfg]. rewrite (flat_four_dicts rs H).
  apply (append_regions_dicts float_of_str rs [] H).
Qed.

Lemma py_item_nth_error {A : Type} (l : list A) (k : nat) (a : A) :
  nth_error l k = Some a -> py_item l (Z.of_nat k) = Ok a.
Proof.
  intros H. assert (Hk : (k < length l)%nat).
  { apply nth_error_Some. congruence. }
  rewrite (py_item_nat l k a Hk). f_equal. now apply nth_error_nth.
Qed.

Lemma skipn_nth_error {A : Type} (l : list A) (k : nat) (a : A) :
  nth_error l k = Some a -> skipn k l = a :: skipn (S k) l.
Proof.
  revert l. induction k as [|k IH]; intros [|b l] H; try discriminate.
  - cbn in H. injection H as ->. reflexivity.
  - cbn in H. change (skipn (S k) (b :: l)) with (skipn k l).
    now rewrite (IH l H).
Qed.

Lemma nth_error_combine {A B : Type} (l : list A) (l' : list B) (k : nat)
    (a : A) (b : B) :
  nth_error l k = Some a -> nth_error l' k = Some b ->
  nth_error (combine l l') k = Some (a, b).
Proof.
  revert l l'. induction k as [|k IH]; intros [|x l] [|y l'] Ha Hb;
    try discriminate; cbn in *.
  - congruence.
  - now apply IH.
Qed.

Lemma nth_error_lt {A : Type} (l : list A) (k : nat) :
  (k < length l)%nat -> exists a, nth_error l k = Some a.
Proof.
  intros H. destruct (nth_error l k) as [a|] eqn:E; [now exists a|].
  apply nth_error_None in E. lia.
Qed.

Lemma tile_loop_zip (count k : nat) (regions : list region)
    (candidates : list Z) (st : world) :
  (count + k <= length regions)%nat ->
  (count + k <= length candidates)%nat ->
  tile_loop count (Z.of_nat k) regions candidates st =
  tile_zip (Z.of_nat k) (firstn count (skipn k (combine regions candidates))) st.
Proof.
  revert k st. induction count as [|count IH]; intros k st Hr Hc.
  - reflexivity.
  - destruct (nth_error_lt regions k ltac:(lia)) as [r Er].
    destruct (nth_error_lt candidates k ltac:(lia)) as [h Eh].
    cbn [tile_loop].
    rewrite (py_item_nth_error regions k r Er).
    rewrite (py_item_nth_error candidates k h Eh).
    rewrite (skipn_nth_error _ k (r, h) (nth_error_combine _ _ _ _ _ Er Eh)).
    cbn [firstn tile_zip].
    destruct (tile_one (Z.of_nat k) r h st) as [[u|e] st']; [|reflexivity].
    replace (Z.of_nat k + 1) with (Z.of_nat (S k)) by lia.
    apply IH; lia.
Qed.

Lemma tile_loop_all (regions : list region) (candidates : list Z) (st : world) :
  tile_loop (Z.to_nat (Z.min (py_len regions) (py_len candidates))) 0
            regions candidates st =
  tile_zip 0 (combine regions candidates) st.
Proof.
  unfold py_len.
  replace (Z.to_nat (Z.min (Z.of_nat (length regions)) (Z.of_nat (length candidates))))
    with (Nat.min (length regions) (length candidates)) by lia.
  change 0 with (Z.of_nat 0).
  rewrite tile_loop_zip by lia.
  cbn [skipn]. rewrite <- length_combine. now rewrite firstn_all.
Qed.

(** *** The desktop under [ShowWindow] and [MoveWindow] *)

Lemma find_window_hwnd (os : win32) (h : Z) (w : window) :
  find_window os h = Some w -> hwnd w = h.
Proof.
  unfold find_window. intros H. apply find_some in H. now apply Z.eqb_eq.
Qed.

Lemma find_window_update (h : Z) (f : window -> window) (os : win32) (h' : Z) :
  (forall w, hwnd (f w) = hwnd w) ->
  find_window (update_window h f os) h' =
  option_map (fun w => if hwnd w =? h then f w else w) (find_window os h').
Proof.
  intros Hf. unfold find_window, update_window. cbn [windows].
  induction (windows os) as [|w ws IH]; [reflexivity|].
  cbn [map find].
  replace (hwnd (if hwnd w =? h then f w else w)) with (hwnd w)
    by (destruct (hwnd w =? h); [now rewrite Hf | reflexivity]).
  destruct (hwnd w =? h'); [reflexivity | exact IH].
Qed.

Lemma faulty_update (h : Z) (f : window -> window) (os : win32) (h' : Z) :
  (forall w, hwnd (f w) = hwnd w) ->
  (forall w, show_raises (f w) = show_raises w) ->
  (forall w, move_raises (f w) = move_raises w) ->
  faulty (update_window h f os) h' = faulty os h'.
Proof.
  intros Hh Hs Hm. unfold faulty. rewrite find_window_update by exact Hh.
  destruct (find_window os h') as [w|]; [|reflexivity]. cbn [option_map].
  destruct (hwnd w =? h); [now rewrite Hs, Hm | reflexivity].
Qed.

Lemma placement_update_other (h : Z) (f : window -> window) (os : win32) (h' : Z) :
  (forall w, hwnd (f w) = hwnd w) -> h' <> h ->
  placement_of (update_window h f os) h' = placement_of os h'.
Proof.
  intros Hh Hne. unfold placement_of. rewrite find_window_update by exact Hh.
  destruct (find_window os h') as [w|] eqn:E; [|reflexivity]. cbn [option_map].
  apply find_window_hwnd in E.
  now replace (hwnd w =? h) with false by (symmetry; apply Z.eqb_neq; lia).
Qed.

Lemma placement_update_shown (h : Z) (s : show_state) (os : win32) (h' : Z) :
  placement_of (update_window h (set_shown s) os) h' = placement_of os h'.
Proof.
  unfold placement_of. rewrite find_window_update by reflexivity.
  destruct (find_window os h') as [w|]; [|reflexivity]. cbn [option_map].
  now destruct (hwnd w =? h).
Qed.

Lemma placement_update_set (h : Z) (p : Z * Z * Z * Z) (os : win32) (w : window) :
  find_window os h = Some w ->
  placement_of (update_window h (set_placement p) os) h = Some p.
Proof.
  intros E. unfold placement_of. rewrite find_window_update by reflexivity.
  rewrite E. cbn [option_map]. apply find_window_hwnd in E.
  now replace (hwnd w =? h) with true by (symmetry; apply Z.eqb_eq; exact E).
Qed.

Lemma try_place_spec (i : Z) (r : region) (h : Z) (p : Z * Z * Z * Z)
    (os : win32) (log : list log_line) :
  exists os',
    try_place i r h p (os, log) =
      (os', log ++ [if faulty os h then WarnFailed h WinError
                    else InfoTiled h (i + 1) r]) /\
    SCREEN_W os' = SCREEN_W os /\ SCREEN_H os' = SCREEN_H os /\
    (forall h', faulty os' h' = faulty os h') /\
    (forall h', h' <> h -> placement_of os' h' = placement_of os h') /\
    placement_of os' h = (if faulty os h then placement_of os h else Some p).
Proof.
  destruct p as [[[x y] wd] ht].
  unfold try_place, ShowWindow.
  destruct (find_window os h) as [w|] eqn:Ew.
  2: { assert (Hf : faulty os h = true) by (unfold faulty; now rewrite Ew).
       rewrite Hf. exists os. repeat split; reflexivity. }
  assert (Hf : faulty os h = show_raises w || move_raises w)
    by (unfold faulty; now rewrite Ew).
  rewrite Hf. clear Hf.
  destruct (show_raises w) eqn:Es; cbn [orb].
  { exists os. repeat split; reflexivity. }
  set (os1 := update_window h (set_shown Normal) os).
  assert (Ew1 : find_window os1 h = Some (set_shown Normal w)).
  { unfold os1. rewrite find_window_update by reflexivity. rewrite Ew.
    cbn [option_map]. pose proof (find_window_hwnd _ _ _ Ew) as Hh.
    now replace (hwnd w =? h) with true by (symmetry; apply Z.eqb_eq; exact Hh). }
  assert (F1 : forall h', faulty os1 h' = faulty os h')
    by (intros h'; apply faulty_update; reflexivity).
  assert (P1 : forall h', placement_of os1 h' = placement_of os h')
    by (intros h'; apply placement_update_shown).
  unfold MoveWindow. rewrite Ew1. cbn [move_raises set_shown].
  destruct (move_raises w) eqn:Em.
  { exists os1. repeat split; auto. }
  exists (update_window h (set_placement (x, y, wd, ht)) os1).
  split; [reflexivity|]. split; [reflexivity|]. split; [reflexivity|].
  split; [|split].
  - intros h'. rewrite faulty_update by reflexivity. apply F1.
  - intros h' Hne. rewrite placement_update_other by (auto; reflexivity). apply P1.
  - apply (placement_update_set h _ os1 _ Ew1).
Qed.

(** *** Pair after pair *)

Lemma pixel_rect_frame (os os' : win32) (r : region) :
  SCREEN_W os' = SCREEN_W os -> SCREEN_H os' = SCREEN_H os ->
  pixel_rect os' r = pixel_rect os r.
Proof. intros Hw Hh. unfold pixel_rect. now rewrite Hw, Hh. Qed.

Lemma pair_lines_frame (os os' : win32) (i : Z) (pairs : list (region * Z)) :
  (forall h, faulty os' h = faulty os h) ->
  pair_lines os' i pairs = pair_lines os i pairs.
Proof.
  intros Hf. revert i. induction pairs as [|[r h] pairs IH]; intros i; cbn.
  - reflexivity.
  - now rewrite Hf, IH.
Qed.

Lemma pair_lines_nth (os : win32) (pairs : list (region * Z)) (i : Z) (k : nat)
    (r : region) (h : Z) :
  nth_error pairs k = Some (r, h) ->
  nth_error (pair_lines os i pairs) k =
  Some (if faulty os h then WarnFailed h WinError
        else InfoTiled h (i + Z.of_nat k + 1) r).
Proof.
  revert i k. induction pairs as [|[r' h'] pairs IH]; intros i k H.
  - destruct k; discriminate.
  - destruct k as [|k]; cbn in H; cbn [pair_lines nth_error].
    + injection H as -> ->. now replace (i + Z.of_nat 0 + 1) with (i + 1) by lia.
    + rewrite (IH (i + 1) k H).
      now replace (i + 1 + Z.of_nat k + 1) with (i + Z.of_nat (S k) + 1) by lia.
Qed.

Lemma length_pair_lines (os : win32) (i : Z) (pairs : list (region * Z)) :
  length (pair_lines os i pairs) = length pairs.
Proof.
  revert i. induction pairs as [|[r h] pairs IH]; intros i; cbn; [|rewrite IH];
    reflexivity.
Qed.

Lemma tile_zip_spec (pairs : list (region * Z)) :
  forall (i : Z) (os : win32) (log : list log_line),
    (forall r h, In (r, h) pairs -> placeable os r = true) ->
    exists os',
      tile_zip i pairs (os, log) = (Ok tt, (os', log ++ pair_lines os i pairs)) /\
      SCREEN_W os' = SCREEN_W os /\ SCREEN_H os' = SCREEN_H os /\
      (forall h', faulty os' h' = faulty os h') /\
      (forall h', ~ In h' (map snd pairs) ->
                  placement_of os' h' = placement_of os h') /\
      (NoDup (map snd pairs) ->
       forall k r h, nth_error pairs k = Some (r, h) ->
         placement_of os' h =
         if faulty os h then placement_of os h else planned os r).
Proof.
  induction pairs as [|[r h] pairs IH]; intros i os log Hpl.
  - exists os. cbn. rewrite app_nil_r. repeat split; auto.
    intros _ [|k] r h H; discriminate.
  - cbn [tile_zip]. unfold tile_one. cbn [fst].
    assert (Hp : placeable os r = true) by (apply (Hpl r h); now left).
    unfold placeable in Hp. destruct (pixel_rect os r) as [p|e] eqn:Ep;
      [clear Hp | discriminate].
    destruct (try_place_spec i r h p os log)
      as (os1 & E1 & Hw1 & Hh1 & Hf1 & Ho1 & Hs1).
    rewrite E1.
    destruct (IH (i + 1) os1 (log ++ [if faulty os h then WarnFailed h WinError
                                       else InfoTiled h (i + 1) r]))
      as (os' & E' & Hw' & Hh' & Hf' & Ho' & Hs').
    { intros r' h' Hin. unfold placeable.
      rewrite (pixel_rect_frame os os1 r' Hw1 Hh1).
      apply (Hpl r' h'). now right. }
    exists os'. split; [|split; [|split; [|split; [|split]]]].
    + rewrite E'. rewrite (pair_lines_frame os os1 _ _ Hf1).
      cbn [pair_lines]. now rewrite <- app_assoc.
    + congruence.
    + congruence.
    + intros h'. now rewrite Hf', Hf1.
    + intros h' Hn. cbn [map snd In] in Hn.
      rewrite Ho' by tauto. apply Ho1. intros ->. tauto.
    + intros Hnd k r0 h0 Hk. cbn [map snd] in Hnd.
      inversion Hnd as [|? ? Hnotin Hnd']; subst.
      destruct k as [|k]; cbn in Hk.
      * injection Hk as <- <-. rewrite (Ho' h Hnotin), Hs1.
        unfold planned. now rewrite Ep.
      * assert (Hin : In h0 (map snd pairs)).
        { apply nth_error_In in Hk. now apply (in_map snd) in Hk. }
        rewrite (Hs' Hnd' k r0 h0 Hk), Hf1.
        unfold planned. rewrite (pixel_rect_frame os os1 r0 Hw1 Hh1).
        rewrite Ho1; [reflexivity|]. intros ->. tauto.
Qed.

(** *** Candidates *)

Lemma remove_first_In (x y : Z) (l : list Z) :
  In y (remove_first x l) -> In y l.
Proof.
  induction l as [|a l IH]; cbn; [tauto|].
  destruct (a =? x); cbn; tauto.
Qed.

Lemma remove_first_NoDup (x : Z) (l : list Z) :
  NoDup l -> NoDup (remove_first x l) /\ ~ In x (remove_first x l).
Proof.
  induction 1 as [|a l Ha Hl [IH1 IH2]]; cbn.
  - split; [constructor | tauto].
  - destruct (a =? x) eqn:E.
    + apply Z.eqb_eq in E. subst a. now split.
    + apply Z.eqb_neq in E. split.
      * constructor; [|exact IH1]. intros Hin. apply Ha.
        now apply (remove_first_In x).
      * cbn. intros [->|Hin]; [now apply E | now apply IH2].
Qed.

Lemma focus_first_NoDup (x : Z) (l : list Z) :
  NoDup l -> NoDup (focus_first x l).
Proof.
  intros H. unfold focus_first. destruct (existsb (Z.eqb x) l); [|exact H].
  destruct (remove_first_NoDup x l H). now constructor.
Qed.

Lemma enum_tilable_windows_NoDup (os : win32) :
  NoDup (map hwnd (windows os)) -> NoDup (enum_tilable_windows os).
Proof.
  unfold enum_tilable_windows. induction (windows os) as [|w ws IH]; cbn.
  - constructor.
  - intros H. inversion H as [|? ? Hw Hws]; subst.
    destruct (tilable w); [|now apply IH]. cbn. constructor; [|now apply IH].
    intros Hin. apply Hw. apply in_map_iff in Hin. destruct Hin as (w' & E & Hin).
    apply in_map_iff. exists w'. split; [exact E|].
    now apply filter_In in Hin.
Qed.

Lemma map_snd_combine {A B : Type} (l : list A) (l' : list B) :
  map snd (combine l l') = firstn (Nat.min (length l) (length l')) l'.
Proof.
  revert l'. induction l as [|a l IH]; intros [|b l']; cbn; try reflexivity.
  now rewrite IH.
Qed.

Lemma surplus_lines_log (regions : list region) (candidates : list Z)
    (log : list log_line) :
  let n_to_tile := Z.min (py_len regions) (py_len candidates) in
  (if py_len candidates >? n_to_tile
   then (if py_len regions >? n_to_tile
         then log ++ [InfoRegionsUnused (py_len regions - n_to_tile)]
         else log) ++ [InfoWindowsLeft (py_len candidates - n_to_tile)]
   else (if py_len regions >? n_to_tile
         then log ++ [InfoRegionsUnused (py_len regions - n_to_tile)]
         else log)) =
  log ++ surplus_lines regions candidates.
Proof.
  cbv zeta. unfold surplus_lines, py_len.
  set (a := length regions). set (b := length candidates).
  replace (Z.min (Z.of_nat a) (Z.of_nat b)) with (Z.of_nat (Nat.min a b)) by lia.
  replace (Z.of_nat a - Z.of_nat (Nat.min a b)) with (Z.of_nat (a - Nat.min a b)) by lia.
  replace (Z.of_nat b - Z.of_nat (Nat.min a b)) with (Z.of_nat (b - Nat.min a b)) by lia.
  rewrite !Z.gtb_ltb.
  destruct (Nat.ltb_spec (Nat.min a b) a) as [Ha | Ha];
    destruct (Nat.ltb_spec (Nat.min a b) b) as [Hb | Hb];
    [ replace (Z.of_nat (Nat.min a b) <? Z.of_nat a) with true
        by (symmetry; apply Z.ltb_lt; lia)
    | replace (Z.of_nat (Nat.min a b) <? Z.of_nat a) with true
        by (symmetry; apply Z.ltb_lt; lia)
    | replace (Z.of_nat (Nat.min a b) <? Z.of_nat a) with false
        by (symmetry; apply Z.ltb_ge; lia)
    | replace (Z.of_nat (Nat.min a b) <? Z.of_nat a) with false
        by (symmetry; apply Z.ltb_ge; lia) ];
    [ replace (Z.of_nat (Nat.min a b) <? Z.of_nat b) with true
        by (symmetry; apply Z.ltb_lt; lia)
    | replace (Z.of_nat (Nat.min a b) <? Z.of_nat b) with false
        by (symmetry; apply Z.ltb_ge; lia)
    | replace (Z.of_nat (Nat.min a b) <? Z.of_nat b) with true
        by (symmetry; apply Z.ltb_lt; lia)
    | replace (Z.of_nat (Nat.min a b) <? Z.of_nat b) with false
        by (symmetry; apply Z.ltb_ge; lia) ];
    cbn [app]; rewrite ?app_nil_r, <- ?app_assoc; reflexivity.
Qed.

Lemma NoDup_firstn {A : Type} (n : nat) (l : list A) :
  NoDup l -> NoDup (firstn n l).
Proof.
  intros H. rewrite <- (firstn_skipn n l) in H.
  now apply NoDup_app_remove_r in H.
Qed.

Lemma tile_window_run (float_of_str : string -> result float) (os : win32)
    (log : list log_line) (rs : list pyval) :
  Forall (fun v => is_region_dict v = true) rs ->
  Forall (fun v => placeable os (region_of_dict v) = true) rs ->
  let regions := map region_of_dict rs in
  let candidates := focus_first (foreground os) (enum_tilable_windows os) in
  exists os',
    tile_window float_of_str (PList rs) (os, log) =
      (Ok tt, (os', log ++ tiling_lines os (PList rs) regions)) /\
    (forall h, ~ In h (paired_windows os regions) ->
               placement_of os' h = placement_of os h) /\
    (NoDup (map hwnd (windows os)) ->
     forall k r h,
       nth_error regions k = Some r -> nth_error candidates k = Some h ->
       placement_of os' h =
       if faulty os h then placement_of os h else planned os r).
Proof.
  intros Hrs Hpx regions candidates.
  unfold tile_window. rewrite (regions_of_cfg_dicts float_of_str rs Hrs).
  fold regions. unfold tiling_lines.
  assert (Hpl : forall r h, In (r, h) (combine regions candidates) -> placeable os r = true).
  { intros r h Hin. apply in_combine_l in Hin. unfold regions in Hin.
    apply in_map_iff in Hin. destruct Hin as (v & <- & Hv).
    rewrite Forall_forall in Hpx. now apply Hpx. }
  destruct (tile_zip_spec (combine regions candidates) 0 os log Hpl)
    as (os' & E & _ & _ & _ & Ho & Hs).
  pose proof (tile_loop_all regions candidates (os, log)) as Hloop.
  pose proof (surplus_lines_log regions candidates) as Hsur. cbv zeta in Hsur.
  unfold paired_windows. fold candidates.
  clearbody regions.
  destruct regions as [|r0 regions'].
  { exists os. split; [reflexivity|]. split; [reflexivity|].
    intros _ [|k] r h H; discriminate. }
  unfold candidates in *. clear candidates.
  destruct (enum_tilable_windows os) as [|c0 cs] eqn:Een.
  { exists os. split; [reflexivity|]. split; [reflexivity|].
    intros _ [|k] r h _ H; discriminate. }
  cbv zeta. rewrite Hloop, E. exists os'. split; [|split].
  - rewrite Hsur, <- app_assoc. reflexivity.
  - intros h Hn. apply Ho. rewrite map_snd_combine. exact Hn.
  - intros Hnd k r h Hr Hc. apply Hs with (k := k).
    + rewrite map_snd_combine.
      apply NoDup_firstn, focus_first_NoDup. rewrite <- Een.
      now apply enum_tilable_windows_NoDup.
    + now apply nth_error_combine.
Qed.

Lemma focus_first_nil (x : Z) (l : list Z) : focus_first x l = [] -> l = [].
Proof.
  unfold focus_first. destruct (existsb (Z.eqb x) l); [discriminate | auto].
Qed.

Lemma tiling_lines_pairs (os : win32) (cfg : pyval) (regions : list region) :
  let candidates := focus_first (foreground os) (enum_tilable_windows os) in
  regions <> [] -> candidates <> [] ->
  tiling_lines os cfg regions =
  pair_lines os 0 (combine regions candidates) ++ surplus_lines regions candidates.
Proof.
  intros candidates Hr Hc. unfold tiling_lines. fold candidates.
  destruct regions as [|r regions]; [congruence|].
  destruct (enum_tilable_windows os) as [|c cs] eqn:E; [|reflexivity].
  exfalso. apply Hc. reflexivity.
Qed.

Lemma tiling_lines_nth (os : win32) (cfg : pyval) (regions : list region)
    (k : nat) (r : region) (h : Z) :
  nth_error regions k = Some r ->
  nth_error (focus_first (foreground os) (enum_tilable_windows os)) k = Some h ->
  In (if faulty os h then WarnFailed h WinError
      else InfoTiled h (Z.of_nat k + 1) r)
     (tiling_lines os cfg regions).
Proof.
  intros Hr Hc. rewrite tiling_lines_pairs.
  - apply in_or_app. left. apply (nth_error_In _ k).
    rewrite (pair_lines_nth os _ 0 k r h (nth_error_combine _ _ _ _ _ Hr Hc)).
    reflexivity.
  - intros E. rewrite E in Hr. destruct k; discriminate.
  - intros E. rewrite E in Hc. destruct k; discriminate.
Qed.

Lemma tiling_lines_surplus (os : win32) (cfg : pyval) (regions : list region) :
  let candidates := focus_first (foreground os) (enum_tilable_windows os) in
  let n := Nat.min (length regions) (length candidates) in
  ((n < length regions)%nat ->
   In (InfoRegionsUnused (Z.of_nat (length regions - n)))
      (tiling_lines os cfg regions) \/
   tiling_lines os cfg regions = [WarnNoCandidates]) /\
  ((n < length candidates)%nat ->
   In (InfoWindowsLeft (Z.of_nat (length candidates - n)))
      (tiling_lines os cfg regions) \/
   tiling_lines os cfg regions = [WarnInvalidMapping cfg]).
Proof.
  intros candidates n.
  destruct regions as [|r regions].
  { split; [cbn; lia | intros _; right; reflexivity]. }
  destruct (enum_tilable_windows os) as [|c cs] eqn:E.
  { split.
    - intros _. right. unfold tiling_lines. now rewrite E.
    - unfold candidates, n. cbn. lia. }
  assert (Hc : focus_first (foreground os) (enum_tilable_windows os) <> []).
  { intros H. apply focus_first_nil in H. congruence. }
  rewrite (tiling_lines_pairs os cfg (r :: regions)); [|discriminate | exact Hc].
  rewrite E. fold candidates. unfold surplus_lines. fold n. split; intros Hn; left;
    apply in_or_app; right; apply in_or_app.
  - left. apply Nat.ltb_lt in Hn. rewrite Hn. now left.
  - right. apply Nat.ltb_lt in Hn. rewrite Hn. now left.
Qed.

(** C7: on a list of region records with usable fractions, [tile_window]
    returns normally, whatever the numbers of regions and of candidate
    windows. It pairs region number [k] with candidate number [k], in the
    order focused window first, and prints one line for each such pair:
    [min(len(regions), len(candidates))] windows take part and no other
    window is moved. With distinct window handles those are
    [min(len(regions), len(candidates))] different windows, and each of
    them ends on the rectangle computed from the region of its own
    position, unless [ShowWindow] or [MoveWindow] raises for it. Regions
    left over and windows left over are only reported, by the line that
    counts them, or by the warning printed when there is no window or no
    region at all. *)
Theorem tile_window_pairs_positionally
    (float_of_str : string -> result float) (os : win32)
    (log : list log_line) (rs : list pyval)
    (Hrs : Forall (fun v => is_region_dict v = true) rs)
    (Hpx : Forall (fun v => placeable os (region_of_dict v) = true) rs) :
  let regions := map region_of_dict rs in
  let candidates := focus_first (foreground os) (enum_tilable_windows os) in
  let n := Nat.min (length regions) (length candidates) in
  let lines := tiling_lines os (PList rs) regions in
  exists os',
    tile_window float_of_str (PList rs) (os, log) = (Ok tt, (os', log ++ lines)) /\
    length (paired_windows os regions) = n /\
    (forall h, ~ In h (paired_windows os regions) ->
               placement_of os' h = placement_of os h) /\
    (forall k r h,
       nth_error regions k = Some r -> nth_error candidates k = Some h ->
       In (if faulty os h then WarnFailed h WinError
           else InfoTiled h (Z.of_nat k + 1) r) lines) /\
    (NoDup (map hwnd (windows os)) ->
     NoDup (paired_windows os regions) /\
     forall k r h,
       nth_error regions k = Some r -> nth_error candidates k = Some h ->
       In h (paired_windows os regions) /\
       exists p,
         pixel_rect os r = Ok p /\
         placement_of os' h =
           if faulty os h then placement_of os h else Some p) /\
    ((n < length regions)%nat ->
     In (InfoRegionsUnused (Z.of_nat (length regions - n))) lines \/
     lines = [WarnNoCandidates]) /\
    ((n < length candidates)%nat ->
     In (InfoWindowsLeft (Z.of_nat (length candidates - n))) lines \/
     lines = [WarnInvalidMapping (PList rs)]).
Proof.
  intros regions candidates n lines.
  destruct (tile_window_run float_of_str os log rs Hrs Hpx) as (os' & E & Ho & Hs).
  exists os'. split; [exact E|]. split; [|split; [exact Ho|split; [|split]]].
  - unfold paired_windows. fold candidates. rewrite length_firstn. unfold n. lia.
  - intros k r h Hr Hc. now apply tiling_lines_nth.
  - intros Hnd. split.
    + unfold paired_windows. apply NoDup_firstn, focus_first_NoDup.
      now apply enum_tilable_windows_NoDup.
    + intros k r h Hr Hc. split.
      * unfold paired_windows. fold candidates.
        apply (nth_error_In _ k). rewrite nth_error_firstn.
        assert (Hk : (k < Nat.min (length regions) (length candidates))%nat).
        { apply Nat.min_glb_lt; apply nth_error_Some; congruence. }
        apply Nat.ltb_lt in Hk. now rewrite Hk.
      * assert (Hp : placeable os r = true).
        { apply nth_error_In in Hr. unfold regions in Hr. apply in_map_iff in Hr.
          destruct Hr as (v & <- & Hv). rewrite Forall_forall in Hpx. now apply Hpx. }
        pose proof (Hs Hnd k r h Hr Hc) as Hpl.
        unfold placeable in Hp. unfold planned in Hpl.
        destruct (pixel_rect os r) as [p|e]; [|discriminate].
        now exists p.
  - apply tiling_lines_surplus.
Qed.

(** Three saved regions and one candidate window: the window is tiled to
    the first region and two regions are reported unused. *)
Lemma tile_window_pairs_positionally_witness :
  exists os',
    tile_window no_text_floats three_regions_cfg (desktop_on_B, []) =
      (Ok tt, (os', [InfoTiled 100 1 (region_of_dict (third 0));
                     InfoRegionsUnused 2])) /\
    paired_windows desktop_on_B (map region_of_dict [third 0; third 1; third 2]) =
      [100] /\
    placement_of os' 100 = Some (0, 0, 480, 1080).
Proof.
  destruct (tile_window_pairs_positionally no_text_floats desktop_on_B []
              [third 0; third 1; third 2]) as (os' & E & _ & _ & _ & H & _).
  - repeat constructor.
  - repeat constructor.
  - exists os'. split; [exact E|]. split; [reflexivity|].
    destruct H as [_ H]; [repeat constructor; cbn; tauto|].
    destruct (H 0%nat (region_of_dict (third 0)) 100 eq_refl eq_refl)
      as (_ & p & Ep & Hp).
    rewrite Hp. vm_compute in Ep. injection Ep as <-. reflexivity.
Defined.

(** C8: with distinct window handles, [tile_window] returns normally
    whichever windows make [ShowWindow] or [MoveWindow] raise. Every pair
    is processed: a window whose call raises gets the failure line and
    keeps its placement, and every other paired window, before or after
    it, gets the tiled line and the rectangle computed from its own
    region. *)
Theorem tile_window_isolates_failures
    (float_of_str : string -> result float) (os : win32)
    (log : list log_line) (rs : list pyval)
    (Hrs : Forall (fun v => is_region_dict v = true) rs)
    (Hpx : Forall (fun v => placeable os (region_of_dict v) = true) rs)
    (Hnd : NoDup (map hwnd (windows os))) :
  let regions := map region_of_dict rs in
  let candidates := focus_first (foreground os) (enum_tilable_windows os) in
  let lines := tiling_lines os (PList rs) regions in
  exists os',
    tile_window float_of_str (PList rs) (os, log) = (Ok tt, (os', log ++ lines)) /\
    forall k r h,
      nth_error regions k = Some r -> nth_error candidates k = Some h ->
      if faulty os h
      then In (WarnFailed h WinError) lines /\
           placement_of os' h = placement_of os h
      else In (InfoTiled h (Z.of_nat k + 1) r) lines /\
           placement_of os' h = planned os r.
Proof.
  intros regions candidates lines.
  destruct (tile_window_run float_of_str os log rs Hrs Hpx) as (os' & E & _ & Hs).
  exists os'. split; [exact E|].
  intros k r h Hr Hc.
  pose proof (tiling_lines_nth os (PList rs) regions k r h Hr Hc) as Hin.
  pose proof (Hs Hnd k r h Hr Hc) as Hp.
  fold lines in Hin. destruct (faulty os h); split; assumption.
Qed.

(** Three pairs, the second of which raises in [MoveWindow]: the first
    and third windows are placed on their regions, the second keeps its
    placement, and the call returns normally. *)
Lemma tile_window_isolates_failures_witness :
  exists os',
    tile_window no_text_floats three_regions_cfg (desktop_of_three true, []) =
      (Ok tt, (os', [InfoTiled 102 1 (region_of_dict (third 0));
                     WarnFailed 101 WinError;
                     InfoTiled 103 3 (region_of_dict (third 2))])) /\
    map (placement_of os') [102; 101; 103] =
      [Some (0, 0, 480, 1080); Some (10, 10, 500, 400); Some (960, 0, 480, 1080)].
Proof.
  destruct (tile_window_isolates_failures no_text_floats (desktop_of_three true) []
              [third 0; third 1; third 2]) as (os' & E & H).
  - repeat constructor.
  - repeat constructor.
  - repeat constructor; cbn; intuition discriminate.
  - exists os'. split; [exact E|].
    pose proof (H 0%nat _ 102 eq_refl eq_refl) as [_ H0].
    pose proof (H 1%nat _ 101 eq_refl eq_refl) as [_ H1].
    pose proof (H 2%nat _ 103 eq_refl eq_refl) as [_ H2].
    cbn [map]. rewrite H0, H1, H2. reflexivity.
Defined.

(** ** Reading back what was written *)

Lemma pyval_induction (P : pyval -> Prop) :
  P PNone -> (forall b, P (PBool b)) -> (forall z, P (PInt z)) ->
  (forall f, P (PFloat f)) -> (forall s, P (PStr s)) ->
  (forall l, Forall P l -> P (PList l)) ->
  (forall l, Forall P l -> P (PTuple l)) ->
  (forall d, Forall (fun kv => P (snd kv)) d -> P (PDict d)) ->
  forall v, P v.
Proof.
  intros HN HB HI HF HS HL HT HD.
  fix IH 1. intros v. destruct v as [| b | z | f | s | l | l | d].
  - exact HN.
  - apply HB.
  - apply HI.
  - apply HF.
  - apply HS.
  - apply HL. induction l as [|x l IHl]; constructor; [apply IH | exact IHl].
  - apply HT. induction l as [|x l IHl]; constructor; [apply IH | exact IHl].
  - apply HD. induction d as [|[k x] d IHd]; constructor; [apply IH | exact IHd].
Qed.

Lemma json_dump_list (l : list pyval) :
  json_dump (PList l) = TLBracket :: dump_elems l ++ [TRBracket].
Proof.
  reflexivity.
Qed.

Lemma json_dump_dict (d : list (string * pyval)) :
  json_dump (PDict d) = TLBrace :: dump_members d ++ [TRBrace].
Proof.
  reflexivity.
Qed.

Lemma json_dump_opens (v : pyval) (rest : list token) :
  opens_value (json_dump v ++ rest).
Proof. destruct v as [| [|] | | | | | |]; exact I. Qed.

Lemma dump_elems_opens (x : pyval) (l : list pyval) (rest : list token) :
  opens_value (dump_elems (x :: l) ++ rest).
Proof.
  destruct l; cbn [dump_elems]; [|rewrite <- app_assoc]; apply json_dump_opens.
Qed.

Lemma parse_value_array (n : nat) (ts : list token) :
  opens_value ts ->
  parse_value (S n) (TLBracket :: ts) =
  match parse_elems n ts with
  | Some (vs, r) => Some (PList vs, r)
  | None => None
  end.
Proof.
  destruct ts as [|t ts]; [contradiction|].
  destruct t; try contradiction; reflexivity.
Qed.

Lemma parse_value_object (n : nat) (k : string) (ts : list token) :
  parse_value (S n) (TLBrace :: TString k :: ts) =
  match parse_members n (TString k :: ts) with
  | Some (ms, r) => Some (PDict (dict_of_members ms), r)
  | None => None
  end.
Proof. reflexivity. Qed.

Lemma parse_elems_S (n : nat) (ts : list token) :
  parse_elems (S n) ts =
  match parse_value n ts with
  | Some (v, TComma :: r) =>
      match parse_elems n r with
      | Some (vs, r') => Some (v :: vs, r')
      | None => None
      end
  | Some (v, TRBracket :: r) => Some ([v], r)
  | _ => None
  end.
Proof. reflexivity. Qed.

Lemma parse_members_S (n : nat) (k : string) (ts : list token) :
  parse_members (S n) (TString k :: TColon :: ts) =
  match parse_value n ts with
  | Some (v, TComma :: r') =>
      match parse_members n r' with
      | Some (ms, r'') => Some ((k, v) :: ms, r'')
      | None => None
      end
  | Some (v, TRBrace :: r') => Some ([(k, v)], r')
  | _ => None
  end.
Proof. reflexivity. Qed.

Lemma parse_dump_elems (l : list pyval) :
  l <> [] -> Forall reads_back l -> forallb json_native l = true ->
  forall n rest,
    (length (dump_elems l) + 1 <= n)%nat ->
    parse_elems n (dump_elems l ++ TRBracket :: rest) = Some (l, rest).
Proof.
  induction l as [|x l IH]; [congruence|].
  intros _ HF Hnat n rest Hn.
  inversion HF as [|? ? Hx Hl]; subst.
  cbn [forallb] in Hnat. apply andb_true_iff in Hnat. destruct Hnat as [Nx Nl].
  destruct n as [|n]; [lia|]. rewrite parse_elems_S.
  destruct l as [|y l].
  - cbn [dump_elems] in *. rewrite (Hx Nx) by lia. reflexivity.
  - change (dump_elems (x :: y :: l))
      with (json_dump x ++ TComma :: dump_elems (y :: l)) in *.
    rewrite length_app in Hn. cbn [length] in Hn.
    rewrite <- app_assoc. cbn [app]. rewrite (Hx Nx) by lia.
    rewrite IH; [reflexivity | discriminate | exact Hl | exact Nl | lia].
Qed.

Lemma parse_dump_members (d : list (string * pyval)) :
  d <> [] -> Forall (fun kv => reads_back (snd kv)) d ->
  forallb (fun kv => json_native (snd kv)) d = true ->
  forall n rest,
    (length (dump_members d) + 1 <= n)%nat ->
    parse_members n (dump_members d ++ TRBrace :: rest) = Some (d, rest).
Proof.
  induction d as [|[k x] d IH]; [congruence|].
  intros _ HF Hnat n rest Hn.
  inversion HF as [|? ? Hx Hd]; subst. cbn [snd] in Hx.
  cbn [forallb snd] in Hnat. apply andb_true_iff in Hnat. destruct Hnat as [Nx Nd].
  destruct n as [|n]; [lia|].
  destruct d as [|[k' y] d].
  - cbn [dump_members app length] in *. rewrite parse_members_S.
    rewrite (Hx Nx) by lia. reflexivity.
  - change (dump_members ((k, x) :: (k', y) :: d))
      with (TString k :: TColon :: json_dump x ++
            TComma :: dump_members ((k', y) :: d)) in *.
    cbn [length] in Hn. rewrite length_app in Hn. cbn [length] in Hn.
    cbn [app]. rewrite parse_members_S.
    rewrite <- app_assoc. cbn [app]. rewrite (Hx Nx) by lia.
    rewrite IH; [reflexivity | discriminate | exact Hd | exact Nd | lia].
Qed.

Lemma dict_set_fresh (d : list (string * pyval)) (k : string) (v : pyval) :
  existsb (String.eqb k) (map fst d) = false -> dict_set d k v = d ++ [(k, v)].
Proof.
  induction d as [|[k' v'] d IH]; [reflexivity|].
  cbn [map fst existsb dict_set]. intros H. apply orb_false_iff in H.
  destruct H as [Hk Hd]. rewrite String.eqb_sym in Hk. rewrite Hk.
  now rewrite IH.
Qed.

Lemma existsb_app_single (k k' : string) (ks : list string) :
  existsb (String.eqb k) (ks ++ [k']) = existsb (String.eqb k) ks || String.eqb k k'.
Proof. rewrite existsb_app. cbn. now rewrite orb_false_r. Qed.

Lemma dict_of_members_distinct (d acc : list (string * pyval)) :
  distinct (map fst d) = true ->
  forallb (fun k => negb (existsb (String.eqb k) (map fst acc))) (map fst d) = true ->
  fold_left (fun a kv => dict_set a (fst kv) (snd kv)) d acc = acc ++ d.
Proof.
  revert acc. induction d as [|[k v] d IH]; intros acc Hd Hacc.
  - cbn. now rewrite app_nil_r.
  - cbn [map fst distinct forallb] in Hd, Hacc.
    apply andb_true_iff in Hd. destruct Hd as [Hk Hd].
    apply andb_true_iff in Hacc. destruct Hacc as [Hka Hacc].
    apply negb_true_iff in Hk, Hka.
    cbn [fold_left fst snd]. rewrite dict_set_fresh by exact Hka.
    rewrite IH; [now rewrite <- app_assoc | exact Hd |].
    rewrite forallb_forall in Hacc |- *. intros k' Hin.
    rewrite map_app. cbn [map fst]. rewrite existsb_app_single.
    rewrite negb_orb. rewrite (Hacc k' Hin). cbn [andb].
    destruct (String.eqb_spec k' k) as [->|]; [|reflexivity].
    exfalso. rewrite <- not_true_iff_false in Hk. apply Hk.
    apply existsb_exists. exists k. split; [exact Hin | apply String.eqb_refl].
Qed.

Lemma json_dump_reads_back (v : pyval) : reads_back v.
Proof.
  induction v as [| b | z | f | s | l IH | l IH | d IH] using pyval_induction;
    intros Hnat n rest Hn.
  - destruct n; [cbn in Hn; lia | reflexivity].
  - destruct b; (destruct n; [cbn in Hn; lia | reflexivity]).
  - destruct n; [cbn in Hn; lia | reflexivity].
  - destruct n; [cbn in Hn; lia | reflexivity].
  - destruct n; [cbn in Hn; lia | reflexivity].
  - rewrite json_dump_list in *. cbn [length] in Hn. rewrite length_app in Hn.
    cbn [length] in Hn. destruct n as [|n]; [lia|].
    cbn [json_native] in Hnat. cbn [app]. rewrite <- app_assoc. cbn [app].
    destruct l as [|x l]; [reflexivity|].
    rewrite parse_value_array by apply dump_elems_opens.
    rewrite parse_dump_elems; [reflexivity | discriminate | exact IH | exact Hnat | lia].
  - discriminate.
  - rewrite json_dump_dict in *. cbn [length] in Hn. rewrite length_app in Hn.
    cbn [length] in Hn. destruct n as [|n]; [lia|].
    cbn [json_native] in Hnat. apply andb_true_iff in Hnat.
    destruct Hnat as [Hkeys Hnat]. cbn [app]. rewrite <- app_assoc. cbn [app].
    destruct d as [|[k x] d]; [reflexivity|].
    assert (E : exists ts, dump_members ((k, x) :: d) = TString k :: ts)
      by (destruct d as [|[? ?] ?]; eexists; reflexivity).
    destruct E as [ts E]. pose proof E as E'.
    apply (f_equal (fun l => l ++ TRBrace :: rest)) in E'. cbn [app] in E'.
    rewrite E'. rewrite parse_value_object. rewrite <- E'.
    rewrite parse_dump_members; [| discriminate | exact IH | exact Hnat | lia].
    unfold dict_of_members.
    rewrite dict_of_members_distinct; [reflexivity | exact Hkeys |].
    apply forallb_forall. reflexivity.
Qed.

Lemma json_load_dump (v : pyval) :
  json_native v = true -> json_load (json_dump v) = Ok v.
Proof.
  intros Hnat. unfold json_load.
  rewrite <- (app_nil_r (json_dump v)) at 2.
  rewrite (json_dump_reads_back v Hnat) by lia. reflexivity.
Qed.

(** ** Round trip of the region store *)

Lemma region_of_dict_to_py (r : region) : region_of_dict (region_to_py r) = r.
Proof. destruct r. reflexivity. Qed.

Lemma is_region_dict_to_py (r : region) : is_region_dict (region_to_py r) = true.
Proof. reflexivity. Qed.

Lemma normalize_items_regions (float_of_str : string -> result float)
    (rs : list region) :
  normalize_items float_of_str (PList (map region_to_py rs)) = Ok rs.
Proof.
  assert (H : Forall (fun v => is_region_dict v = true) (map region_to_py rs)).
  { apply Forall_forall. intros v Hv. apply in_map_iff in Hv.
    destruct Hv as (r & <- & _). apply is_region_dict_to_py. }
  cbn [normalize_items]. rewrite (flat_four_dicts _ H).
  rewrite (append_regions_dicts float_of_str _ [] H). cbn [app].
  rewrite map_map. f_equal. rewrite <- (map_id rs) at 2.
  apply map_ext. apply region_of_dict_to_py.
Qed.

Lemma normalize_entries_regions (float_of_str : string -> result float)
    (entries : list (string * list region)) (acc : list (string * pyval)) :
  distinct (map fst entries) = true ->
  forallb (fun k => negb (existsb (String.eqb k) (map fst acc)))
          (map fst entries) = true ->
  normalize_entries float_of_str acc (map entry_to_py entries) =
  Ok (acc ++ map entry_to_py entries).
Proof.
  revert acc. induction entries as [|[name rs] entries IH]; intros acc Hd Hacc.
  - cbn. now rewrite app_nil_r.
  - cbn [map fst distinct forallb] in Hd, Hacc.
    apply andb_true_iff in Hd. destruct Hd as [Hk Hd].
    apply andb_true_iff in Hacc. destruct Hacc as [Hka Hacc].
    apply negb_true_iff in Hk, Hka.
    cbn [map entry_to_py fst snd normalize_entries].
    rewrite normalize_items_regions. cbn [bind].
    rewrite dict_set_fresh by exact Hka.
    rewrite IH; [now rewrite <- app_assoc | exact Hd |].
    rewrite forallb_forall in Hacc |- *. intros k' Hin.
    rewrite map_app. cbn [map fst]. rewrite existsb_app_single.
    rewrite negb_orb. rewrite (Hacc k' Hin). cbn [andb].
    destruct (String.eqb_spec k' name) as [->|]; [|reflexivity].
    exfalso. rewrite <- not_true_iff_false in Hk. apply Hk.
    apply existsb_exists. exists name. split; [exact Hin | apply String.eqb_refl].
Qed.

Lemma json_native_entries (entries : list (string * list region)) :
  forallb (fun kv : string * pyval => json_native (snd kv))
          (map entry_to_py entries) = true.
Proof.
  apply forallb_forall. intros kv Hin. apply in_map_iff in Hin.
  destruct Hin as ([name rs] & <- & _). cbn [entry_to_py fst snd json_native].
  apply forallb_forall. intros v Hv. apply in_map_iff in Hv.
  destruct Hv as (r & <- & _). reflexivity.
Qed.

(** What does hold of the round trip: a mapping whose regions carry the
    four fractions and nothing else is read back as it was written. *)
Lemma load_save_fractions_only (float_of_str : string -> result float)
    (m : pyval) (f : file) :
  fractions_only m ->
  load_mappings float_of_str (save_mappings m f) = Ok m.
Proof.
  intros (entries & Hd & ->).
  rewrite save_mappings_complete. unfold load_mappings.
  rewrite json_load_dump.
  - cbn [bind normalize_loaded].
    rewrite normalize_entries_regions; [reflexivity | exact Hd |].
    apply forallb_forall. reflexivity.
  - cbn [json_native]. rewrite map_map. cbn [entry_to_py fst].
    rewrite json_native_entries.
    replace (map (fun x : string * list region => fst x) entries)
      with (map fst entries) by reflexivity.
    now rewrite Hd.
Qed.

(** ** From hotkey to tiling *)

(** Whatever the recorder held before, [record_and_action] classifies
    exactly the points moved during the recording, leaves the recorder
    empty, and without a matching gesture only prints. *)
Lemma record_and_action_sample (float_of_str : string -> result float)
    (mappings : list (string * pyval)) (moved : list Point)
    (recorder : Recorder.t) (os : win32) (log : list log_line) :
  fst (snd (record_and_action float_of_str mappings moved recorder (os, log))) =
    Recorder.init /\
  (classify moved = Ok None ->
   record_and_action float_of_str mappings moved recorder (os, log) =
     (Ok tt, (Recorder.init, (os, log ++ [InfoRecording; WarnNoGesture])))).
Proof.
  unfold record_and_action, classify. rewrite run_moves.
  cbn [fst Recorder.fetch Recorder.pts Recorder.clear app].
  destruct (first_match GESTURES moved) as [[name|]|e]; split;
    try discriminate; try reflexivity.
  - destruct (dict_get mappings name) as [[]|]; try reflexivity;
      match goal with
      | |- context [tile_window ?f ?c ?s] => destruct (tile_window f c s)
      end; reflexivity.
  - intros _. now rewrite <- app_assoc.
Qed.

(** ** Gestures under translation and reflection *)

Lemma detector_eval_map (f : Point -> Point) (pts : list Point) (k : nat) :
  nth k (map f pts) (f (0, 0)) = f (nth k pts (0, 0)).
Proof. apply map_nth. Qed.

Lemma make_L_detector_map (f : Point -> Point) (dy_sign dx_sign dy_sign' dx_sign' : Z)
    (pts : list Point) :
  (forall a b, snd (vsub (f a) (f b)) * dy_sign' = snd (vsub a b) * dy_sign) ->
  (forall a b, fst (vsub (f a) (f b)) * dx_sign' = fst (vsub a b) * dx_sign) ->
  (forall a b, Z.abs (snd (vsub (f a) (f b))) = Z.abs (snd (vsub a b))) ->
  (forall a b, Z.abs (fst (vsub (f a) (f b))) = Z.abs (fst (vsub a b))) ->
  make_L_detector dy_sign' dx_sign' (map f pts) = make_L_detector dy_sign dx_sign pts.
Proof.
  intros Hy Hx Hay Hax.
  destruct (le_lt_dec 6 (length pts)) as [Hn | Hn].
  - rewrite (make_L_detector_eval dy_sign dx_sign pts (0, 0) Hn).
    rewrite (make_L_detector_eval dy_sign' dx_sign' (map f pts) (f (0, 0)))
      by (rewrite length_map; exact Hn).
    cbv zeta. rewrite length_map, !detector_eval_map.
    now rewrite !Hy, !Hx, !Hay, !Hax.
  - rewrite !make_L_detector_short; [reflexivity | exact Hn |].
    now rewrite length_map.
Qed.

Lemma detect_V_shift (dx dy : Z) (pts : list Point) :
  detect_V (shift dx dy pts) = detect_V pts.
Proof.
  pose (f := fun p : Point => (fst p + dx, snd p + dy)).
  change (shift dx dy pts) with (map f pts).
  destruct (le_lt_dec 8 (length pts)) as [Hn | Hn].
  - rewrite (detect_V_eval pts (0, 0) Hn).
    rewrite (detect_V_eval (map f pts) (f (0, 0))) by (rewrite length_map; exact Hn).
    cbv zeta. rewrite length_map, !detector_eval_map.
    assert (E : forall a b, vsub (f a) (f b) = vsub a b).
    { intros a b. unfold vsub, f. cbn [fst snd]. f_equal; lia. }
    now rewrite !E.
  - rewrite !detect_V_short; [reflexivity | exact Hn |].
    now rewrite length_map.
Qed.

Lemma first_match_ext (gs : list (string * (list Point -> result bool)))
    (pts pts' : list Point) :
  Forall (fun g => snd g pts' = snd g pts) gs ->
  first_match gs pts' = first_match gs pts.
Proof.
  induction 1 as [|[name fn] gs Hg _ IH]; [reflexivity|].
  cbn [first_match]. cbn [snd] in Hg. now rewrite Hg, IH.
Qed.

(** X1: classification looks at displacements only: a sample drawn
    anywhere else on the desktop, point for point the same stroke, is
    classified the same. *)
Theorem classify_shift_invariant :
  forall dx dy pts, classify (shift dx dy pts) = classify pts.
Proof.
  intros dx dy pts. unfold classify. apply first_match_ext. unfold GESTURES.
  assert (HL : forall s t, make_L_detector s t (shift dx dy pts) = make_L_detector s t pts).
  { intros s t. unfold shift. apply make_L_detector_map;
      intros a b; unfold vsub; cbn [fst snd]; f_equal; lia. }
  repeat constructor; cbn [snd]; first [apply HL | apply detect_V_shift].
Qed.

(** X2: mirroring a sample top to bottom turns a downward L into the
    upward L of the same horizontal direction and back, and mirroring it
    left to right turns a rightward L into the leftward one. *)
Theorem L_detector_mirror :
  forall dy_sign dx_sign pts,
    make_L_detector dy_sign dx_sign (flip_vertical pts) =
      make_L_detector (- dy_sign) dx_sign pts /\
    make_L_detector dy_sign dx_sign (flip_horizontal pts) =
      make_L_detector dy_sign (- dx_sign) pts.
Proof.
  intros dy_sign dx_sign pts. split.
  - unfold flip_vertical. apply make_L_detector_map;
      intros a b; unfold vsub; cbn [fst snd]; try lia; f_equal; lia.
  - unfold flip_horizontal. apply make_L_detector_map;
      intros a b; unfold vsub; cbn [fst snd]; try lia; f_equal; lia.
Qed.

(** ** Gestures that cannot be confused, strokes that are too small *)

Ltac two_legs H1 H2 :=
  symmetry in H1; symmetry in H2;
  apply L_legs_reflect in H1; apply L_legs_reflect in H2;
  unfold MIN_STROKE in *; lia.

(** X3: a sample matches at most one of the four L gestures, so among
    them the order of evaluation never decides; only V_shape can match
    together with an L. *)
Theorem L_detectors_exclusive :
  forall pts, (length (filter is_L_name (matching pts)) <= 1)%nat.
Proof.
  intros pts. unfold matching, GESTURES. cbn [filter snd].
  destruct (le_lt_dec 6 (length pts)) as [Hn | Hn].
  - rewrite !(fun s t => make_L_detector_eval s t pts (0, 0) Hn). cbv zeta.
    set (v1 := vsub (nth (length pts / 2 - 1) pts (0, 0)) (nth 0 pts (0, 0))).
    set (v2 := vsub (nth (length pts - 1) pts (0, 0)) (nth (length pts / 2) pts (0, 0))).
    remember ((Z.abs (snd v1) >? Z.abs (fst v1)) && (snd v1 * 1 >? MIN_STROKE) &&
              (Z.abs (fst v2) >? Z.abs (snd v2)) && (fst v2 * 1 >? MIN_STROKE)) as b1 eqn:E1.
    remember ((Z.abs (snd v1) >? Z.abs (fst v1)) && (snd v1 * -1 >? MIN_STROKE) &&
              (Z.abs (fst v2) >? Z.abs (snd v2)) && (fst v2 * 1 >? MIN_STROKE)) as b2 eqn:E2.
    remember ((Z.abs (snd v1) >? Z.abs (fst v1)) && (snd v1 * 1 >? MIN_STROKE) &&
              (Z.abs (fst v2) >? Z.abs (snd v2)) && (fst v2 * -1 >? MIN_STROKE)) as b3 eqn:E3.
    remember ((Z.abs (snd v1) >? Z.abs (fst v1)) && (snd v1 * -1 >? MIN_STROKE) &&
              (Z.abs (fst v2) >? Z.abs (snd v2)) && (fst v2 * -1 >? MIN_STROKE)) as b4 eqn:E4.
    destruct b1, b2, b3, b4; destruct (detect_V pts) as [[|]|e]; cbn; try lia;
      first [ two_legs E1 E2 | two_legs E1 E3 | two_legs E1 E4
            | two_legs E2 E3 | two_legs E2 E4 | two_legs E3 E4 ].
  - rewrite !make_L_detector_short by exact Hn.
    destruct (detect_V pts) as [[|]|e]; cbn; lia.
Qed.

Lemma fold_max_bound (z : Z) (zs : list Z) (a : Z) :
  In a (z :: zs) -> a <= fold_right Z.max z zs.
Proof.
  induction zs as [|x zs IH]; cbn [fold_right].
  - intros [<-|[]]. lia.
  - intros [<-|[<-|H]].
    + assert (z <= fold_right Z.max z zs) by (apply IH; now left). lia.
    + lia.
    + assert (a <= fold_right Z.max z zs) by (apply IH; now right). lia.
Qed.

Lemma fold_min_bound (z : Z) (zs : list Z) (a : Z) :
  In a (z :: zs) -> fold_right Z.min z zs <= a.
Proof.
  induction zs as [|x zs IH]; cbn [fold_right].
  - intros [<-|[]]. lia.
  - intros [<-|[<-|H]].
    + assert (fold_right Z.min z zs <= z) by (apply IH; now left). lia.
    + lia.
    + assert (fold_right Z.min z zs <= a) by (apply IH; now right). lia.
Qed.

Lemma span_bound (zs : list Z) (a b : Z) :
  In a zs -> In b zs -> a - b <= span zs.
Proof.
  destruct zs as [|z zs]; [contradiction|]. intros Ha Hb. unfold span.
  pose proof (fold_max_bound z zs a Ha). pose proof (fold_min_bound z zs b Hb). lia.
Qed.

Lemma span_nth (f : Point -> Z) (pts : list Point) (i j : nat) :
  (i < length pts)%nat -> (j < length pts)%nat ->
  f (nth i pts (0, 0)) - f (nth j pts (0, 0)) <= span (map f pts).
Proof.
  intros Hi Hj. apply span_bound; apply in_map; apply nth_In; assumption.
Qed.

Lemma make_L_detector_small (dy_sign dx_sign : Z) (pts : list Point) :
  (dy_sign = 1 \/ dy_sign = -1) -> (dx_sign = 1 \/ dx_sign = -1) ->
  (length pts < 6)%nat \/ span (map snd pts) <= MIN_STROKE \/
  span (map fst pts) <= MIN_STROKE ->
  make_L_detector dy_sign dx_sign pts = Ok false.
Proof.
  intros Hdy Hdx Hsmall.
  destruct (le_lt_dec 6 (length pts)) as [Hn | Hn];
    [|now apply make_L_detector_short].
  destruct Hsmall as [Hs | Hs]; [lia|].
  rewrite (make_L_detector_eval dy_sign dx_sign pts (0, 0) Hn). cbv zeta.
  destruct (half_bounds _ Hn) as [Hq1 Hq2].
  remember (length pts / 2)%nat as q eqn:Eq. clear Eq.
  match goal with |- Ok ?b = _ => destruct b eqn:E end; [|reflexivity].
  exfalso. apply L_legs_reflect in E. destruct E as (_ & Hy & _ & Hx).
  unfold vsub in Hy, Hx. cbn [fst snd] in Hy, Hx.
  destruct Hs as [Hs | Hs].
  - pose proof (span_nth snd pts (q - 1) 0 ltac:(lia) ltac:(lia)).
    pose proof (span_nth snd pts 0 (q - 1) ltac:(lia) ltac:(lia)).
    unfold Point in *. destruct Hdy; subst dy_sign; lia.
  - pose proof (span_nth fst pts (length pts - 1) q ltac:(lia) ltac:(lia)).
    pose proof (span_nth fst pts q (length pts - 1) ltac:(lia) ltac:(lia)).
    unfold Point in *. destruct Hdx; subst dx_sign; lia.
Qed.

Lemma detect_V_small (pts : list Point) :
  (length pts < 6)%nat \/ span (map snd pts) <= MIN_STROKE \/
  span (map fst pts) <= MIN_STROKE ->
  detect_V pts = Ok false.
Proof.
  intros Hsmall.
  destruct (le_lt_dec 8 (length pts)) as [Hn | Hn]; [|now apply detect_V_short].
  destruct Hsmall as [Hs | Hs]; [lia|].
  rewrite (detect_V_eval pts (0, 0) Hn). cbv zeta.
  destruct (third_bounds _ Hn) as [Ht1 Ht2].
  remember (length pts / 3)%nat as t eqn:Et. clear Et.
  match goal with |- Ok ?b = _ => destruct b eqn:E end; [|reflexivity].
  exfalso. apply V_legs_reflect in E. destruct E as ([Hy Hx] & _).
  unfold vsub in Hy, Hx. cbn [fst snd] in Hy, Hx.
  destruct Hs as [Hs | Hs].
  - pose proof (span_nth snd pts t 0 ltac:(lia) ltac:(lia)).
    unfold Point in *. lia.
  - pose proof (span_nth fst pts t 0 ltac:(lia) ltac:(lia)).
    unfold Point in *. lia.
Qed.

(** X4: a recording of fewer than six points, or one that stays within
    [MIN_STROKE] pixels vertically, or within [MIN_STROKE] pixels
    horizontally, matches no gesture. *)
Theorem classify_rejects_small (pts : list Point)
    (Hsmall : (length pts < 6)%nat \/ span (map snd pts) <= MIN_STROKE \/
              span (map fst pts) <= MIN_STROKE) :
  classify pts = Ok None.
Proof.
  unfold classify. apply first_match_None. unfold GESTURES.
  repeat constructor; cbn [snd];
    first [ apply make_L_detector_small; auto | now apply detect_V_small ].
Qed.

Lemma classify_rejects_small_witness :
  classify [(0, 0); (100, 10); (200, 20); (300, 40); (400, 60);
            (500, 80); (600, 60); (700, 30); (800, 0)] = Ok None.
Proof.
  apply classify_rejects_small. right. left. vm_compute. discriminate.
Defined.

(** ** What the region store accepts and keeps *)

Lemma float_ok_is_number (v : pyval) : float_ok v = true -> is_number v = true.
Proof. destruct v; try discriminate; reflexivity. Qed.

(** X5: a list or tuple that starts with four numbers is read as one
    region, the four numbers converted to float in the order x, y, w, h
    and anything after them ignored; given as the value of a gesture or
    as [cfg], it stands for a list of that single region. *)
Theorem region_from_value_flat (float_of_str : string -> result float)
    (x y w h : pyval) (more : list pyval)
    (Hx : float_ok x = true) (Hy : float_ok y = true)
    (Hw : float_ok w = true) (Hh : float_ok h = true) :
  let r := mkRegion (as_float x) (as_float y) (as_float w) (as_float h) in
  region_from_value float_of_str (PList (x :: y :: w :: h :: more)) = Ok (Some r) /\
  region_from_value float_of_str (PTuple (x :: y :: w :: h :: more)) = Ok (Some r) /\
  normalize_items float_of_str (PList (x :: y :: w :: h :: more)) = Ok [r] /\
  regions_of_cfg float_of_str (PList (x :: y :: w :: h :: more)) = Ok [r].
Proof.
  intros r.
  assert (Hflat : flat_four (x :: y :: w :: h :: more) = true).
  { unfold flat_four. cbn [firstn forallb].
    rewrite !float_ok_is_number by assumption.
    unfold py_len. cbn [length andb]. rewrite andb_true_r.
    apply Z.geb_le. lia. }
  assert (Hr : forall l, l = x :: y :: w :: h :: more ->
                 (if flat_four l
                  then match firstn 4 l with
                       | [x; y; w; h] => region_of_four float_of_str x y w h
                       | _ => Raise ValueError
                       end
                  else Ok None) = Ok (Some r)).
  { intros l ->. rewrite Hflat. cbn [firstn]. unfold region_of_four.
    rewrite !py_float_ok by assumption. reflexivity. }
  assert (H1 : region_from_value float_of_str (PList (x :: y :: w :: h :: more)) =
               Ok (Some r)) by (apply Hr; reflexivity).
  split; [exact H1|]. split; [apply Hr; reflexivity|].
  unfold normalize_items, regions_of_cfg. rewrite Hflat.
  unfold append_region. rewrite H1. split; reflexivity.
Qed.

Lemma region_from_value_flat_witness :
  region_from_value no_text_floats
    (PList [PFloat 0.125; PFloat 0.25; PFloat 0.5; PFloat 0.5]) =
  Ok (Some (mkRegion 0.125 0.25 0.5 0.5)).
Proof.
  refine (proj1 (region_from_value_flat no_text_floats (PFloat 0.125) (PFloat 0.25)
                   (PFloat 0.5) (PFloat 0.5) [] _ _ _ _)); reflexivity.
Defined.

Lemma normalize_items_dicts (float_of_str : string -> result float)
    (rs : list pyval) :
  Forall (fun v => is_region_dict v = true) rs ->
  normalize_items float_of_str (PList rs) = Ok (map region_of_dict rs).
Proof.
  intros H. cbn [normalize_items]. rewrite (flat_four_dicts rs H).
  apply (append_regions_dicts float_of_str rs [] H).
Qed.

Lemma fresh_after_append (k : string) (acc : list (string * pyval))
    (x : string * pyval) (ks : list string) :
  negb (existsb (String.eqb (fst x)) ks) = true ->
  forallb (fun k => negb (existsb (String.eqb k) (map fst acc))) ks = true ->
  forallb (fun k => negb (existsb (String.eqb k) (map fst (acc ++ [x])))) ks = true.
Proof.
  intros Hx Hacc. rewrite forallb_forall in Hacc |- *. intros k' Hin.
  rewrite map_app. cbn [map]. rewrite existsb_app_single, negb_orb.
  rewrite (Hacc k' Hin). cbn [andb].
  destruct (String.eqb_spec k' (fst x)) as [->|]; [|reflexivity].
  exfalso. apply negb_true_iff in Hx. rewrite <- not_true_iff_false in Hx. apply Hx.
  apply existsb_exists. exists (fst x). split; [exact Hin | apply String.eqb_refl].
Qed.

Lemma normalize_entries_dicts (float_of_str : string -> result float)
    (entries : list (string * list pyval)) (acc : list (string * pyval)) :
  distinct (map fst entries) = true ->
  Forall (fun e => Forall (fun v => is_region_dict v = true) (snd e)) entries ->
  forallb (fun k => negb (existsb (String.eqb k) (map fst acc)))
          (map fst entries) = true ->
  normalize_entries float_of_str acc (map (fun e => (fst e, PList (snd e))) entries) =
  Ok (acc ++ map (fun e => (fst e, PList (map (fun v => region_to_py (region_of_dict v))
                                              (snd e)))) entries).
Proof.
  revert acc. induction entries as [|[name rs] entries IH]; intros acc Hd Hrs Hacc.
  - cbn. now rewrite app_nil_r.
  - cbn [map fst distinct forallb] in Hd, Hacc.
    apply andb_true_iff in Hd. destruct Hd as [Hk Hd].
    apply andb_true_iff in Hacc. destruct Hacc as [Hka Hacc].
    inversion Hrs as [|? ? Hr Hrs']; subst. cbn [snd] in Hr.
    cbn [map fst snd normalize_entries].
    rewrite (normalize_items_dicts float_of_str rs Hr). cbn [bind].
    rewrite dict_set_fresh by (now apply negb_true_iff).
    rewrite map_map.
    rewrite IH; [now rewrite <- app_assoc | exact Hd | exact Hrs' |].
    now apply (fresh_after_append name acc (name, _)).
Qed.

Lemma storable_parts (entries : list (string * list pyval)) :
  storable entries = true ->
  distinct (map fst entries) = true /\
  Forall (fun e => Forall (fun v => is_region_dict v = true) (snd e)) entries /\
  json_native (mapping_to_py entries) = true.
Proof.
  unfold storable. intros H. apply andb_true_iff in H. destruct H as [Hd Hall].
  rewrite forallb_forall in Hall. split; [exact Hd|]. split.
  - apply Forall_forall. intros e He. apply Forall_forall. intros v Hv.
    specialize (Hall e He). rewrite forallb_forall in Hall.
    specialize (Hall v Hv). now apply andb_true_iff in Hall.
  - unfold mapping_to_py. cbn [json_native]. rewrite map_map. cbn [fst].
    replace (map (fun x : string * list pyval => fst x) entries)
      with (map fst entries) by reflexivity.
    rewrite Hd. cbn [andb]. apply forallb_forall. intros kv Hkv.
    apply in_map_iff in Hkv. destruct Hkv as (e & <- & He). cbn [snd json_native].
    apply forallb_forall. intros v Hv.
    specialize (Hall e He). rewrite forallb_forall in Hall.
    specialize (Hall v Hv). now apply andb_true_iff in Hall.
Qed.

(** X6: saving a mapping of region records and loading it back keeps the
    gestures, their order, the order of their regions and the four
    fractions of each region, converted to float and defaulted where
    absent; every other key of a record, the monitor rectangle included,
    is gone. *)
Theorem load_save_keeps_fractions (float_of_str : string -> result float)
    (entries : list (string * list pyval)) (f : file)
    (Hst : storable entries = true) :
  load_mappings float_of_str (save_mappings (mapping_to_py entries) f) =
  Ok (fractions_of entries).
Proof.
  destruct (storable_parts entries Hst) as (Hd & Hrs & Hnat).
  rewrite save_mappings_complete. unfold load_mappings.
  rewrite (json_load_dump _ Hnat). cbn [bind]. unfold mapping_to_py, fractions_of.
  cbn [normalize_loaded].
  rewrite normalize_entries_dicts; [reflexivity | exact Hd | exact Hrs |].
  apply forallb_forall. reflexivity.
Qed.

Lemma load_save_keeps_fractions_witness :
  load_mappings no_text_floats
    (save_mappings
       (mapping_to_py [("L_down_right", [canonical_region 0 0 0.5 1 0 0 1920 1080]);
                       ("V_shape", [PDict [("w_frac", PInt 1)]; PDict []])])
       None) =
  Ok (PDict [("L_down_right", PList [region_to_py (mkRegion 0 0 0.5 1)]);
             ("V_shape", PList [region_to_py full_monitor; region_to_py full_monitor])]).
Proof.
  apply (load_save_keeps_fractions no_text_floats
           [("L_down_right", [canonical_region 0 0 0.5 1 0 0 1920 1080]);
            ("V_shape", [PDict [("w_frac", PInt 1)]; PDict []])] None).
  reflexivity.
Defined.

(** X7: a mapping whose regions carry the four float fractions and
    nothing else comes back from the file exactly as it was saved. *)
Theorem load_save_round_trip (float_of_str : string -> result float)
    (m : pyval) (f : file) (Hm : fractions_only m) :
  load_mappings float_of_str (save_mappings m f) = Ok m.
Proof. now apply load_save_fractions_only. Qed.

Lemma load_save_round_trip_witness :
  load_mappings no_text_floats
    (save_mappings (PDict [("V_shape", PList [region_to_py (mkRegion 0.5 0 0.5 1)])])
                   None) =
  Ok (PDict [("V_shape", PList [region_to_py (mkRegion 0.5 0 0.5 1)])]).
Proof.
  apply load_save_round_trip.
  exists [("V_shape", [mkRegion 0.5 0 0.5 1])]. split; reflexivity.
Defined.

Lemma dict_set_entry (entries : list (string * list region)) (name : string)
    (items : list region) :
  distinct (map fst entries) = true ->
  exists entries',
    dict_set (map entry_to_py entries) name (PList (map region_to_py items)) =
      map entry_to_py entries' /\
    distinct (map fst entries') = true /\
    forall k, existsb (String.eqb k) (map fst entries') =
              existsb (String.eqb k) (map fst entries) || String.eqb k name.
Proof.
  induction entries as [|[k rs] entries IH]; intros Hd.
  - exists [(name, items)]. repeat split. intros k. cbn. now rewrite orb_false_r.
  - cbn [map fst distinct] in Hd. apply andb_true_iff in Hd. destruct Hd as [Hk Hd].
    cbn [map entry_to_py fst snd dict_set].
    destruct (String.eqb_spec k name) as [->|Hne].
    + exists ((name, items) :: entries). split; [reflexivity|]. split.
      * cbn [map fst distinct]. now rewrite Hk, Hd.
      * intros k'. cbn [map fst existsb].
        destruct (String.eqb k' name); [now rewrite orb_true_r | now rewrite orb_false_r].
    + destruct (IH Hd) as (entries' & E & Hd' & Hkeys).
      exists ((k, rs) :: entries'). split; [|split].
      * cbn [map entry_to_py fst snd]. now rewrite E.
      * cbn [map fst distinct]. rewrite Hd', Hkeys.
        apply negb_true_iff in Hk. rewrite Hk. cbn [orb].
        now replace (String.eqb k name) with false
          by (symmetry; apply String.eqb_neq; exact Hne).
      * intros k'. cbn [map fst existsb]. rewrite Hkeys. now rewrite orb_assoc.
Qed.

Lemma normalize_entries_shape (float_of_str : string -> result float)
    (d : list (string * pyval)) :
  forall (entries : list (string * list region)) (out : list (string * pyval)),
    distinct (map fst entries) = true ->
    normalize_entries float_of_str (map entry_to_py entries) d = Ok out ->
    exists entries',
      out = map entry_to_py entries' /\ distinct (map fst entries') = true.
Proof.
  induction d as [|[name val] d IH]; intros entries out Hd E.
  - cbn in E. injection E as <-. now exists entries.
  - cbn [normalize_entries] in E.
    destruct (normalize_items float_of_str val) as [items|e]; [|discriminate].
    cbn [bind] in E.
    destruct (dict_set_entry entries name items Hd) as (entries1 & E1 & Hd1 & _).
    rewrite E1 in E. exact (IH entries1 out Hd1 E).
Qed.

(** X8: whatever [normalize_loaded] returns is a mapping from distinct
    gesture names to lists of four-float region records, and normalising
    it again changes nothing. *)
Theorem normalize_loaded_idempotent (float_of_str : string -> result float)
    (raw m : pyval) (Hm : normalize_loaded float_of_str raw = Ok m) :
  fractions_only m /\ normalize_loaded float_of_str m = Ok m.
Proof.
  assert (Hf : fractions_only m).
  { destruct raw as [| b | z | f | s | l | l | d];
      try (injection Hm as <-; exists []; split; reflexivity).
    cbn [normalize_loaded] in Hm.
    destruct (normalize_entries float_of_str [] d) as [out|e] eqn:E; [|discriminate].
    injection Hm as <-.
    destruct (normalize_entries_shape float_of_str d [] out eq_refl E)
      as (entries' & -> & Hd').
    now exists entries'. }
  split; [exact Hf|].
  destruct Hf as (entries & Hd & ->). cbn [normalize_loaded].
  rewrite normalize_entries_regions; [reflexivity | exact Hd |].
  apply forallb_forall. reflexivity.
Qed.

Lemma normalize_loaded_idempotent_witness :
  normalize_loaded no_text_floats
    (PDict [("V_shape", PList [region_to_py (mkRegion 0 0 0.5 1)])]) =
  Ok (PDict [("V_shape", PList [region_to_py (mkRegion 0 0 0.5 1)])]).
Proof.
  refine (proj2 (normalize_loaded_idempotent no_text_floats
                   (PDict [("V_shape", PList [PInt 0; PInt 0; PFloat 0.5; PInt 1])])
                   _ _)).
  reflexivity.
Defined.

(** ** The frame of the desktop *)

Lemma same_frame_refl (os : win32) : same_frame os os.
Proof. repeat split. Qed.

Lemma same_frame_trans (os1 os2 os3 : win32) :
  same_frame os1 os2 -> same_frame os2 os3 -> same_frame os1 os3.
Proof.
  intros (A1 & B1 & C1 & D1) (A2 & B2 & C2 & D2).
  repeat split; congruence.
Qed.

Lemma update_window_frame (h : Z) (f : window -> window) (os : win32) :
  (forall w, static (f w) = static w) ->
  same_frame os (update_window h f os).
Proof.
  intros Hf. repeat split. unfold update_window. cbn [windows].
  rewrite map_map. apply map_ext. intros w.
  destruct (hwnd w =? h); [apply Hf | reflexivity].
Qed.

Lemma find_window_update_other (h : Z) (f : window -> window) (os : win32) (h' : Z) :
  (forall w, hwnd (f w) = hwnd w) -> h' <> h ->
  find_window (update_window h f os) h' = find_window os h'.
Proof.
  intros Hf Hne. rewrite find_window_update by exact Hf.
  destruct (find_window os h') as [w|] eqn:E; [|reflexivity]. cbn [option_map].
  apply find_window_hwnd in E.
  now replace (hwnd w =? h) with false by (symmetry; apply Z.eqb_neq; lia).
Qed.

Lemma ShowWindow_frame (os os' : win32) (h : Z) :
  ShowWindow os h = Ok os' ->
  same_frame os os' /\ forall h', h' <> h -> find_window os' h' = find_window os h'.
Proof.
  unfold ShowWindow. destruct (find_window os h) as [w|]; [|discriminate].
  destruct (show_raises w); [discriminate|]. intros E. injection E as <-. split.
  - now apply update_window_frame.
  - intros h' Hne. now apply find_window_update_other.
Qed.

Lemma MoveWindow_frame (os os' : win32) (h x y wd ht : Z) :
  MoveWindow os h x y wd ht = Ok os' ->
  same_frame os os' /\ forall h', h' <> h -> find_window os' h' = find_window os h'.
Proof.
  unfold MoveWindow. destruct (find_window os h) as [w|]; [|discriminate].
  destruct (move_raises w); [discriminate|]. intros E. injection E as <-. split.
  - now apply update_window_frame.
  - intros h' Hne. now apply find_window_update_other.
Qed.

Lemma try_place_frame (i : Z) (r : region) (h : Z) (p : Z * Z * Z * Z)
    (os : win32) (log : list log_line) :
  same_frame os (fst (try_place i r h p (os, log))) /\
  (forall h', h' <> h ->
     find_window (fst (try_place i r h p (os, log))) h' = find_window os h') /\
  exists line, snd (try_place i r h p (os, log)) = log ++ [line].
Proof.
  destruct p as [[[x y] wd] ht]. unfold try_place.
  destruct (ShowWindow os h) as [os1|e] eqn:E1.
  2: { cbn. split; [apply same_frame_refl|]. split; [reflexivity | eauto]. }
  destruct (ShowWindow_frame _ _ _ E1) as [F1 O1].
  destruct (MoveWindow os1 h x y wd ht) as [os2|e] eqn:E2.
  2: { cbn. split; [exact F1|]. split; [exact O1 | eauto]. }
  destruct (MoveWindow_frame _ _ _ _ _ _ _ E2) as [F2 O2]. cbn.
  split; [exact (same_frame_trans _ _ _ F1 F2)|].
  split; [|eauto]. intros h' Hne. now rewrite O2, O1.
Qed.

Lemma tile_one_frame (i : Z) (r : region) (h : Z) (os : win32) (log : list log_line) :
  let st' := snd (tile_one i r h (os, log)) in
  same_frame os (fst st') /\
  (forall h', h' <> h -> find_window (fst st') h' = find_window os h') /\
  exists lines, snd st' = log ++ lines.
Proof.
  unfold tile_one. cbn [fst]. destruct (pixel_rect os r) as [p|e]; cbn [snd].
  - destruct (try_place_frame i r h p os log) as (F & O & line & E).
    split; [exact F|]. split; [exact O|]. now exists [line].
  - split; [apply same_frame_refl|]. split; [reflexivity|].
    exists []. cbn. now rewrite app_nil_r.
Qed.

Lemma py_item_In {A : Type} (l : list A) (i : Z) (a : A) :
  py_item l i = Ok a -> In a l.
Proof.
  unfold py_item. destruct (_ && _); [|discriminate].
  destruct (nth_error l _) as [b|] eqn:E; [|discriminate].
  intros H. injection H as <-. now apply nth_error_In in E.
Qed.

Lemma pixel_rect_same_frame (A B : win32) (r : region) :
  same_frame A B -> pixel_rect B r = pixel_rect A r.
Proof. intros (_ & _ & W & H). unfold pixel_rect. now rewrite W, H. Qed.

(** ** The focused window comes first *)

Lemma remove_first_absent (x : Z) (l : list Z) :
  ~ In x l -> remove_first x l = l.
Proof.
  induction l as [|y l IH]; intros Hn; [reflexivity|]. cbn [remove_first].
  destruct (y =? x) eqn:E.
  - apply Z.eqb_eq in E. subst. exfalso. apply Hn. now left.
  - rewrite IH; [reflexivity|]. intros H. apply Hn. now right.
Qed.

Lemma filter_absent (x : Z) (l : list Z) :
  ~ In x l -> filter (fun h => negb (h =? x)) l = l.
Proof.
  induction l as [|y l IH]; intros Hn; [reflexivity|]. cbn [filter].
  destruct (y =? x) eqn:E.
  - apply Z.eqb_eq in E. subst. exfalso. apply Hn. now left.
  - cbn [negb]. rewrite IH; [reflexivity|]. intros H. apply Hn. now right.
Qed.

Lemma remove_first_filter (x : Z) (l : list Z) :
  NoDup l -> remove_first x l = filter (fun h => negb (h =? x)) l.
Proof.
  induction l as [|y l IH]; intros Hnd; [reflexivity|].
  inversion Hnd as [|? ? Hy Hl]; subst. cbn [remove_first filter].
  destruct (y =? x) eqn:E; cbn [negb].
  - apply Z.eqb_eq in E. subst. now rewrite filter_absent.
  - now rewrite IH.
Qed.

Lemma focus_first_closed (x : Z) (l : list Z) :
  NoDup l ->
  focus_first x l =
  if existsb (Z.eqb x) l then x :: filter (fun h => negb (h =? x)) l else l.
Proof.
  intros Hnd. unfold focus_first. destruct (existsb (Z.eqb x) l); [|reflexivity].
  now rewrite remove_first_filter.
Qed.

(** X11: with distinct window handles and a foreground window that is
    tilable, [tile_window] gives the first region to the foreground
    window, wherever it stands in the Z-order, and region number [k + 2]
    to the [k]-th of the other tilable windows, taken in Z-order; a window
    whose calls raise keeps its placement. *)
Theorem tile_window_focused_first
    (float_of_str : string -> result float) (os : win32)
    (log : list log_line) (v : pyval) (rs : list pyval)
    (Hrs : Forall (fun v => is_region_dict v = true) (v :: rs))
    (Hpx : Forall (fun v => placeable os (region_of_dict v) = true) (v :: rs))
    (Hnd : NoDup (map hwnd (windows os)))
    (Hfg : In (foreground os) (enum_tilable_windows os)) :
  exists os',
    fst (tile_window float_of_str (PList (v :: rs)) (os, log)) = Ok tt /\
    fst (snd (tile_window float_of_str (PList (v :: rs)) (os, log))) = os' /\
    placement_of os' (foreground os) =
      (if faulty os (foreground os) then placement_of os (foreground os)
       else planned os (region_of_dict v)) /\
    forall k r h,
      nth_error (map region_of_dict rs) k = Some r ->
      nth_error (background_windows os) k = Some h ->
      placement_of os' h =
      if faulty os h then placement_of os h else planned os r.
Proof.
  destruct (tile_window_run float_of_str os log (v :: rs) Hrs Hpx)
    as (os' & E & _ & Hs).
  specialize (Hs Hnd).
  assert (Hc : focus_first (foreground os) (enum_tilable_windows os) =
               foreground os :: background_windows os).
  { rewrite focus_first_closed by now apply enum_tilable_windows_NoDup.
    replace (existsb (Z.eqb (foreground os)) (enum_tilable_windows os)) with true;
      [reflexivity|].
    symmetry. apply existsb_exists. exists (foreground os). split; [exact Hfg|].
    apply Z.eqb_refl. }
  rewrite Hc in Hs.
  exists os'. rewrite E. cbn [fst snd]. split; [reflexivity|]. split; [reflexivity|].
  split.
  - apply (Hs 0%nat); reflexivity.
  - intros k r h Hr Hh. apply (Hs (S k)); assumption.
Qed.

(** Three windows in Z-order 101, 102, 103 with 102 focused: 102 takes
    the first quarter, 101 the second and 103 the third. *)
Lemma tile_window_focused_first_witness :
  exists os',
    fst (snd (tile_window no_text_floats three_regions_cfg
                (desktop_of_three false, []))) = os' /\
    map (placement_of os') [102; 101; 103] =
      [Some (0, 0, 480, 1080); Some (480, 0, 480, 1080); Some (960, 0, 480, 1080)].
Proof.
  destruct (tile_window_focused_first no_text_floats (desktop_of_three false) []
              (third 0) [third 1; third 2]) as (os' & _ & E & H0 & H).
  - repeat constructor.
  - repeat constructor.
  - repeat constructor; cbn; intuition discriminate.
  - vm_compute. right. left. reflexivity.
  - exists os'. split; [exact E|].
    pose proof (H 0%nat _ 101 eq_refl eq_refl) as H1.
    pose proof (H 1%nat _ 103 eq_refl eq_refl) as H2.
    cbn [map].
    change (foreground (desktop_of_three false)) with 102 in H0.
    rewrite H0, H1, H2. reflexivity.
Defined.

(** ** The two definitions of [tile_window] on one monitor *)

Lemma monitor_static (w w' : window) : static w' = static w -> monitor w' = monitor w.
Proof. unfold static. congruence. Qed.

Lemma monitors_same_frame (ws ws' : list window) (m : rect) :
  map static ws' = map static ws ->
  Forall (fun w => monitor w = m) ws -> Forall (fun w => monitor w = m) ws'.
Proof.
  revert ws'. induction ws as [|w ws IH]; intros [|w' ws'] Hs Hf; try discriminate;
    [constructor|].
  cbn [map] in Hs.
  assert (Hw : static w' = static w) by congruence.
  assert (Ht : map static ws' = map static ws) by congruence.
  inversion Hf as [|? ? Hm Hf']; subst. constructor.
  - now rewrite (monitor_static _ _ Hw).
  - now apply IH.
Qed.

Lemma single_monitor_frame (os os' : win32) :
  same_frame os os' -> single_monitor os -> single_monitor os'.
Proof.
  intros (Hs & _ & Hw & Hh) (W & H & Hf). unfold single_monitor.
  rewrite Hw, Hh. split; [exact W|]. split; [exact H|].
  now apply (monitors_same_frame (windows os)).
Qed.

Lemma single_monitor_rect (os : win32) (h : Z) :
  single_monitor os ->
  get_monitor_rect_for_window os h = (0, 0, SCREEN_W os, SCREEN_H os).
Proof.
  intros (_ & _ & Hf). unfold get_monitor_rect_for_window, find_window.
  destruct (find _ (windows os)) as [w|] eqn:E; [|reflexivity].
  apply find_some in E. rewrite Forall_forall in Hf. now apply Hf.
Qed.

Lemma roomy_frame (os os' : win32) (r : region) :
  same_frame os os' -> roomy os' r = roomy os r.
Proof. intros F. unfold roomy. now rewrite (pixel_rect_same_frame os os' r F). Qed.

Lemma Shadowed_pixel_rect_primary (os : win32) (r : region) :
  roomy os r = true ->
  Shadowed.pixel_rect (0, 0, SCREEN_W os, SCREEN_H os) r = pixel_rect os r.
Proof.
  unfold roomy, Shadowed.pixel_rect, pixel_rect. rewrite !Z.sub_0_r.
  destruct (scale (SCREEN_W os) (x_frac r)) as [x|e]; [|reflexivity].
  destruct (scale (SCREEN_H os) (y_frac r)) as [y|e]; [|reflexivity].
  destruct (scale (SCREEN_W os) (w_frac r)) as [wd|e]; [|reflexivity].
  destruct (scale (SCREEN_H os) (h_frac r)) as [ht|e]; [|reflexivity].
  cbn [bind]. intros H. apply andb_prop in H. destruct H as [Hw Hh].
  apply Z.leb_le in Hw, Hh. now rewrite !Z.add_0_l, !Z.max_r by assumption.
Qed.

Lemma Shadowed_tile_one_primary (i : Z) (r : region) (h : Z) (os : win32)
    (log : list log_line) :
  single_monitor os -> roomy os r = true ->
  Shadowed.tile_one i r h (os, log) = tile_one i r h (os, log).
Proof.
  intros Hs Hr. unfold Shadowed.tile_one, tile_one. cbn [fst snd].
  rewrite (single_monitor_rect os h Hs). destruct Hs as (W & H & _).
  rewrite !Z.sub_0_r.
  replace (SCREEN_W os <=? 0) with false by (symmetry; apply Z.leb_gt; lia).
  replace (SCREEN_H os <=? 0) with false by (symmetry; apply Z.leb_gt; lia).
  cbn [orb]. now rewrite (Shadowed_pixel_rect_primary os r Hr).
Qed.

Lemma Shadowed_tile_loop_primary (count : nat) :
  forall (i : Z) (regions : list region) (candidates : list Z)
         (os : win32) (log : list log_line),
    single_monitor os -> Forall (fun r => roomy os r = true) regions ->
    Shadowed.tile_loop count i regions candidates (os, log) =
    tile_loop count i regions candidates (os, log).
Proof.
  induction count as [|count IH]; intros i regions candidates os log Hs Hr;
    cbn [Shadowed.tile_loop tile_loop]; [reflexivity|].
  destruct (py_item regions i) as [r|e] eqn:Er; [|reflexivity].
  destruct (py_item candidates i) as [h|e]; [|reflexivity].
  assert (Hrr : roomy os r = true).
  { apply py_item_In in Er. rewrite Forall_forall in Hr. now apply Hr. }
  rewrite (Shadowed_tile_one_primary i r h os log Hs Hrr).
  destruct (tile_one_frame i r h os log) as (F & _).
  destruct (tile_one i r h (os, log)) as [[u|e] [os1 log1]]; [|reflexivity].
  cbn [fst snd] in F. apply IH.
  - now apply (single_monitor_frame os).
  - rewrite Forall_forall in *. intros r' Hin. rewrite (roomy_frame os os1 r' F).
    now apply Hr.
Qed.

(** X12: on a desktop with one monitor, and a mapping none of whose
    regions is narrower or lower than one pixel, the definition of
    [tile_window] that the module ends up with and the monitor-aware
    definition that it replaces return the same outcome and leave the
    same desktop. *)
Theorem tile_window_definitions_agree
    (float_of_str : string -> result float) (cfg : pyval) (os : win32)
    (log : list log_line)
    (Hs : single_monitor os)
    (Hr : forall regions, regions_of_cfg float_of_str cfg = Ok regions ->
                          Forall (fun r => roomy os r = true) regions) :
  fst (Shadowed.tile_window float_of_str cfg (os, log)) =
    fst (tile_window float_of_str cfg (os, log)) /\
  fst (snd (Shadowed.tile_window float_of_str cfg (os, log))) =
    fst (snd (tile_window float_of_str cfg (os, log))).
Proof.
  unfold Shadowed.tile_window, tile_window.
  destruct (regions_of_cfg float_of_str cfg) as [regions|e]; [|split; reflexivity].
  specialize (Hr regions eq_refl).
  destruct regions as [|r0 regions]; [split; reflexivity|].
  destruct (enum_tilable_windows os) as [|c0 cs]; [split; reflexivity|].
  cbv zeta. rewrite (Shadowed_tile_loop_primary _ _ _ _ os log Hs Hr).
  match goal with
  | |- context [tile_loop ?n ?i ?rs ?cs ?st] =>
      destruct (tile_loop n i rs cs st) as [[u|e] [os' log']]
  end; split; reflexivity.
Qed.

(** Three windows on the only monitor, three quarter-width regions: both
    definitions put window 102 on the first quarter. *)
Lemma tile_window_definitions_agree_witness :
  placement_of
    (fst (snd (Shadowed.tile_window no_text_floats three_regions_cfg
                 (desktop_of_three false, [])))) 102 = Some (0, 0, 480, 1080) /\
  fst (snd (Shadowed.tile_window no_text_floats three_regions_cfg
              (desktop_of_three false, []))) =
  fst (snd (tile_window no_text_floats three_regions_cfg
              (desktop_of_three false, []))).
Proof.
  split; [vm_compute; reflexivity|].
  apply (tile_window_definitions_agree no_text_floats three_regions_cfg
           (desktop_of_three false) []).
  - split; [reflexivity|]. split; [reflexivity|]. repeat constructor.
  - intros regions E. vm_compute in E. injection E as <-. repeat constructor.
Defined.

(** ** Region frames *)

Import ResizableFrame.

Lemma hit_edges_one_sided (w h : Z) (p : Point) :
  MIN_WIDTH <= w -> MIN_HEIGHT <= h -> one_sided (hit_edges w h p) = true.
Proof.
  intros Hw Hh. destruct p as [lx ly]. unfold one_sided, hit_edges.
  cbn [e_left e_right e_top e_bottom]. unfold MIN_WIDTH, MIN_HEIGHT, EDGE_MARGIN in *.
  apply andb_true_intro. split; apply negb_true_iff, andb_false_iff.
  - destruct (Z.leb_spec lx 10); [right; rewrite Z.geb_leb; apply Z.leb_gt; lia | now left].
  - destruct (Z.leb_spec ly 10); [right; rewrite Z.geb_leb; apply Z.leb_gt; lia | now left].
Qed.

Lemma resized_size (e : edges) (g : QRect) (dx dy : Z) :
  MIN_WIDTH <= qwidth (resized e g dx dy) /\
  MIN_HEIGHT <= qheight (resized e g dx dy).
Proof. unfold resized. cbn [qwidth qheight]. split; apply Z.le_max_l. Qed.

(** What every reachable frame satisfies. *)
Lemma handle_sound (e : event) (s : t) :
  MIN_WIDTH <= qwidth (geometry s) -> MIN_HEIGHT <= qheight (geometry s) ->
  one_sided (_resize_edges s) = true ->
  (_start_mouse s <> None -> _start_geom s <> None) ->
  exists s',
    handle e s = Done s' /\
    MIN_WIDTH <= qwidth (geometry s') /\ MIN_HEIGHT <= qheight (geometry s') /\
    one_sided (_resize_edges s') = true /\
    (_start_mouse s' <> None -> _start_geom s' <> None).
Proof.
  intros Hw Hh He Hst. destruct s as [g d r re sg sm c].
  cbn [geometry _resize_edges _start_mouse _start_geom] in Hw, Hh, He, Hst.
  destruct e as [ev|ev|]; cbn [handle].
  - eexists. split; [reflexivity|]. unfold mousePressEvent. cbn [geometry].
    destruct (any_edge _).
    + cbn [geometry _resize_edges _start_mouse _start_geom].
      split; [exact Hw|]. split; [exact Hh|].
      split; [now apply hit_edges_one_sided | discriminate].
    + destruct (left_button ev);
        cbn [geometry _resize_edges _start_mouse _start_geom _resizing];
        (split; [exact Hw|]; split; [exact Hh|]; split; [exact He|]);
        [discriminate | exact Hst].
  - unfold mouseMoveEvent.
    cbn [_dragging _resizing _start_mouse _start_geom _resize_edges setCursor
         geometry cursor].
    destruct d, r; cbn [negb andb orb];
      cbn [_dragging _resizing _start_mouse _start_geom _resize_edges setCursor
           geometry cursor];
      destruct sm as [start|];
      try (eexists; split; [reflexivity|];
           cbn [geometry _resize_edges _start_mouse _start_geom];
           repeat split; assumption);
      (destruct sg as [geom|]; [|exfalso; now apply Hst]);
      eexists; (split; [reflexivity|]);
      cbn [move setGeometry geometry _resize_edges _start_mouse _start_geom
           _dragging _resizing cursor qwidth qheight];
      (split; [first [exact Hw | apply resized_size]|];
       split; [first [exact Hh | apply resized_size]|];
       split; [exact He | discriminate]).
  - eexists. split; [reflexivity|]. unfold mouseReleaseEvent.
    cbn [geometry _resize_edges _start_mouse _start_geom].
    split; [exact Hw|]. split; [exact Hh|]. split; [reflexivity|].
    intros H. now contradiction H.
Qed.

(** X13: a region frame that starts at least [MIN_WIDTH] wide and
    [MIN_HEIGHT] high stays so under every sequence of presses, moves and
    releases of the mouse; no handler raises, and a press never grabs two
    opposite edges at once. *)
Theorem frame_keeps_minimum_size (es : list event) (g : QRect)
    (Hw : MIN_WIDTH <= qwidth g) (Hh : MIN_HEIGHT <= qheight g) :
  exists s,
    run es (init g) = Done s /\
    MIN_WIDTH <= qwidth (geometry s) /\ MIN_HEIGHT <= qheight (geometry s) /\
    one_sided (_resize_edges s) = true.
Proof.
  assert (H : forall s,
             MIN_WIDTH <= qwidth (geometry s) -> MIN_HEIGHT <= qheight (geometry s) ->
             one_sided (_resize_edges s) = true ->
             (_start_mouse s <> None -> _start_geom s <> None) ->
             exists s',
               run es s = Done s' /\
               MIN_WIDTH <= qwidth (geometry s') /\
               MIN_HEIGHT <= qheight (geometry s') /\
               one_sided (_resize_edges s') = true).
  { induction es as [|e es IH]; intros s H1 H2 H3 H4.
    - exists s. repeat split; assumption.
    - destruct (handle_sound e s H1 H2 H3 H4) as (s1 & E & K1 & K2 & K3 & K4).
      cbn [run]. rewrite E. now apply IH. }
  apply H; cbn; try assumption; [reflexivity | intros K; now contradiction K].
Qed.

(** A frame 200 by 100 whose left edge is pushed 180 pixels to the right
    ends 40 wide. *)
Lemma frame_keeps_minimum_size_witness :
  exists s,
    run [Press (mkMouseEvent (3, 50) (103, 150) true);
         Move (mkMouseEvent (3, 50) (283, 150) true); Release]
        (init (mkQRect 100 100 200 100)) = Done s /\
    geometry s = mkQRect 280 100 40 100.
Proof.
  destruct (frame_keeps_minimum_size
              [Press (mkMouseEvent (3, 50) (103, 150) true);
               Move (mkMouseEvent (3, 50) (283, 150) true); Release]
              (mkQRect 100 100 200 100)) as (s & E & _).
  - unfold MIN_WIDTH. cbn. lia.
  - unfold MIN_HEIGHT. cbn. lia.
  - exists s. split; [exact E|]. vm_compute in E. injection E as <-. reflexivity.
Defined.

Lemma move_absorbed (m1 m2 : mouse_event) (s : t) :
  run [Move m1; Move m2] s = run [Move m2] s.
Proof.
  destruct s as [g d r re sg sm c]. cbn [run handle]. unfold mouseMoveEvent.
  cbn [_dragging _resizing _start_mouse _start_geom _resize_edges setCursor
       geometry cursor].
  destruct d, r; cbn [negb andb orb];
    cbn [_dragging _resizing _start_mouse _start_geom _resize_edges setCursor
         geometry cursor];
    destruct sm as [start|]; try destruct sg as [geom|]; reflexivity.
Qed.

Lemma frame_run_app (es1 es2 : list event) (s : t) :
  run (es1 ++ es2) s =
  match run es1 s with
  | Done s1 => run es2 s1
  | AttributeError => AttributeError
  end.
Proof.
  revert s. induction es1 as [|e es1 IH]; intros s; [reflexivity|].
  cbn [app run]. destruct (handle e s); [apply IH | reflexivity].
Qed.

Lemma moves_absorbed (ms : list mouse_event) (m : mouse_event) (s : t) :
  run (map Move ms ++ [Move m]) s = run [Move m] s.
Proof.
  revert s. induction ms as [|m1 ms IH]; intros s; [reflexivity|].
  cbn [map app].
  change (run (Move m1 :: map Move ms ++ [Move m]) s)
    with (match handle (Move m1) s with
          | Done s1 => run (map Move ms ++ [Move m]) s1
          | AttributeError => AttributeError
          end).
  rewrite <- (move_absorbed m1 m s).
  change (run [Move m1; Move m] s)
    with (match handle (Move m1) s with
          | Done s1 => run [Move m] s1
          | AttributeError => AttributeError
          end).
  destruct (handle (Move m1) s) as [s1|]; [apply IH | reflexivity].
Qed.

(** X14: between two other events only the last position of the pointer
    counts: a run of mouse moves leaves the frame, whether it is idle,
    dragged or resized, as its last move alone would, and raises exactly
    when that move alone would. *)
Theorem moves_depend_on_last (ms : list mouse_event) (m : mouse_event) (s : t) :
  run (map Move ms ++ [Move m]) s = run [Move m] s.
Proof. apply moves_absorbed. Qed.

(** X15: a press on an edge followed by a move resizes the frame from
    the geometry it had at the press. With the left edge grabbed, the
    right edge stays where it was exactly when the new width is not below
    [MIN_WIDTH]; with the right edge grabbed, the left edge stays where it
    was exactly when the pointer has not crossed it; likewise for top and
    bottom. *)
Theorem resize_anchors_opposite_edge (g : QRect) (p m : mouse_event)
    (Hw : MIN_WIDTH <= qwidth g) (Hh : MIN_HEIGHT <= qheight g)
    (Hedge : any_edge (hit_edges (qwidth g) (qheight g) (local_pt p)) = true) :
  let e := hit_edges (qwidth g) (qheight g) (local_pt p) in
  let dx := fst (gp m) - fst (gp p) in
  let dy := snd (gp m) - snd (gp p) in
  exists s,
    run [Press p; Move m] (init g) = Done s /\
    geometry s = resized e g dx dy /\
    (e_left e = true ->
     (qright (geometry s) = qright g <-> MIN_WIDTH <= qwidth g - dx)) /\
    (e_right e = true ->
     (qleft (geometry s) = qleft g <-> 0 < qwidth g + dx)) /\
    (e_top e = true ->
     (qbottom (geometry s) = qbottom g <-> MIN_HEIGHT <= qheight g - dy)) /\
    (e_bottom e = true ->
     (qtop (geometry s) = qtop g <-> 0 < qheight g + dy)) /\
    (e_left e = false -> e_right e = false ->
     qleft (geometry s) = qleft g /\ qwidth (geometry s) = qwidth g) /\
    (e_top e = false -> e_bottom e = false ->
     qtop (geometry s) = qtop g /\ qheight (geometry s) = qheight g).
Proof.
  intros e dx dy.
  pose proof (hit_edges_one_sided (qwidth g) (qheight g) (local_pt p) Hw Hh) as Hone.
  fold e in Hone, Hedge.
  exists (mk (resized e g dx dy) false true e (Some g) (Some (gp p))
             (_cursor_for_edges_static e)).
  split.
  { cbn [run handle]. unfold mousePressEvent, init. cbn [geometry].
    fold e. rewrite Hedge. unfold mouseMoveEvent.
    cbn [_dragging _resizing _start_mouse _start_geom _resize_edges negb andb orb
         setGeometry geometry cursor]. reflexivity. }
  cbn [geometry]. split; [reflexivity|].
  unfold one_sided in Hone. apply andb_prop in Hone. destruct Hone as [Hx Hy].
  apply negb_true_iff in Hx, Hy.
  unfold resized, qright, qleft, qbottom, qtop, MIN_WIDTH, MIN_HEIGHT in *.
  cbn [qx qy qwidth qheight].
  clearbody e dx dy. clear Hedge. destruct e as [el er et eb].
  cbn [e_left e_right e_top e_bottom] in *.
  destruct el, er; try discriminate Hx; destruct et, eb; try discriminate Hy;
    repeat split; intros; try discriminate; lia.
Qed.

(** A frame 200 by 100 grabbed by its left edge: pulled 50 pixels to the
    left it keeps its right edge, pushed 180 pixels to the right it does
    not. *)
Lemma resize_anchors_opposite_edge_witness :
  (exists s,
     run [Press (mkMouseEvent (3, 50) (103, 150) true);
          Move (mkMouseEvent (3, 50) (53, 150) true)]
         (init (mkQRect 100 100 200 100)) = Done s /\
     geometry s = mkQRect 50 100 250 100 /\ qright (geometry s) = 299) /\
  (exists s,
     run [Press (mkMouseEvent (3, 50) (103, 150) true);
          Move (mkMouseEvent (3, 50) (283, 150) true)]
         (init (mkQRect 100 100 200 100)) = Done s /\
     geometry s = mkQRect 280 100 40 100 /\ qright (geometry s) <> 299).
Proof.
  split.
  - destruct (resize_anchors_opposite_edge (mkQRect 100 100 200 100)
                (mkMouseEvent (3, 50) (103, 150) true)
                (mkMouseEvent (3, 50) (53, 150) true))
      as (s & E & G & L & _).
    + unfold MIN_WIDTH. cbn. lia.
    + unfold MIN_HEIGHT. cbn. lia.
    + reflexivity.
    + exists s. split; [exact E|]. split; [exact G|].
      apply (proj2 (L eq_refl)). unfold MIN_WIDTH. cbn. lia.
  - destruct (resize_anchors_opposite_edge (mkQRect 100 100 200 100)
                (mkMouseEvent (3, 50) (103, 150) true)
                (mkMouseEvent (3, 50) (283, 150) true))
      as (s & E & G & L & _).
    + unfold MIN_WIDTH. cbn. lia.
    + unfold MIN_HEIGHT. cbn. lia.
    + reflexivity.
    + exists s. split; [exact E|]. split; [exact G|].
      intros K. apply (proj1 (L eq_refl)) in K. unfold MIN_WIDTH in K. cbn in K. lia.
Defined.

(** X16: a press with the left button inside a frame, away from its
    edges, then any moves, then the release: the frame has moved by the
    way of the pointer between the press and the last move, has kept its
    size, and is idle again. *)
Theorem drag_translates_frame (g : QRect) (p : mouse_event)
    (ms : list mouse_event) (m : mouse_event)
    (Hin : any_edge (hit_edges (qwidth g) (qheight g) (local_pt p)) = false)
    (Hbtn : left_button p = true) :
  run (Press p :: map Move ms ++ [Move m; Release]) (init g) =
  Done (mk (mkQRect (qx g + (fst (gp m) - fst (gp p)))
                    (qy g + (snd (gp m) - snd (gp p)))
                    (qwidth g) (qheight g))
           false false no_edges None None SizeAllCursor).
Proof.
  change (map Move ms ++ [Move m; Release])
    with (map Move ms ++ [Move m] ++ [Release]).
  rewrite app_assoc.
  change (run (Press p :: (map Move ms ++ [Move m]) ++ [Release]) (init g))
    with (run ((map Move ms ++ [Move m]) ++ [Release]) (mousePressEvent p (init g))).
  rewrite frame_run_app, moves_absorbed.
  unfold mousePressEvent, init. cbn [geometry]. rewrite Hin, Hbtn.
  reflexivity.
Qed.

(** A frame at (100, 100) dragged from (200, 150) by way of (500, 500)
    to (230, 140) ends at (130, 90). *)
Lemma drag_translates_frame_witness :
  run [Press (mkMouseEvent (100, 50) (200, 150) true);
       Move (mkMouseEvent (400, 400) (500, 500) true);
       Move (mkMouseEvent (100, 50) (230, 140) true); Release]
      (init (mkQRect 100 100 200 100)) =
  Done (mk (mkQRect 130 90 200 100) false false no_edges None None SizeAllCursor).
Proof.
  apply (drag_translates_frame (mkQRect 100 100 200 100)
           (mkMouseEvent (100, 50) (200, 150) true)
           [mkMouseEvent (400, 400) (500, 500) true]
           (mkMouseEvent (100, 50) (230, 140) true)); reflexivity.
Defined.

(** X17: on a display at least 160 by 120, "Add Region" appends a frame
    that lies on the display, centred to the pixel (the margin on the
    right and below is the one on the left and above, or one pixel more),
    and that has the minimum size; "Remove Last" then takes exactly that
    frame away. *)
Theorem add_region_default_centred (os : win32) (handles : list ResizableFrame.t)
    (Hw : 4 * MIN_WIDTH <= SCREEN_W os) (Hh : 4 * MIN_HEIGHT <= SCREEN_H os) :
  exists g,
    RegionSelector.add_region_default os handles = handles ++ [init g] /\
    RegionSelector.remove_last (RegionSelector.add_region_default os handles) =
      handles /\
    0 <= qx g /\ 0 <= qy g /\
    0 <= (SCREEN_W os - (qx g + qwidth g)) - qx g <= 1 /\
    0 <= (SCREEN_H os - (qy g + qheight g)) - qy g <= 1 /\
    MIN_WIDTH <= qwidth g /\ MIN_HEIGHT <= qheight g.
Proof.
  exists (default_geometry (SCREEN_W os) (SCREEN_H os)).
  split; [reflexivity|]. split.
  { unfold RegionSelector.add_region_default, RegionSelector.remove_last.
    rewrite removelast_last. now destruct handles. }
  unfold default_geometry, MIN_WIDTH, MIN_HEIGHT in *. cbn [qx qy qwidth qheight].
  pose proof (Z.div_mod (SCREEN_W os) 4 ltac:(lia)) as A1.
  pose proof (Z.mod_pos_bound (SCREEN_W os) 4 ltac:(lia)) as A2.
  pose proof (Z.div_mod (SCREEN_H os) 4 ltac:(lia)) as B1.
  pose proof (Z.mod_pos_bound (SCREEN_H os) 4 ltac:(lia)) as B2.
  remember (SCREEN_W os / 4) as fw. remember (SCREEN_H os / 4) as fh.
  pose proof (Z.div_mod (SCREEN_W os - fw) 2 ltac:(lia)) as C1.
  pose proof (Z.mod_pos_bound (SCREEN_W os - fw) 2 ltac:(lia)) as C2.
  pose proof (Z.div_mod (SCREEN_H os - fh) 2 ltac:(lia)) as D1.
  pose proof (Z.mod_pos_bound (SCREEN_H os - fh) 2 ltac:(lia)) as D2.
  remember ((SCREEN_W os - fw) / 2) as x. remember ((SCREEN_H os - fh) / 2) as y.
  lia.
Qed.

(** On the sample desktop, 1920 by 1080, the frame added is 480 by 270
    at (720, 405). *)
Lemma add_region_default_centred_witness :
  exists g,
    RegionSelector.add_region_default desktop_on_B [] = [init g] /\
    g = mkQRect 720 405 480 270.
Proof.
  destruct (add_region_default_centred desktop_on_B []) as (g & E & _).
  - unfold MIN_WIDTH. cbn. lia.
  - unfold MIN_HEIGHT. cbn. lia.
  - exists g. split; [exact E|]. vm_compute in E. now injection E as <-.
Defined.

(** ** A save that is cut short *)

Lemma parse_value_nil (n : nat) : parse_value n [] = None.
Proof. now destruct n. Qed.

Lemma parse_elems_nil (n : nat) : parse_elems n [] = None.
Proof. destruct n; [reflexivity|]. now rewrite parse_elems_S, parse_value_nil. Qed.

Lemma parse_elems_O (ts : list token) : parse_elems 0 ts = None.
Proof. reflexivity. Qed.

Lemma parse_members_O (ts : list token) : parse_members 0 ts = None.
Proof. reflexivity. Qed.

Lemma consumes_elems (l : list pyval) :
  l <> [] -> Forall consumes l ->
  forall n rest,
    parse_elems n (dump_elems l ++ TRBracket :: rest) = None \/
    exists vs, parse_elems n (dump_elems l ++ TRBracket :: rest) = Some (vs, rest).
Proof.
  induction l as [|x l IH]; [congruence|].
  intros _ HF n rest. inversion HF as [|? ? Hx Hl]; subst.
  destruct n as [|n]; [now left|]. rewrite parse_elems_S.
  destruct l as [|y l].
  - cbn [dump_elems]. destruct (Hx n (TRBracket :: rest)) as [->|(v' & ->)];
      [now left | right; now exists [v']].
  - change (dump_elems (x :: y :: l))
      with (json_dump x ++ TComma :: dump_elems (y :: l)).
    rewrite <- app_assoc. cbn [app].
    destruct (Hx n (TComma :: dump_elems (y :: l) ++ TRBracket :: rest))
      as [->|(v' & ->)]; [now left|].
    destruct (IH ltac:(discriminate) Hl n rest) as [->|(vs & ->)];
      [now left | right; now exists (v' :: vs)].
Qed.

Lemma consumes_members (d : list (string * pyval)) :
  d <> [] -> Forall (fun kv => consumes (snd kv)) d ->
  forall n rest,
    parse_members n (dump_members d ++ TRBrace :: rest) = None \/
    exists ms, parse_members n (dump_members d ++ TRBrace :: rest) = Some (ms, rest).
Proof.
  induction d as [|[k x] d IH]; [congruence|].
  intros _ HF n rest. inversion HF as [|? ? Hx Hd]; subst. cbn [snd] in Hx.
  destruct n as [|n]; [now left|].
  destruct d as [|[k' y] d].
  - cbn [dump_members app]. rewrite parse_members_S.
    destruct (Hx n (TRBrace :: rest)) as [->|(v' & ->)];
      [now left | right; now exists [(k, v')]].
  - change (dump_members ((k, x) :: (k', y) :: d))
      with (TString k :: TColon :: json_dump x ++
            TComma :: dump_members ((k', y) :: d)).
    cbn [app]. rewrite parse_members_S. rewrite <- app_assoc. cbn [app].
    destruct (Hx n (TComma :: dump_members ((k', y) :: d) ++ TRBrace :: rest))
      as [->|(v' & ->)]; [now left|].
    destruct (IH ltac:(discriminate) Hd n rest) as [->|(ms & ->)];
      [now left | right; now exists ((k, v') :: ms)].
Qed.

Lemma dump_members_head (k : string) (x : pyval) (d : list (string * pyval)) :
  exists ts, dump_members ((k, x) :: d) = TString k :: TColon :: ts.
Proof. destruct d as [|[? ?] ?]; eexists; reflexivity. Qed.

Lemma json_dump_consumes (v : pyval) : consumes v.
Proof.
  assert (HL : forall l, Forall consumes l -> consumes (PList l)).
  { intros l IH n rest. rewrite json_dump_list. cbn [app]. rewrite <- app_assoc.
    cbn [app]. destruct n as [|n]; [now left|].
    destruct l as [|x l]; [right; now exists (PList [])|].
    rewrite parse_value_array by apply dump_elems_opens.
    destruct (consumes_elems (x :: l) ltac:(discriminate) IH n rest)
      as [->|(vs & ->)]; [now left | right; now exists (PList vs)]. }
  induction v as [| b | z | f | s | l IH | l IH | d IH] using pyval_induction.
  - intros [|n] rest; [now left | right; now exists PNone].
  - intros [|n] rest; [now left|]. right. exists (PBool b). now destruct b.
  - intros [|n] rest; [now left | right; now exists (PInt z)].
  - intros [|n] rest; [now left | right; now exists (PFloat f)].
  - intros [|n] rest; [now left | right; now exists (PStr s)].
  - now apply HL.
  - change (consumes (PTuple l))
      with (forall n rest,
              parse_value n (json_dump (PList l) ++ rest) = None \/
              exists v', parse_value n (json_dump (PList l) ++ rest) = Some (v', rest)).
    now apply HL.
  - intros n rest. rewrite json_dump_dict. cbn [app]. rewrite <- app_assoc.
    cbn [app]. destruct n as [|n]; [now left|].
    destruct d as [|[k x] d]; [right; now exists (PDict [])|].
    destruct (dump_members_head k x d) as [ts E].
    pose proof E as E'.
    apply (f_equal (fun l => l ++ TRBrace :: rest)) in E'. cbn [app] in E'.
    rewrite E'. rewrite parse_value_object. rewrite <- E'.
    destruct (consumes_members ((k, x) :: d) ltac:(discriminate) IH n rest)
      as [->|(ms & ->)]; [now left | right; eexists; reflexivity].
Qed.

Lemma split_cut {A : Type} (a b q s : list A) :
  a ++ b = q ++ s ->
  (exists l, l <> [] /\ a = q ++ l) \/ (exists l, q = a ++ l /\ b = l ++ s).
Proof.
  intros H. apply app_eq_app in H. destruct H as (l & [[-> ->]|[-> ->]]).
  - destruct l as [|t l].
    + right. exists []. now rewrite !app_nil_r.
    + left. exists (t :: l). split; [discriminate | reflexivity].
  - right. now exists l.
Qed.

Lemma cut_single {A : Type} (t : A) (l s : list A) :
  s <> [] -> [t] = l ++ s -> l = [].
Proof.
  intros Hs E. destruct l as [|t' l]; [reflexivity|].
  exfalso. apply Hs. injection E as _ E. symmetry in E.
  now apply app_eq_nil in E.
Qed.

Lemma parse_elems_after (x : pyval) (n : nat) :
  parse_elems (S n) (json_dump x) = None.
Proof.
  rewrite parse_elems_S.
  destruct (json_dump_consumes x n []) as [E|(v' & E)];
    rewrite app_nil_r in E; now rewrite E.
Qed.

Lemma unfinished_elems (l : list pyval) :
  l <> [] -> Forall unfinished l ->
  forall n q s, s <> [] -> dump_elems l ++ [TRBracket] = q ++ s ->
                parse_elems n q = None.
Proof.
  induction l as [|x l IH]; [congruence|].
  intros _ HF n q s Hs E. inversion HF as [|? ? Hx Hl]; subst.
  destruct n as [|n]; [reflexivity|].
  destruct l as [|y l].
  - cbn [dump_elems] in E. apply split_cut in E.
    destruct E as [(l' & Hl' & E)|(l' & -> & E)].
    + rewrite parse_elems_S. now rewrite (Hx n q l' Hl' E).
    + apply cut_single in E; [|exact Hs]. subst l'. rewrite app_nil_r.
      apply parse_elems_after.
  - change (dump_elems (x :: y :: l))
      with (json_dump x ++ TComma :: dump_elems (y :: l)) in E.
    rewrite <- app_assoc in E. cbn [app] in E. apply split_cut in E.
    destruct E as [(l' & Hl' & E)|(l' & -> & E)].
    + rewrite parse_elems_S. now rewrite (Hx n q l' Hl' E).
    + destruct l' as [|t l'].
      * rewrite app_nil_r. apply parse_elems_after.
      * cbn [app] in E. injection E as <- E.
        rewrite parse_elems_S.
        destruct (json_dump_consumes x n (TComma :: l')) as [->|(v' & ->)];
          [reflexivity|].
        now rewrite (IH ltac:(discriminate) Hl n l' s Hs E).
Qed.

Lemma parse_members_after (k : string) (x : pyval) (n : nat) :
  parse_members (S n) (TString k :: TColon :: json_dump x) = None.
Proof.
  rewrite parse_members_S.
  destruct (json_dump_consumes x n []) as [E|(v' & E)];
    rewrite app_nil_r in E; now rewrite E.
Qed.

Lemma unfinished_members (d : list (string * pyval)) :
  d <> [] -> Forall (fun kv => unfinished (snd kv)) d ->
  forall n q s, s <> [] -> dump_members d ++ [TRBrace] = q ++ s ->
                parse_members n q = None.
Proof.
  induction d as [|[k x] d IH]; [congruence|].
  intros _ HF n q s Hs E. inversion HF as [|? ? Hx Hd]; subst. cbn [snd] in Hx.
  destruct n as [|n]; [reflexivity|].
  assert (Hq : q = [] \/ q = [TString k] \/
               exists q', q = TString k :: TColon :: q' /\
                          (match d with
                           | [] => json_dump x ++ [TRBrace]
                           | _ => json_dump x ++ TComma :: dump_members d ++ [TRBrace]
                           end) = q' ++ s).
  { destruct q as [|t q]; [now left|]. right.
    destruct q as [|t' q].
    - left. destruct d as [|[k' y] d]; cbn in E; now injection E as <-.
    - right. exists q. destruct d as [|[k' y] d].
      + cbn [dump_members app] in E. injection E as <- <- E. now split.
      + change (dump_members ((k, x) :: (k', y) :: d))
          with (TString k :: TColon :: json_dump x ++
                TComma :: dump_members ((k', y) :: d)) in E.
        cbn [app] in E. injection E as <- <- E. rewrite <- app_assoc in E.
        now split. }
  destruct Hq as [->|[->|(q' & -> & E')]]; [reflexivity | reflexivity |].
  clear E. destruct d as [|[k' y] d].
  - apply split_cut in E'. destruct E' as [(l' & Hl' & E)|(l' & -> & E)].
    + rewrite parse_members_S. now rewrite (Hx n q' l' Hl' E).
    + apply cut_single in E; [|exact Hs]. subst l'. rewrite app_nil_r.
      apply parse_members_after.
  - apply split_cut in E'. destruct E' as [(l' & Hl' & E)|(l' & -> & E)].
    + rewrite parse_members_S. now rewrite (Hx n q' l' Hl' E).
    + destruct l' as [|t l'].
      * rewrite app_nil_r. apply parse_members_after.
      * cbn [app] in E. injection E as <- E.
        rewrite parse_members_S.
        destruct (json_dump_consumes x n (TComma :: l')) as [->|(v' & ->)];
          [reflexivity|].
        now rewrite (IH ltac:(discriminate) Hd n l' s Hs E).
Qed.

Lemma json_dump_unfinished (v : pyval) : unfinished v.
Proof.
  assert (Hscalar : forall t n p s, s <> [] -> [t] = p ++ s -> parse_value n p = None).
  { intros t n p s Hs E. apply cut_single in E; [|exact Hs]. subst.
    apply parse_value_nil. }
  assert (HL : forall l, Forall unfinished l -> unfinished (PList l)).
  { intros l IH n p s Hs E. rewrite json_dump_list in E.
    destruct p as [|t q]; [apply parse_value_nil|].
    cbn [app] in E. injection E as <- E.
    destruct n as [|n]; [reflexivity|].
    destruct q as [|t q].
    - change (parse_value (S n) [TLBracket])
        with (match parse_elems n [] with
              | Some (vs, r') => Some (PList vs, r')
              | None => None
              end).
      now rewrite parse_elems_nil.
    - destruct l as [|x l].
      + cbn [dump_elems app] in E. apply (cut_single _ (t :: q) s Hs) in E.
        discriminate.
      + pose proof (dump_elems_opens x l [TRBracket]) as Ho. rewrite E in Ho.
        rewrite parse_value_array by exact Ho.
        now rewrite (unfinished_elems (x :: l) ltac:(discriminate) IH n (t :: q) s Hs E). }
  induction v as [| b | z | f | s | l IH | l IH | d IH] using pyval_induction.
  - intros n p s Hs E. exact (Hscalar _ n p s Hs E).
  - intros n p s Hs E. destruct b; exact (Hscalar _ n p s Hs E).
  - intros n p s Hs E. exact (Hscalar _ n p s Hs E).
  - intros n p s Hs E. exact (Hscalar _ n p s Hs E).
  - intros n p s0 Hs E. exact (Hscalar _ n p s0 Hs E).
  - now apply HL.
  - intros n p s Hs E. exact (HL l IH n p s Hs E).
  - intros n p s Hs E. rewrite json_dump_dict in E.
    destruct p as [|t q]; [apply parse_value_nil|].
    cbn [app] in E. injection E as <- E.
    destruct n as [|n]; [reflexivity|].
    destruct q as [|t q].
    + change (parse_value (S n) [TLBrace])
        with (match parse_members n [] with
              | Some (ms, r') => Some (PDict (dict_of_members ms), r')
              | None => None
              end).
      now destruct n.
    + destruct d as [|[k x] d].
      * cbn [dump_members app] in E. apply (cut_single _ (t :: q) s Hs) in E.
        discriminate.
      * destruct (dump_members_head k x d) as [ts Ed].
        assert (Et : t = TString k).
        { rewrite Ed in E. cbn [app] in E. now injection E. }
        subst t. rewrite parse_value_object.
        now rewrite (unfinished_members ((k, x) :: d) ltac:(discriminate) IH n
                       (TString k :: q) s Hs E).
Qed.

(** X18: a save that is interrupted after the file was opened and before
    the last token was written leaves a file that [load_mappings] rejects
    with [JSONDecodeError], whatever mapping was being saved and whatever
    the file held before: a partial document is never taken for a
    mapping. *)
Theorem interrupted_save_unreadable
    (float_of_str : string -> result float) (m : pyval) (f : file) (k : nat)
    (Hk : (1 <= k <= length (json_dump m))%nat) :
  load_mappings float_of_str (save_interrupted k m f) = Raise JSONDecodeError.
Proof.
  destruct k as [|j]; [lia|]. rewrite save_interrupted_prefix.
  unfold load_mappings, json_load.
  rewrite (json_dump_unfinished m _ (firstn j (json_dump m)) (skipn j (json_dump m))).
  - reflexivity.
  - intros E. apply (f_equal (@length token)) in E. rewrite length_skipn in E.
    cbn [length] in E. lia.
  - symmetry. apply firstn_skipn.
Qed.

(** The sample mapping has 35 tokens; a save of it that stops after 20 of
    them leaves an unreadable file. *)
Lemma interrupted_save_unreadable_witness :
  length (json_dump left_half_mapping) = 35%nat /\
  load_mappings no_text_floats (save_interrupted 21 left_half_mapping None) =
    Raise JSONDecodeError.
Proof.
  split; [reflexivity|].
  apply (interrupted_save_unreadable no_text_floats left_half_mapping None 21).
  cbn. lia.
Defined.

(** ** From the mapping file to the desktop *)

Lemma dict_get_entries (entries : list (string * list region)) (name : string)
    (cfg : pyval) :
  dict_get (map entry_to_py entries) name = Some cfg ->
  exists items, cfg = PList (map region_to_py items).
Proof.
  induction entries as [|[k rs] entries IH]; [discriminate|].
  cbn [map entry_to_py fst snd dict_get].
  destruct (String.eqb k name); [|exact IH].
  intros E. injection E as <-. now exists rs.
Qed.

Lemma load_mappings_shape (float_of_str : string -> result float) (f : file)
    (store : list (string * pyval)) :
  load_mappings float_of_str f = Ok (PDict store) ->
  exists entries, store = map entry_to_py entries.
Proof.
  destruct f as [ts|]; cbn [load_mappings].
  2: { intros E. injection E as <-. now exists []. }
  destruct (json_load ts) as [raw|e]; [|discriminate]. cbn [bind].
  destruct raw as [| b | z | g | s | l | l | d];
    try (intros E; injection E as <-; now exists []).
  cbn [normalize_loaded].
  destruct (normalize_entries float_of_str [] d) as [out|e] eqn:E; [|discriminate].
  cbn [bind]. intros E'. injection E' as <-.
  destruct (normalize_entries_shape float_of_str d [] out eq_refl E)
    as (entries' & -> & _).
  now exists entries'.
Qed.

Lemma regions_back (items : list region) :
  map region_of_dict (map region_to_py items) = items.
Proof.
  rewrite map_map. rewrite <- (map_id items) at 2. apply map_ext.
  apply region_of_dict_to_py.
Qed.

(** X19: from the mapping file to the desktop. With the store that
    [load_mappings] returned, a recording that is classified as a gesture
    of the store always reaches [tile_window] with a list of four-float
    region records, so no conversion can fail; when the regions scale to
    pixels, [record_and_action] returns normally, prints the recording
    line, the detection line and the lines of the tiling, and with
    distinct window handles puts candidate [k] on the stored region [k]
    unless its calls raise. *)
Theorem hotkey_tiles_loaded_store
    (float_of_str : string -> result float) (f : file)
    (store : list (string * pyval)) (moved : list Point)
    (recorder : Recorder.t) (os : win32) (log : list log_line)
    (name : string) (cfg : pyval)
    (Hload : load_mappings float_of_str f = Ok (PDict store))
    (Hcls : classify moved = Ok (Some name))
    (Hget : dict_get store name = Some cfg) :
  exists items,
    cfg = PList (map region_to_py items) /\
    (Forall (fun r => placeable os r = true) items ->
     exists os',
       fst (record_and_action float_of_str store moved recorder (os, log)) =
         Ok tt /\
       snd (snd (record_and_action float_of_str store moved recorder (os, log))) =
         (os', log ++ InfoRecording :: InfoDetected name ::
                      tiling_lines os cfg items) /\
       (NoDup (map hwnd (windows os)) ->
        forall k r h,
          nth_error items k = Some r ->
          nth_error (focus_first (foreground os) (enum_tilable_windows os)) k =
            Some h ->
          placement_of os' h =
          if faulty os h then placement_of os h else planned os r)).
Proof.
  destruct (load_mappings_shape float_of_str f store Hload) as (entries & ->).
  destruct (dict_get_entries entries name cfg Hget) as (items & ->).
  exists items. split; [reflexivity|]. intros Hpx.
  destruct (tile_window_run float_of_str os
              ((log ++ [InfoRecording]) ++ [InfoDetected name])
              (map region_to_py items)) as (os' & E & _ & Hs).
  { apply Forall_forall. intros v Hin. apply in_map_iff in Hin.
    destruct Hin as (r & <- & _). apply is_region_dict_to_py. }
  { apply Forall_forall. intros v Hin. apply in_map_iff in Hin.
    destruct Hin as (r & <- & Hr). rewrite region_of_dict_to_py.
    rewrite Forall_forall in Hpx. now apply Hpx. }
  rewrite regions_back in E, Hs.
  exists os'.
  assert (Erun : record_and_action float_of_str (map entry_to_py entries) moved
                   recorder (os, log) =
                 (Ok tt, (Recorder.init,
                          (os', log ++ InfoRecording :: InfoDetected name ::
                                       tiling_lines os (PList (map region_to_py items))
                                         items)))).
  { unfold record_and_action. unfold classify in Hcls. rewrite run_moves.
    cbn [fst Recorder.fetch Recorder.pts Recorder.clear app].
    rewrite Hcls, Hget, E. rewrite <- !app_assoc. reflexivity. }
  rewrite Erun. split; [reflexivity|]. split; [reflexivity | exact Hs].
Qed.

(** The sample mapping saved and loaded, the sample stroke, and the
    desktop with one window: the window takes the left half of the
    primary display. *)
Lemma hotkey_tiles_loaded_store_witness :
  exists os',
    snd (snd (record_and_action no_text_floats
                [("L_down_right", PList [region_to_py (mkRegion 0 0 0.5 1)])]
                LV_sample Recorder.init (desktop_on_B, []))) =
      (os', [InfoRecording; InfoDetected "L_down_right";
             InfoTiled 100 1 (mkRegion 0 0 0.5 1)]) /\
    placement_of os' 100 = Some (0, 0, 960, 1080).
Proof.
  destruct (hotkey_tiles_loaded_store no_text_floats
              (save_mappings left_half_mapping None)
              [("L_down_right", PList [region_to_py (mkRegion 0 0 0.5 1)])]
              LV_sample Recorder.init desktop_on_B [] "L_down_right"
              (PList [region_to_py (mkRegion 0 0 0.5 1)]))
    as (items & Ei & H).
  - vm_compute. reflexivity.
  - vm_compute. reflexivity.
  - reflexivity.
  - assert (Hitems : items = [mkRegion 0 0 0.5 1]).
    { injection Ei as Ei. destruct items as [|r [|r' items]]; try discriminate.
      cbn [map] in Ei. injection Ei as Ex Ey Ew Eh. destruct r. cbn in *.
      now subst. }
    subst items.
    destruct H as (os' & _ & E & Hp); [repeat constructor|].
    exists os'. split; [exact E|].
    apply (Hp ltac:(repeat constructor; cbn; tauto) 0%nat (mkRegion 0 0 0.5 1) 100);
      reflexivity.
Defined.

(** ** Tiling from the raw and from the normalised mapping *)

Lemma regions_of_cfg_normalize (float_of_str : string -> result float) (cfg : pyval) :
  not_tuple cfg = true ->
  regions_of_cfg float_of_str cfg = normalize_items float_of_str cfg.
Proof. destruct cfg; try discriminate; reflexivity. Qed.

(** X20: [tile_window] reads a mapping the way [normalize_loaded] does.
    For a value that is not a tuple, the regions that [tile_window] builds
    are the items that [normalize_loaded] builds, conversion errors
    included; so when a gesture has at least one item, tiling from the
    raw value and tiling from its normalised form are the same run: same
    outcome, same desktop, same lines. *)
Theorem tile_window_reads_like_normalize
    (float_of_str : string -> result float) (cfg : pyval) (st : world)
    (Hcfg : not_tuple cfg = true) :
  regions_of_cfg float_of_str cfg = normalize_items float_of_str cfg /\
  (forall e, normalize_items float_of_str cfg = Raise e ->
             tile_window float_of_str cfg st = (Raise e, st)) /\
  (forall items, normalize_items float_of_str cfg = Ok items ->
     fst (tile_window float_of_str (PList (map region_to_py items)) st) =
       fst (tile_window float_of_str cfg st) /\
     fst (snd (tile_window float_of_str (PList (map region_to_py items)) st)) =
       fst (snd (tile_window float_of_str cfg st)) /\
     (items <> [] ->
      tile_window float_of_str (PList (map region_to_py items)) st =
        tile_window float_of_str cfg st)).
Proof.
  pose proof (regions_of_cfg_normalize float_of_str cfg Hcfg) as E.
  split; [exact E|]. destruct st as [os log]. split.
  - intros e He. unfold tile_window. now rewrite E, He.
  - intros items Hi.
    assert (E' : regions_of_cfg float_of_str (PList (map region_to_py items)) =
                 Ok items).
    { rewrite regions_of_cfg_normalize by reflexivity. apply normalize_items_regions. }
    unfold tile_window. rewrite E, Hi, E'.
    destruct items as [|r items].
    + split; [reflexivity|]. split; [reflexivity|]. congruence.
    + split; [reflexivity|]. split; [reflexivity|]. reflexivity.
Qed.

(** The flat list [[0, 0, 0.5, 1]] and the one region that it is
    normalised to put the window of the sample desktop on the same
    rectangle. *)
Lemma tile_window_reads_like_normalize_witness :
  tile_window no_text_floats (PList [region_to_py (mkRegion 0 0 0.5 1)])
              (desktop_on_B, []) =
  tile_window no_text_floats (PList [PInt 0; PInt 0; PFloat 0.5; PInt 1])
              (desktop_on_B, []) /\
  placement_of
    (fst (snd (tile_window no_text_floats (PList [PInt 0; PInt 0; PFloat 0.5; PInt 1])
                 (desktop_on_B, [])))) 100 = Some (0, 0, 960, 1080).
Proof.
  split; [|vm_compute; reflexivity].
  destruct (tile_window_reads_like_normalize no_text_floats
              (PList [PInt 0; PInt 0; PFloat 0.5; PInt 1]) (desktop_on_B, []))
    as (_ & _ & H).
  - reflexivity.
  - destruct (H [mkRegion 0 0 0.5 1]) as (_ & _ & K).
    + vm_compute. reflexivity.
    + apply K. discriminate.
Defined.
